(** * LifelongVAE_pytorch: the VAE model and its numeric helpers

    A shallow embedding of [helpers/utils.py] and [models/vae.py].

    Numbers.  The helpers [scale] and [softmax_accuracy] are embedded over
    exact rationals ([Q]), [one_hot] and [one_hot_np] over integers ([Z]).
    The loss code of the VAE and the normalisation of images use [exp],
    [log] and square roots, so their tensors hold real numbers ([R]);
    rounding of floating point numbers is outside this model.

    Libraries.  The calls into torch and numpy ([scatter_], [view],
    [unsqueeze], the constructors of the layers, broadcasting) behave as in
    torch 1.0 and later and in numpy.

    Errors.  A Python call either returns a value or raises; [result]
    records which, and the exception raised. *)

From Stdlib Require Import ZArith QArith List String Ascii Bool Lia.
From Stdlib Require Import Reals Lra.
From Stdlib Require Import DecimalString DecimalZ.
Import ListNotations.

Set Implicit Arguments.

(* ================================================================= *)
(** * Part I: the embedding *)
(* ================================================================= *)

(** ** Python values that raise *)

Module Py.

Inductive exn : Type :=
| ZeroDivisionError
| IndexError
| AssertionError
| AttributeError (name : string)
| KeyError (key : string)
| TypeError (msg : string)
| ValueError (msg : string)
| OverflowError
| RuntimeError (msg : string)
| Exception (msg : string).

Inductive result (A : Type) : Type :=
| Ok (a : A)
| Raise (e : exn).

Arguments Ok {A} a.
Arguments Raise {A} e.

Definition bind {A B : Type} (r : result A) (k : A -> result B) : result B :=
  match r with
  | Ok a => k a
  | Raise e => Raise e
  end.

Definition returns {A : Type} (r : result A) : bool :=
  match r with
  | Ok _ => true
  | Raise _ => false
  end.

(** [l[i]] for a non-negative literal index [i]. *)
Definition getitem {A : Type} (l : list A) (i : nat) : result A :=
  match nth_error l i with
  | Some a => Ok a
  | None => Raise IndexError
  end.

End Py.

Import Py.

Notation "x <- c1 ;; c2" := (Py.bind c1 (fun x => c2))
  (at level 61, c1 at next level, right associativity).

(** ** helpers/utils.py *)

Module Utils.

(** Python's [/] on exact numbers. *)
Definition truediv (a b : Q) : result Q :=
  if Qeq_bool b 0 then Raise ZeroDivisionError else Ok (a / b)%Q.

(** [scale(val, src, dst)]:
    [((val - src[0]) / (src[1]-src[0])) * (dst[1]-dst[0]) + dst[0]],
    the operands read from left to right. *)
Definition scale (val : Q) (src dst : list Q) : result Q :=
  s0 <- getitem src 0 ;;
  s1 <- getitem src 1 ;;
  s0' <- getitem src 0 ;;
  q <- truediv (val - s0) (s1 - s0') ;;
  d1 <- getitem dst 1 ;;
  d0 <- getitem dst 0 ;;
  d0' <- getitem dst 0 ;;
  Ok (q * (d1 - d0) + d0')%Q.

(** A two-dimensional [LongTensor], row by row. *)
Definition matrix : Type := list (list Z).

(** [LongTensor(n, k).fill_(v)]. *)
Definition fill (n k : nat) (v : Z) : matrix := repeat (repeat v k) n.

(** [row[c] = v] for [c] in range. *)
Fixpoint set_at (row : list Z) (c : nat) (v : Z) : list Z :=
  match row, c with
  | [], _ => []
  | _ :: row', O => v :: row'
  | x :: row', S c' => x :: set_at row' c' v
  end.

(** The source of a [scatter_]: a number, or a tensor read at the position
    of the index entry. *)
Inductive scatter_src : Type :=
| SrcScalar (v : Z)
| SrcTensor (m : matrix).

Definition src_at (s : scatter_src) (i j : nat) : result Z :=
  match s with
  | SrcScalar v => Ok v
  | SrcTensor m =>
      match nth_error m i with
      | Some r =>
          match nth_error r j with
          | Some v => Ok v
          | None => Raise (RuntimeError "scatter_: index larger than src")
          end
      | None => Raise (RuntimeError "scatter_: index larger than src")
      end
  end.

(** One row of [scatter_(1, index, src)]:
    [row[index[i][j]] = src[i][j]] for every [j], in order.  A column
    outside the row is an error; negative columns do not wrap around. *)
Fixpoint scatter_row (s : scatter_src) (i j : nat) (idx : list Z)
  (row : list Z) : result (list Z) :=
  match idx with
  | [] => Ok row
  | c :: idx' =>
      if ((0 <=? c) && (c <? Z.of_nat (List.length row)))%Z then
        v <- src_at s i j ;;
        scatter_row s i (S j) idx' (set_at row (Z.to_nat c) v)
      else Raise (RuntimeError "scatter_: index out of range")
  end.

(** [mask.scatter_(1, index, src)] on two-dimensional tensors: the rows of
    [index] are scattered into the rows of [mask] of the same number; [index]
    may not have more rows than [mask]. *)
Fixpoint scatter_1 (s : scatter_src) (i : nat) (index : matrix)
  (mask : matrix) : result matrix :=
  match index with
  | [] => Ok mask
  | idx :: index' =>
      match mask with
      | [] => Raise (RuntimeError "scatter_: index larger than self")
      | row :: mask' =>
          row' <- scatter_row s i 0 idx row ;;
          rest <- scatter_1 s (S i) index' mask' ;;
          Ok (row' :: rest)
      end
  end.

(** [one_hot(size, index)].  [index] is a two-dimensional tensor of longs;
    [index_is_variable] says whether it is wrapped in a [Variable], in which
    case [ones] is a tensor of the shape of [index] filled with 1 instead of
    the number 1.  [use_cuda] only selects the device of the tensors and is
    left out.  [scatter_(1, ...)] needs a two-dimensional mask to match the
    index: any other [size] raises. *)
Definition one_hot (size : list nat) (index : matrix)
  (index_is_variable : bool) : result matrix :=
  match size with
  | [n; k] =>
      let mask := fill n k 0 in
      let ones :=
        if index_is_variable
        then SrcTensor (map (map (fun _ => 1%Z)) index)
        else SrcScalar 1 in
      scatter_1 ones 0 index mask
  | _ => Raise (RuntimeError "scatter_: index and self differ in dimensions")
  end.

(** The sum of the entries of a row. *)
Definition row_sum (row : list Z) : Z := fold_right Z.add 0%Z row.


(** The column numpy writes for the index [c] of a row of [num_cols]
    entries: a negative index counts from the end of the row, and an index
    outside [[-num_cols, num_cols)] raises. *)
Definition np_column (num_cols : nat) (c : Z) : result nat :=
  let k := Z.of_nat num_cols in
  if ((- k <=? c) && (c <? k))%Z
  then Ok (Z.to_nat (if (c <? 0)%Z then c + k else c))
  else Raise IndexError.

Fixpoint np_columns (num_cols : nat) (indices : list Z) : result (list nat) :=
  match indices with
  | [] => Ok []
  | c :: indices' =>
      j <- np_column num_cols c ;;
      js <- np_columns num_cols indices' ;;
      Ok (j :: js)
  end.

(** [one_hot_np(num_cols, indices)]: [mat[np.arange(num_rows), indices] = 1]
    writes a 1 in row [i] at column [indices[i]], after all the indices have
    been checked.  The entries of [mat] are the floats 0.0 and 1.0, held
    here as integers. *)
Definition one_hot_np (num_cols : nat) (indices : list Z) : result matrix :=
  let num_rows := List.length indices in
  let mat := fill num_rows num_cols 0 in
  cols <- np_columns num_cols indices ;;
  Ok (map (fun rc => set_at (fst rc) (snd rc) 1%Z) (combine mat cols)).

(** The index [max] gives for a row: that of a largest entry.  Among equal
    largest entries torch does not say which one it returns; the first is
    taken here.  [best] is the largest entry so far, at index [besti], and
    [i] the index of the head of [row]. *)
Fixpoint argmax_from (best : Q) (besti i : nat) (row : list Q) : nat :=
  match row with
  | [] => besti
  | v :: row' =>
      if Qlt_le_dec best v then argmax_from v i (S i) row'
      else argmax_from best besti (S i) row'
  end.

Definition argmax (row : list Q) : result nat :=
  match row with
  | [] => Raise (RuntimeError "max: cannot reduce an empty dimension")
  | v :: row' => Ok (argmax_from v 0 1 row')
  end.

(** [preds.max(1)[1]] for a two-dimensional [preds]. *)
Fixpoint max_1_indices (preds : list (list Q)) : result (list nat) :=
  match preds with
  | [] => Ok []
  | row :: preds' =>
      i <- argmax row ;;
      rest <- max_1_indices preds' ;;
      Ok (i :: rest)
  end.

Definition qsum (l : list Q) : Q := fold_right Qplus 0%Q l.

(** [softmax_accuracy(preds, targets, size_average=True)] for [preds] of
    two dimensions and [targets] of one.  [eq] wants two tensors of one
    size; the mean of no entries is not a number and is left to the
    properties' hypotheses. *)
Definition softmax_accuracy (preds : list (list Q)) (targets : list Z)
  (size_average : bool) : result Q :=
  pred <- max_1_indices preds ;;
  if Nat.eqb (List.length pred) (List.length targets) then
    let hits :=
      map (fun pt => if Z.eqb (Z.of_nat (fst pt)) (snd pt) then 1%Q else 0%Q)
        (combine pred targets) in
    Ok (if size_average
        then (qsum hits / inject_Z (Z.of_nat (List.length hits)))%Q
        else qsum hits)
  else Raise (RuntimeError "inconsistent tensor size").

End Utils.


(** ** The part of torch the model uses *)

Module Torch.

Open Scope R_scope.

(** A tensor of reals: its size and its entries in row-major order. *)
Record tensor : Type := mk_tensor { size : list nat; data : list R }.

Definition numel (shape : list nat) : nat := fold_right Nat.mul 1%nat shape.

Definition well_formed (t : tensor) : Prop :=
  List.length (data t) = numel (size t).

(** [a.size() == b.size()]. *)
Definition size_eqb (a b : list nat) : bool :=
  if list_eq_dec Nat.eq_dec a b then true else false.

(** A two-dimensional tensor, row by row; a one-dimensional tensor. *)
Definition rows : Type := list (list R).
Definition vec : Type := list R.

Fixpoint chunks (m n : nat) (l : list R) : rows :=
  match n with
  | O => []
  | S n' => firstn m l :: chunks m n' (skipn m l)
  end.

(** [t.view(batch_size, -1)]: the second size is inferred; there is none to
    infer when [batch_size] is 0. *)
Definition view_rows (t : tensor) (batch_size : nat) : result rows :=
  match batch_size with
  | O => Raise (RuntimeError "view: cannot infer the size of dimension -1")
  | S _ =>
      Ok (chunks (Nat.div (numel (size t)) batch_size) batch_size (data t))
  end.

Fixpoint zip_with (f : R -> R -> R) (a b : list R) : list R :=
  match a, b with
  | x :: a', y :: b' => f x y :: zip_with f a' b'
  | _, _ => []
  end.

Fixpoint zip_rows (f : R -> R -> R) (a b : rows) : rows :=
  match a, b with
  | x :: a', y :: b' => zip_with f x y :: zip_rows f a' b'
  | _, _ => []
  end.

(** Operators on two-dimensional tensors of one size. *)
Definition radd : rows -> rows -> rows := zip_rows Rplus.
Definition rsub : rows -> rows -> rows := zip_rows Rminus.
Definition rmul : rows -> rows -> rows := zip_rows Rmult.
Definition rneg : rows -> rows := map (map Ropp).
Definition rexp : rows -> rows := map (map exp).
Definition rlog : rows -> rows := map (map ln).
Definition rclamp_min (lo : R) : rows -> rows := map (map (fun v => Rmax v lo)).

Definition vsum (v : vec) : R := fold_right Rplus 0 v.

(** [torch.sum(t, dim=-1)] of a two-dimensional tensor. *)
Definition sum_last (t : rows) : vec := map vsum t.

(** [torch.mean(v)].  Of an empty tensor torch gives NaN, which [R] does not
    have; the properties below use it on non-empty tensors only. *)
Definition mean (v : vec) : R := vsum v / INR (List.length v).

(** A binary operator on one-dimensional tensors, with broadcasting: the
    sizes agree, or one of them is 1. *)
Definition broadcast (f : R -> R -> R) (a b : vec) : result vec :=
  match a, b with
  | [x], _ => Ok (map (f x) b)
  | _, [y] => Ok (map (fun x => f x y) a)
  | _, _ =>
      if Nat.eqb (List.length a) (List.length b) then Ok (zip_with f a b)
      else Raise (RuntimeError "The size of tensor a must match the size of tensor b")
  end.

(** A Python number or a one-dimensional tensor, and the arithmetic between
    them. *)
Inductive value : Type :=
| VFloat (r : R)
| VTensor (v : vec).

Definition binop (f : R -> R -> R) (a b : value) : result value :=
  match a, b with
  | VFloat x, VFloat y => Ok (VFloat (f x y))
  | VFloat x, VTensor v => Ok (VTensor (map (f x) v))
  | VTensor v, VFloat y => Ok (VTensor (map (fun x => f x y) v))
  | VTensor v, VTensor w => r <- broadcast f v w ;; Ok (VTensor r)
  end.

(** The layers of an [nn.Sequential], as built; their weights are not
    modelled.  Modelled from the spec: models/layers.py is not among the
    sources; [View shape] reshapes its input to [shape] (the flattening
    before a projection) and [Identity] returns its input. *)
Inductive layer : Type :=
| Upsample (size : list Z)
| Identity
| Conv2d (in_channels out_channels kernel_size stride : Z)
| ConvTranspose2d (in_channels out_channels kernel_size stride : Z)
| BatchNorm2d (num_features : Z)
| BatchNorm1d (num_features : Z)
| Activation (inplace : bool)
| View (shape : list Z)
| Linear (in_features out_features : Z).

(** An [nn.Sequential], possibly wrapped in [nn.DataParallel] and moved to
    the GPU. *)
Record module : Type := mk_module {
  layers : list layer;
  data_parallel : bool;
  on_cuda : bool
}.

(** The constructors of the layers.  A layer with weights allocates them
    when it is built, and a negative size makes the allocation raise (the
    message of torch goes on with the sizes asked for); a size of 0 is
    allocated (an empty tensor).  [nn.Upsample], [nn.ReLU] and the layers
    of models/layers.py only store their arguments. *)
Definition negative_dimension : exn :=
  RuntimeError "Trying to create tensor with negative dimension".

Definition construct (l : layer) : result layer :=
  match l with
  | Conv2d cin cout k _ | ConvTranspose2d cin cout k _ =>
      if ((cin <? 0) || (cout <? 0) || (k <? 0))%Z
      then Raise negative_dimension else Ok l
  | BatchNorm2d f | BatchNorm1d f =>
      if (f <? 0)%Z then Raise negative_dimension else Ok l
  | Linear fin fout =>
      if ((fin <? 0) || (fout <? 0))%Z
      then Raise negative_dimension else Ok l
  | Upsample _ | Identity | Activation _ | View _ => Ok l
  end.

(** [nn.Sequential(l1, l2, ...)]: the arguments are built from left to
    right, and the first constructor that raises ends the call. *)
Fixpoint sequential (ls : list layer) : result (list layer) :=
  match ls with
  | [] => Ok []
  | l :: ls' =>
      l' <- construct l ;; ls'' <- sequential ls' ;; Ok (l' :: ls'')
  end.

Definition shape_error : exn := RuntimeError "size mismatch".

Definition prodZ (l : list Z) : Z := fold_right Z.mul 1%Z l.

(** [x.view] with the sizes [shape], on sizes: at most one entry of [shape] is -1 and is
    inferred from the number of elements. *)
Definition view_shape (shape : list Z) (x : list nat) : result (list nat) :=
  let n := Z.of_nat (numel x) in
  let known := prodZ (filter (fun d => negb (Z.eqb d (-1))) shape) in
  let holes := List.length (filter (fun d => Z.eqb d (-1)) shape) in
  if existsb (fun d => Z.ltb d (-1)) shape then Raise shape_error
  else match holes with
  | O => if Z.eqb known n then Ok (map Z.to_nat shape) else Raise shape_error
  | S O =>
      if (Z.ltb 0 known && Z.eqb (Z.modulo n known) 0)%bool
      then Ok (map (fun d => if Z.eqb d (-1) then Z.to_nat (Z.div n known)
                             else Z.to_nat d) shape)
      else Raise shape_error
  | _ => Raise shape_error
  end.

(** The size of the output of a layer on an input of size [x], or the error
    the layer raises on an input it cannot process. *)
Definition layer_shape (l : layer) (x : list nat) : result (list nat) :=
  match l with
  | Identity | Activation _ => Ok x
  | Upsample sz =>
      match x, sz with
      | [n; c; _; _], [h; w] =>
          if (Z.ltb 0 h && Z.ltb 0 w)%bool
          then Ok [n; c; Z.to_nat h; Z.to_nat w] else Raise shape_error
      | _, _ => Raise shape_error
      end
  | Conv2d cin cout k s =>
      match x with
      | [n; c; h; w] =>
          if (Z.eqb (Z.of_nat c) cin && Z.ltb 0 cout && Z.ltb 0 k && Z.ltb 0 s
              && Z.leb k (Z.of_nat h) && Z.leb k (Z.of_nat w))%bool
          then Ok [n; Z.to_nat cout;
                   Z.to_nat ((Z.of_nat h - k) / s + 1);
                   Z.to_nat ((Z.of_nat w - k) / s + 1)]
          else Raise shape_error
      | _ => Raise shape_error
      end
  | ConvTranspose2d cin cout k s =>
      match x with
      | [n; c; h; w] =>
          if (Z.eqb (Z.of_nat c) cin && Z.ltb 0 cout && Z.ltb 0 k && Z.ltb 0 s
              && Nat.ltb 0 h && Nat.ltb 0 w)%bool
          then Ok [n; Z.to_nat cout;
                   Z.to_nat ((Z.of_nat h - 1) * s + k);
                   Z.to_nat ((Z.of_nat w - 1) * s + k)]
          else Raise shape_error
      | _ => Raise shape_error
      end
  | BatchNorm2d f =>
      match x with
      | [_; c; _; _] => if Z.eqb (Z.of_nat c) f then Ok x else Raise shape_error
      | _ => Raise shape_error
      end
  | BatchNorm1d f =>
      match x with
      | [_; c] => if Z.eqb (Z.of_nat c) f then Ok x else Raise shape_error
      | [_; c; _] => if Z.eqb (Z.of_nat c) f then Ok x else Raise shape_error
      | _ => Raise shape_error
      end
  | View shape => view_shape shape x
  | Linear fin fout =>
      match rev x with
      | d :: front =>
          if (Z.eqb (Z.of_nat d) fin && Z.ltb 0 fout)%bool
          then Ok (rev front ++ [Z.to_nat fout]) else Raise shape_error
      | [] => Raise shape_error
      end
  end.

Fixpoint layers_shape (ls : list layer) (x : list nat) : result (list nat) :=
  match ls with
  | [] => Ok x
  | l :: ls' => y <- layer_shape l x ;; layers_shape ls' y
  end.

(** Calling a module on an input of size [x]. *)
Definition module_shape (m : module) (x : list nat) : result (list nat) :=
  layers_shape (layers m) x.

(** [F.sigmoid] on one entry. *)
Definition F_sigmoid (l : R) : R := 1 / (1 + exp (- l)).

(** [t.view(sizes)] of a tensor: the entries stay, in their order. *)
Definition view (t : tensor) (shape : list Z) : result tensor :=
  s <- view_shape shape (size t) ;; Ok (mk_tensor s (data t)).

(** [torch.squeeze(t)]: the dimensions of size 1 are dropped. *)
Definition squeeze (t : tensor) : tensor :=
  mk_tensor (filter (fun d => negb (Nat.eqb d 1)) (size t)) (data t).

(** [t.unsqueeze(axis)]: a dimension of size 1 is put at [axis], which must
    lie in [[-(d+1), d]] for a tensor of [d] dimensions; a negative [axis]
    stands for [axis + d + 1]. *)
Definition unsqueeze (t : tensor) (axis : Z) : result tensor :=
  let d := Z.of_nat (List.length (size t)) in
  if ((- (d + 1) <=? axis) && (axis <=? d))%Z then
    let p := Z.to_nat (if (axis <? 0)%Z then axis + d + 1 else axis)%Z in
    Ok (mk_tensor (firstn p (size t) ++ 1%nat :: skipn p (size t)) (data t))
  else Raise (RuntimeError "dimension out of range").

End Torch.

(** ** Python strings *)

Module PyStr.

Open Scope string_scope.

(** [str(i)] for an [int]. *)
Definition str_int (z : Z) : string := NilZero.string_of_int (Z.to_int z).

Fixpoint join (sep : string) (l : list string) : string :=
  match l with
  | [] => EmptyString
  | [s] => s
  | s :: l' => s ++ sep ++ join sep l'
  end.

(** [str(l)] for a list of [int]s. *)
Definition str_list (l : list Z) : string :=
  "[" ++ join ", " (map str_int l) ++ "]".

Definition is_space (c : ascii) : bool :=
  let n := nat_of_ascii c in
  (Nat.eqb n 32 || (Nat.leb 9 n && Nat.leb n 13))%bool.

Fixpoint lstrip (s : string) : string :=
  match s with
  | EmptyString => EmptyString
  | String c s' => if is_space c then lstrip s' else s
  end.

Fixpoint rstrip (s : string) : string :=
  match s with
  | EmptyString => EmptyString
  | String c s' =>
      match rstrip s' with
      | EmptyString => if is_space c then EmptyString else String c EmptyString
      | t => String c t
      end
  end.

(** [s.strip()]. *)
Definition strip (s : string) : string := rstrip (lstrip s).

Definition lower_char (c : ascii) : ascii :=
  let n := nat_of_ascii c in
  if (Nat.leb 65 n && Nat.leb n 90)%bool then ascii_of_nat (n + 32) else c.

(** The printable characters of ASCII other than the space. *)
Definition printable (c : ascii) : bool :=
  let n := nat_of_ascii c in (Nat.leb 33 n && Nat.leb n 126)%bool.

(** [s.lower()]. *)
Fixpoint lower (s : string) : string :=
  match s with
  | EmptyString => EmptyString
  | String c s' => String (lower_char c) (lower s')
  end.

(** [s.replace(old, new)] for a one-character [old]. *)
Fixpoint replace (old : ascii) (new : string) (s : string) : string :=
  match s with
  | EmptyString => EmptyString
  | String c s' =>
      if Ascii.eqb c old then new ++ replace old new s'
      else String c (replace old new s')
  end.

End PyStr.

(** ** helpers/utils.py: the helpers on tensors and on strings *)

Module Helpers.

Import Torch PyStr.

Open Scope string_scope.

(** [sys.maxsize], the largest index a list takes, on a 64-bit build of
    Python. *)
Definition maxsize : Z := 2 ^ 63 - 1.

(** Python's [l.insert(i, x)] on a copy of [l]: the index is converted to a
    machine integer, which raises [OverflowError] outside
    [[-maxsize - 1, maxsize]]; a negative [i] counts from the end, and an
    [i] outside the list is clipped to its two ends. *)
Definition list_insert (l : list nat) (i : Z) (x : nat)
  : result (list nat) :=
  if ((- maxsize - 1 <=? i) && (i <=? maxsize))%Z then
    let n := Z.of_nat (List.length l) in
    let i := (if i <? 0 then Z.max 0 (i + n) else Z.min i n)%Z in
    Ok (firstn (Z.to_nat i) l ++ x :: skipn (Z.to_nat i) l)%list
  else Raise OverflowError.

(** [expand_dims(tensor, dim=0)]. *)
Definition expand_dims (tensor : tensor) (dim : Z) : result Torch.tensor :=
  shape <- list_insert (size tensor) dim 1 ;;
  view tensor (map Z.of_nat shape).

(** [squeeze_expand_dim(tensor, axis)]. *)
Definition squeeze_expand_dim (tensor : tensor) (axis : Z)
  : result Torch.tensor :=
  let tensor := squeeze tensor in
  if Nat.ltb (List.length (size tensor)) 4 then unsqueeze tensor axis
  else Ok tensor.

(** The activations [str_to_activ] knows. *)
Inductive activation : Type :=
| F_elu | F_sigmoid_fn | F_tanh | oneplus.

(** [str_to_activ(str_activ)]. *)
Definition str_to_activ (str_activ : string) : result activation :=
  let str_activ := lower (strip str_activ) in
  if str_activ =? "elu" then Ok F_elu
  else if str_activ =? "sigmoid" then Ok F_sigmoid_fn
  else if str_activ =? "tanh" then Ok F_tanh
  else if str_activ =? "oneplus" then Ok oneplus
  else Raise (Exception "invalid activation provided").

End Helpers.

(** ** helpers/utils.py: the normalisation of images *)

Module Images.

Import Torch.

Open Scope R_scope.

(** A numpy array of images.  [Array4 c imgs] has the shape
    (batch, c, height, width): [imgs] lists its images, an image is the
    list of its [c] channels, a channel the list of its pixels, row after
    row.  [Array5 c glimpses] has the shape
    (batch, glimpse, c, height, width) and holds a list of images per entry
    of the batch.  Of an array of another number of dimensions only that
    number is kept.  The entries are reals: where numpy divides by 0 or
    takes the mean of nothing it gives [nan] or [inf], which [R] does not
    have; the properties below are stated where no divisor is 0. *)
Definition image : Type := list (list R).

Inductive ndarray : Type :=
| Array4 (chans : nat) (imgs : list image)
| Array5 (chans : nat) (glimpses : list (list image))
| ArrayN (ndim : nat).

(** [len(a.shape)]. *)
Definition ndim (a : ndarray) : nat :=
  match a with
  | Array4 _ _ => 4
  | Array5 _ _ => 5
  | ArrayN n => n
  end.

(** Every image of the array holds the channels the shape says. *)
Definition well_shaped (a : ndarray) : Prop :=
  match a with
  | Array4 c imgs => Forall (fun img : image => List.length img = c) imgs
  | Array5 c glimpses =>
      Forall (Forall (fun img : image => List.length img = c)) glimpses
  | ArrayN _ => True
  end.

(** [imgs[:, i, :, :]] and [imgs[:, :, i, :, :]], flattened. *)
Definition channel4 (imgs : list image) (i : nat) : list R :=
  flat_map (fun img => nth i img []) imgs.

Definition channel5 (glimpses : list (list image)) (i : nat) : list R :=
  flat_map (fun imgs => channel4 imgs i) glimpses.

(** [np.mean] and [np.std] of all the entries of an array. *)
Definition np_mean (l : list R) : R := vsum l / INR (List.length l).

Definition np_std (l : list R) : R :=
  sqrt (np_mean (map (fun v => (v - np_mean l) ^ 2) l)).

(** The statistics per channel, for [chans = imgs.shape[1]] and
    [chans = imgs.shape[2]]: the arrays of shape [(1, C, 1, 1)] and
    [(1, 1, C, 1, 1)], as the list of their [C] entries. *)
Definition stats4 (f : list R -> R) (chans : nat) (imgs : list image)
  : list R :=
  map (fun i => f (channel4 imgs i)) (seq 0 chans).

Definition stats5 (f : list R -> R) (chans : nat)
  (glimpses : list (list image)) : list R :=
  map (fun i => f (channel5 glimpses i)) (seq 0 chans).

(** numpy's broadcasting along the channels, of an array of [c] channels
    against statistics of [k] entries: the two agree, or one of them is 1
    and is repeated; otherwise the operation raises. *)
Definition broadcast_error : exn :=
  ValueError "operands could not be broadcast together".

Definition broadcast_axis (c k : nat) : result nat :=
  if Nat.eqb c k then Ok c
  else if Nat.eqb k 1 then Ok c
  else if Nat.eqb c 1 then Ok k
  else Raise broadcast_error.

(** Entry [i] along an axis; the entry of an axis of length 1 is
    repeated. *)
Definition along {A : Type} (l : list A) (i : nat) (d : A) : A :=
  match l with
  | [x] => x
  | _ => nth i l d
  end.

(** [img op stats], broadcast to [n] channels. *)
Definition image_op (f : R -> R -> R) (n : nat) (img : image)
  (stats : list R) : image :=
  map (fun i => map (fun v => f v (along stats i 0)) (along img i []))
    (seq 0 n).

(** [a op stats] for statistics per channel.  For an array of another
    number of dimensions the model keeps what it has of the array. *)
Definition array_op (f : R -> R -> R) (a : ndarray) (stats : list R)
  : result ndarray :=
  match a with
  | Array4 c imgs =>
      n <- broadcast_axis c (List.length stats) ;;
      Ok (Array4 n (map (fun img => image_op f n img stats) imgs))
  | Array5 c glimpses =>
      n <- broadcast_axis c (List.length stats) ;;
      Ok (Array5 n (map (map (fun img => image_op f n img stats)) glimpses))
  | ArrayN n => Ok (ArrayN n)
  end.

(** [(imgs - mu) / (sigma + eps)]. *)
Definition shift (a : ndarray) (mu sigma : list R) (eps : R)
  : result ndarray :=
  centred <- array_op Rminus a mu ;;
  array_op Rdiv centred (map (fun s => s + eps) sigma).

(** [normalize_images(imgs, mu=None, sigma=None, eps=1e-9)].  [mu] and
    [sigma], when given, are statistics per channel of the shape the
    function itself returns for an array of the dimensions of [imgs]. *)
Definition normalize_images (imgs : ndarray) (mu sigma : option (list R))
  (eps : R) : result (ndarray * (list R * list R)) :=
  ms <-
    match mu with
    | None =>
        match imgs with
        | Array4 chans a => Ok (stats4 np_mean chans a, sigma)
        | Array5 chans a =>
            Ok (stats5 np_mean chans a, Some (stats5 np_std chans a))
        | ArrayN _ =>
            Raise (Exception "unknown number of dims for normalization")
        end
    | Some m => Ok (m, sigma)
    end ;;
  sigma' <-
    match snd ms with
    | None =>
        match imgs with
        | Array4 chans a => Ok (stats4 np_std chans a)
        | Array5 chans a => Ok (stats5 np_std chans a)
        | ArrayN _ =>
            Raise (Exception "unknown number of dims for normalization")
        end
    | Some s => Ok s
    end ;;
  out <- shift imgs (fst ms) sigma' eps ;;
  Ok (out, (fst ms, sigma')).

(** [normalize_train_test_images(train_imgs, test_imgs, eps=1e-9)]. *)
Definition normalize_train_test_images (train_imgs test_imgs : ndarray)
  (eps : R) : result (ndarray * ndarray) :=
  if negb (Nat.eqb (ndim train_imgs) (ndim test_imgs)
           && Nat.leb 4 (ndim test_imgs))
  then Raise AssertionError
  else
    r <- normalize_images train_imgs None None eps ;;
    test_imgs <- shift test_imgs (fst (snd r)) (snd (snd r)) eps ;;
    Ok (fst r, test_imgs).

End Images.

(** ** models/vae.py *)

Module Vae.

Import Torch PyStr.

Open Scope string_scope.

(** A Python [float] of the configuration: the real it stands for, which
    the loss reads, and the text [str] gives for it, which the name reads.
    How Python prints a float is not modelled: the text comes with the
    configuration, and what is proved of the name is proved of that text. *)
Record pyfloat : Type := mk_float { float_value : R; float_str : string }.

(** The configuration, [kwargs['kwargs']]: the keys the model reads. *)
Record Config : Type := mk_config {
  task : string;
  reparam_type : string;
  layer_type : string;
  nll_type : string;
  filter_depth : Z;
  batch_size : Z;
  mut_reg : pyfloat;
  discrete_size : Z;
  continuous_size : Z;
  cuda : bool;
  ngpu : Z;
  lr : pyfloat
}.

(** The parameters of the latent distribution, by name. *)
Definition ParamRecord : Type := list (string * rows).

Fixpoint lookup {A : Type} (k : string) (m : list (string * A)) : option A :=
  match m with
  | [] => None
  | (k', v) :: m' => if String.eqb k k' then Some v else lookup k m'
  end.

(** What the VAE uses of its reparameterizer: the two widths, the call (on
    sizes), and the two regularizers, one number per example. *)
Record Reparameterizer : Type := mk_reparameterizer {
  input_size : Z;
  output_size : Z;
  sample_shape : list nat -> result (list nat);
  kl : ParamRecord -> result vec;
  mutual_info : ParamRecord -> result vec
}.

(** The three reparameterizer classes.  models/isotropic_gaussian.py,
    models/gumbel.py and models/mixture.py are not among the sources: the
    constructors are parameters of the model. *)
Class Reparameterizers : Type := {
  IsotropicGaussian : Config -> result Reparameterizer;
  GumbelSoftmax : Config -> result Reparameterizer;
  Mixture : Z -> Z -> Config -> result Reparameterizer
}.

(** The state of a [VAE] object, as far as the sizes of its layers go: the
    weights of the layers and the running statistics of the batch
    normalisations are not modelled.  [enc_proj] is the attribute that
    [_lazy_init_dense] adds; [activation_fn] is [nn.ReLU] throughout. *)
Record VAE : Type := mk_vae {
  input_shape : list Z;
  is_color : bool;
  chans : Z;
  config : Config;
  reparameterizer : Reparameterizer;
  encoder : module;
  decoder : module;
  enc_proj : option module
}.

Definition bilinear_size : list Z := [32; 32]%Z.

Definition shape_eqb (a b : list Z) : bool :=
  if list_eq_dec Z.eq_dec a b then true else false.

(** The tail of [build_encoder] and [build_decoder]: [nn.DataParallel] when
    [ngpu > 1], then [.cuda()] when [cuda].  main.py sets [cuda] only when
    a GPU is there; moving a module to a GPU that is not there is outside
    the model. *)
Definition place (cfg : Config) (ls : list layer) : module :=
  mk_module ls (Z.ltb 1 (ngpu cfg)) (cuda cfg).

Definition build_encoder (input_shape : list Z) (chans : Z) (cfg : Config)
  (r : Reparameterizer) : result module :=
  let fd := filter_depth cfg in
  if layer_type cfg =? "conv" then
    let upsampler := Upsample bilinear_size in
    encoder <- sequential
      [ if negb (shape_eqb (tl input_shape) bilinear_size)
        then upsampler else Identity;
        Conv2d chans fd 5 1; BatchNorm2d fd; Activation true;
        Conv2d fd (fd * 2) 4 2; BatchNorm2d (fd * 2); Activation true;
        Conv2d (fd * 2) (fd * 4) 4 1; BatchNorm2d (fd * 4); Activation true;
        Conv2d (fd * 4) (fd * 8) 4 2; BatchNorm2d (fd * 8); Activation true;
        Conv2d (fd * 8) (fd * 16) 4 1; BatchNorm2d (fd * 16); Activation true;
        Conv2d (fd * 16) (fd * 16) 1 1; BatchNorm2d (fd * 16);
        Activation true;
        Conv2d (fd * 16) (input_size r) 1 1; BatchNorm2d (input_size r);
        Activation true ]%Z ;;
    Ok (place cfg encoder)
  else if layer_type cfg =? "dense" then
    encoder <- sequential
      [ View [-1; prodZ input_shape]%Z;
        Linear (prodZ input_shape) (input_size r);
        BatchNorm1d (input_size r); Activation false;
        Linear (input_size r) (input_size r);
        BatchNorm1d (input_size r); Activation false;
        Linear (input_size r) (input_size r) ] ;;
    Ok (place cfg encoder)
  else Raise (Exception "unknown layer type requested").

Definition build_decoder (input_shape : list Z) (chans : Z) (cfg : Config)
  (r : Reparameterizer) : result module :=
  let fd := filter_depth cfg in
  if layer_type cfg =? "conv" then
    let upsampler := Upsample (tl input_shape) in
    decoder <- sequential
      [ View [-1; output_size r; 1; 1];
        ConvTranspose2d (output_size r) (fd * 8) 4 1; BatchNorm2d (fd * 8);
        Activation true;
        ConvTranspose2d (fd * 8) (fd * 4) 4 2; BatchNorm2d (fd * 4);
        Activation true;
        ConvTranspose2d (fd * 4) (fd * 2) 4 1; BatchNorm2d (fd * 2);
        Activation true;
        ConvTranspose2d (fd * 2) fd 4 2; BatchNorm2d fd; Activation true;
        ConvTranspose2d fd fd 5 1; BatchNorm2d fd; Activation true;
        Conv2d fd chans 1 1;
        if negb (shape_eqb (tl input_shape) bilinear_size)
        then upsampler else Identity ]%Z ;;
    Ok (place cfg decoder)
  else if layer_type cfg =? "dense" then
    decoder <- sequential
      [ View [-1; output_size r]%Z;
        Linear (output_size r) (output_size r);
        BatchNorm1d (output_size r); Activation false;
        Linear (output_size r) (output_size r);
        BatchNorm1d (output_size r); Activation false;
        Linear (output_size r) (prodZ input_shape);
        View ((-1)%Z :: input_shape) ] ;;
    Ok (place cfg decoder)
  else Raise (Exception "unknown layer type requested").

(** The block of [VAE.__init__] under [# build the reparameterizer]. *)
Definition build_reparameterizer `{Reparameterizers} (cfg : Config)
  : result Reparameterizer :=
  if reparam_type cfg =? "isotropic_gaussian" then IsotropicGaussian cfg
  else if reparam_type cfg =? "discrete" then GumbelSoftmax cfg
  else if reparam_type cfg =? "mixture"
       then Mixture (discrete_size cfg) (continuous_size cfg) cfg
  else Raise (Exception "unknown reparameterization type").

(** [VAE.__init__(input_shape, kwargs=config)].  Printing the
    configuration has no effect on the object. *)
Definition init `{Reparameterizers} (input_shape : list Z) (cfg : Config)
  : result VAE :=
  c0 <- getitem input_shape 0 ;;
  let is_color := Z.ltb 1 c0 in
  let chans := if is_color then 3%Z else 1%Z in
  reparameterizer <- build_reparameterizer cfg ;;
  encoder <- build_encoder input_shape chans cfg reparameterizer ;;
  decoder <- build_decoder input_shape chans cfg reparameterizer ;;
  Ok (mk_vae input_shape is_color chans cfg reparameterizer encoder decoder
        None).

(** The names [getattr] finds on a [VAE] object: the attributes set on the
    instance and the methods of the class.  The names [nn.Module] itself
    defines are left out; none of them is looked up below. *)
Definition class_attributes : list string :=
  [ "__init__"; "get_name"; "build_encoder"; "build_decoder";
    "_lazy_init_dense"; "reparameterize"; "nll_activation"; "encode";
    "decode"; "forward"; "nll"; "nll_bernoulli"; "nll_gaussian"; "kld";
    "loss_function" ].

Definition instance_attributes (self : VAE) : list string :=
  [ "input_shape"; "activation_fn"; "is_color"; "chans"; "config";
    "reparameterizer"; "encoder"; "decoder" ]
  ++ match enc_proj self with Some _ => ["enc_proj"] | None => [] end.

Definition hasattr (self : VAE) (name : string) : bool :=
  existsb (String.eqb name) (instance_attributes self ++ class_attributes).

(** [self.name]: the lookup itself. *)
Definition getattr (self : VAE) (name : string) : result unit :=
  if hasattr self name then Ok tt else Raise (AttributeError name).

(** [VAE.get_name()]. *)
Definition get_name (self : VAE) : string :=
  let cfg := config self in
  let param_str :=
    if reparam_type cfg =? "mixture"
    then "_disc" ++ str_int (discrete_size cfg)
         ++ "_cont" ++ str_int (continuous_size cfg)
    else "latent" ++ str_int (continuous_size cfg) in
  let full_hash_str :=
    "_input" ++ str_list (input_shape self)
    ++ param_str
    ++ "_batch" ++ str_int (batch_size cfg)
    ++ "_mut" ++ float_str (mut_reg cfg)
    ++ "_filter_depth" ++ str_int (filter_depth cfg)
    ++ "_nll" ++ nll_type cfg
    ++ "_reparam" ++ reparam_type cfg
    ++ "_lr" ++ float_str (lr cfg) in
  let full_hash_str :=
    replace "'" EmptyString
      (replace ")" EmptyString
        (replace "(" EmptyString
          (replace ":" EmptyString
            (replace "," "_"
              (replace "}" EmptyString
                (replace "{" EmptyString
                  (replace " " EmptyString
                    (replace "]" EmptyString
                      (replace "[" EmptyString
                        (lower (strip full_hash_str))))))))))) in
  "vae_" ++ task cfg ++ full_hash_str.

(** [VAE._lazy_init_dense(input_size, output_size, name='enc_proj')]; the
    one call of it passes ['enc_proj']. *)
Definition _lazy_init_dense (self : VAE) (input_size output_size : Z) : VAE :=
  if negb (hasattr self "enc_proj") then
    mk_vae (input_shape self) (is_color self) (chans self) (config self)
      (reparameterizer self) (encoder self) (decoder self)
      (Some (place (config self)
               [ View [-1; input_size]%Z; Linear input_size output_size ]))
  else self.

(** [VAE.encode(x)], on the size of [x]: the object after the call, and the
    size of the result or the error raised. *)
Definition encode (self : VAE) (x : list nat) : VAE * result (list nat) :=
  match module_shape (encoder self) x with
  | Raise e => (self, Raise e)
  | Ok conv =>
      let conv_output_shp := Z.of_nat (numel (tl conv)) in
      let self' :=
        _lazy_init_dense self conv_output_shp
          (input_size (reparameterizer self)) in
      match enc_proj self' with
      | Some proj => (self', module_shape proj conv)
      | None => (self', Raise (AttributeError "enc_proj"))
      end
  end.

Definition reparameterize (self : VAE) (logits : list nat)
  : result (list nat) :=
  sample_shape (reparameterizer self) logits.

(** [VAE.nll_activation(logits)].  The sigmoid is the one of the reals;
    in floating point [F.sigmoid] rounds to 0 or 1 on logits of large
    magnitude. *)
Definition nll_activation (self : VAE) (logits : tensor) : result tensor :=
  if nll_type (config self) =? "gaussian" then Ok logits
  else if nll_type (config self) =? "bernoulli"
  then Ok (mk_tensor (size logits) (map F_sigmoid (data logits)))
  else Raise (Exception "unknown nll provided").

Definition decode (self : VAE) (z : list nat) : result (list nat) :=
  module_shape (decoder self) z.

(** [VAE.forward(x)], on the size of [x]. *)
Definition forward (self : VAE) (x : list nat) : VAE * result (list nat) :=
  let (self', z_logits) := encode self x in
  (self', z_logits <- z_logits ;;
          z <- reparameterize self' z_logits ;;
          decode self' z).

Open Scope R_scope.

(** One entry of the tensor [nll] of [nll_bernoulli]. *)
Definition bernoulli_entry (l x : R) : R :=
  let max_val := Rmax (- l) 0 in
  l - l * x + max_val + ln (exp (- max_val) + exp (- l - max_val)).

(** [VAE.nll_bernoulli(recon_x_logits, x)]. *)
Definition nll_bernoulli (recon_x_logits x : tensor) : result vec :=
  if negb (size_eqb (size x) (size recon_x_logits)) then Raise AssertionError
  else
    batch_size <- getitem (size recon_x_logits) 0 ;;
    recon_x_logits <- view_rows recon_x_logits batch_size ;;
    x <- view_rows x batch_size ;;
    let max_val := rclamp_min 0 (rneg recon_x_logits) in
    let nll :=
      radd (radd (rsub recon_x_logits (rmul recon_x_logits x)) max_val)
           (rlog (radd (rexp (rneg max_val))
                       (rexp (rsub (rneg recon_x_logits) max_val)))) in
    Ok (sum_last nll).

(** The helpers that [nll_gaussian] defines in its body.  They are local
    functions of [nll_gaussian], not attributes of the object. *)
Definition eps : R := / 10 ^ 9.

Definition _z (x loc scale : R) : R := (x - loc) / (scale + eps).

Definition _log_unnormalized_prob (x loc scale : R) : R :=
  - (1 / 2) * (_z x loc scale) ^ 2.

Definition _log_normalization (scale : R) : R :=
  ln (scale + eps) + (1 / 2) * ln (2 * PI).

(** [VAE.nll_gaussian(recon_x_logits, x, logvar=1)].  The [return] first
    looks up [self._log_unnormalized_prob]; were the name found, the call
    would pass keywords [mu] and [logvar] that no helper accepts. *)
Definition nll_gaussian (self : VAE) (recon_x_logits x : tensor)
  (logvar : R) : result vec :=
  _ <- getattr self "_log_unnormalized_prob" ;;
  Raise (TypeError "got an unexpected keyword argument 'mu'").

(** [VAE.nll(recon_x, x)]: both methods are looked up to build [nll_map],
    then the one for [nll_type] is taken out of it. *)
Definition nll (self : VAE) (recon_x x : tensor) : result vec :=
  _ <- getattr self "nll_gaussian" ;;
  _ <- getattr self "nll_bernoulli" ;;
  if nll_type (config self) =? "gaussian" then nll_gaussian self recon_x x 1
  else if nll_type (config self) =? "bernoulli" then nll_bernoulli recon_x x
  else Raise (KeyError (nll_type (config self))).

Definition kld (self : VAE) (dist_a : ParamRecord) : result vec :=
  kl (reparameterizer self) dist_a.

(** [torch.mean(v)], a tensor of one entry. *)
Definition torch_mean (v : value) : result value :=
  match v with
  | VTensor t => Ok (VTensor [mean t])
  | VFloat _ => Raise (TypeError "mean(): argument must be a tensor")
  end.

Definition isinstance_float (v : value) : bool :=
  match v with
  | VFloat _ => true
  | VTensor _ => false
  end.

(** [VAE.loss_function(recon_x, x, params)]: the dictionary returned, its
    keys in the order of the source. *)
Definition loss_function (self : VAE) (recon_x x : tensor)
  (params : ParamRecord) : result (list (string * value)) :=
  let cfg := config self in
  nll <- nll self recon_x x ;;
  kld <- kld self params ;;
  elbo <- binop Rplus (VTensor nll) (VTensor kld) ;;
  let mut_info := VFloat 0 in
  mut_info <-
    (if reparam_type cfg =? "mixture"
     then mi <- mutual_info (reparameterizer self) params ;;
          binop Rplus mut_info (VTensor mi)
     else Ok mut_info) ;;
  reg <- binop Rmult (VFloat (float_value (mut_reg cfg))) mut_info ;;
  loss <- binop Rminus elbo reg ;;
  reg' <- binop Rmult (VFloat (float_value (mut_reg cfg))) mut_info ;;
  loss' <- binop Rminus elbo reg' ;;
  loss_mean <- torch_mean loss' ;;
  elbo_mean <- torch_mean elbo ;;
  nll_mean <- torch_mean (VTensor nll) ;;
  kld_mean <- torch_mean (VTensor kld) ;;
  mut_info_mean <-
    (if negb (isinstance_float mut_info) then torch_mean mut_info
     else Ok mut_info) ;;
  Ok [ ("loss", loss);
       ("loss_mean", loss_mean);
       ("elbo_mean", elbo_mean);
       ("nll_mean", nll_mean);
       ("kld_mean", kld_mean);
       ("mut_info_mean", mut_info_mean) ].

End Vae.

(** ** The states of an object *)

Module Run.

Import Vae.

(** The states a [VAE] object goes through: the one the constructor
    returns, and the ones calls of [forward] leave behind, whether they
    return or raise. *)
Inductive reachable `{Reparameterizers} (input_shape : list Z)
  (cfg : Config) : VAE -> Prop :=
| reach_init (self : VAE) :
    init input_shape cfg = Ok self -> reachable input_shape cfg self
| reach_forward (self : VAE) (x : list nat) :
    reachable input_shape cfg self ->
    reachable input_shape cfg (fst (forward self x)).

End Run.

(** ** The contracts the specification states, in its own words *)

Module Spec.

Import Torch.

Open Scope R_scope.

Definition sigmoid (l : R) : R := 1 / (1 + exp (- l)).

(** [-[x*log(sigmoid(logits)) + (1-x)*log(1-sigmoid(logits))]]. *)
Definition bernoulli_cross_entropy (l x : R) : R :=
  - (x * ln (sigmoid l) + (1 - x) * ln (1 - sigmoid l)).

(** [max(-logits,0) + logits - logits*x
     + log(exp(-max) + exp(-logits-max))]. *)
Definition stable_log_sum_exp (l x : R) : R :=
  let max := Rmax (- l) 0 in
  max + l - l * x + ln (exp (- max) + exp (- l - max)).

(** The entries of example [i] of a batch, over all non-batch dimensions. *)
Definition example (t : tensor) (i : nat) : vec :=
  let m := numel (tl (size t)) in
  firstn m (skipn (i * m) (data t)).

(** The Gaussian log-likelihood of one entry:
    [-0.5*z^2 - log(scale+eps) - 0.5*log(2*pi)] with
    [z = (x - loc) / (scale + eps)]. *)
Definition gaussian_log_likelihood (x loc scale : R) : R :=
  let z := (x - loc) / (scale + Vae.eps) in
  - (1 / 2) * z ^ 2 - ln (scale + Vae.eps) - (1 / 2) * ln (2 * PI).

(** The negative log-likelihood of example [i] under
    [Normal(recon_x_logits, scale)]. *)
Definition gaussian_nll (recon_x_logits x : tensor) (scale : R) (i : nat)
  : R :=
  - vsum (zip_with (fun loc v => gaussian_log_likelihood v loc scale)
            (example recon_x_logits i) (example x i)).

(** The values the configuration surface enumerates. *)
Definition known_reparam_type (s : string) : bool :=
  ((s =? "isotropic_gaussian") || (s =? "discrete") || (s =? "mixture"))%string.


Definition known_nll_type (s : string) : bool :=
  ((s =? "bernoulli") || (s =? "gaussian"))%string.

(** The hyperparameters the name is to tell apart, and what it means for
    two objects to agree on one.  Two floats agree when [str] prints them
    alike. *)
Inductive hyper : Type :=
| InputShape | ContinuousSize | DiscreteSize | BatchSize | MutReg
| FilterDepth | NllType | ReparamType | Lr.

Definition agree (h : hyper) (a b : Vae.VAE) : Prop :=
  match h with
  | InputShape => Vae.input_shape a = Vae.input_shape b
  | ContinuousSize =>
      Vae.continuous_size (Vae.config a) = Vae.continuous_size (Vae.config b)
  | DiscreteSize =>
      Vae.discrete_size (Vae.config a) = Vae.discrete_size (Vae.config b)
  | BatchSize =>
      Vae.batch_size (Vae.config a) = Vae.batch_size (Vae.config b)
  | MutReg =>
      Vae.float_str (Vae.mut_reg (Vae.config a))
      = Vae.float_str (Vae.mut_reg (Vae.config b))
  | FilterDepth =>
      Vae.filter_depth (Vae.config a) = Vae.filter_depth (Vae.config b)
  | NllType => Vae.nll_type (Vae.config a) = Vae.nll_type (Vae.config b)
  | ReparamType =>
      Vae.reparam_type (Vae.config a) = Vae.reparam_type (Vae.config b)
  | Lr =>
      Vae.float_str (Vae.lr (Vae.config a))
      = Vae.float_str (Vae.lr (Vae.config b))
  end.

Fixpoint all_chars (p : ascii -> bool) (s : string) : bool :=
  match s with
  | EmptyString => true
  | String c s' => (p c && all_chars p s')%bool
  end.

Definition char_in (set : string) (c : ascii) : bool :=
  existsb (Ascii.eqb c) (list_ascii_of_string set).

(** The characters of the text Python prints for a float. *)
Definition float_like (s : string) : bool :=
  all_chars (char_in "0123456789.-+einfa") s.

(** The values of a hyperparameter for which the name is meant: floats as
    Python prints them, the enumerated values of [nll_type] and
    [reparam_type]; [discrete_size] belongs to the mixture. *)
Definition is_mixture (self : Vae.VAE) : bool :=
  (Vae.reparam_type (Vae.config self) =? "mixture")%string.

Definition nameable (h : hyper) (a : Vae.VAE) : Prop :=
  match h with
  | MutReg => float_like (Vae.float_str (Vae.mut_reg (Vae.config a))) = true
  | Lr => float_like (Vae.float_str (Vae.lr (Vae.config a))) = true
  | NllType => known_nll_type (Vae.nll_type (Vae.config a)) = true
  | ReparamType => known_reparam_type (Vae.reparam_type (Vae.config a)) = true
  | DiscreteSize => is_mixture a = true
  | _ => True
  end.

(** The chain of [lower] and [replace] of [get_name]. *)
Definition clean (s : string) : string :=
  PyStr.replace "'" EmptyString
    (PyStr.replace ")" EmptyString
      (PyStr.replace "(" EmptyString
        (PyStr.replace ":" EmptyString
          (PyStr.replace "," "_"
            (PyStr.replace "}" EmptyString
              (PyStr.replace "{" EmptyString
                (PyStr.replace " " EmptyString
                  (PyStr.replace "]" EmptyString
                    (PyStr.replace "[" EmptyString (PyStr.lower s)))))))))).

(** The characters [clean] leaves alone. *)
Definition kept (c : ascii) : bool :=
  (Ascii.eqb (PyStr.lower_char c) c && negb (char_in "[] {},:()'" c))%bool.

(** The characters of [str] of an [int]. *)
Definition int_char : ascii -> bool := char_in "0123456789-".

(** What follows the first entry of a list printed with ['_'] between the
    entries. *)
Definition after_first (l : list string) : string :=
  match l with
  | [] => EmptyString
  | _ => "_" ++ PyStr.join "_" l
  end.

(** [param_str] of [get_name]. *)
Definition param_str (cfg : Vae.Config) : string :=
  if (Vae.reparam_type cfg =? "mixture")%string
  then "_disc" ++ PyStr.str_int (Vae.discrete_size cfg)
       ++ "_cont" ++ PyStr.str_int (Vae.continuous_size cfg)
  else "latent" ++ PyStr.str_int (Vae.continuous_size cfg).

(** The per-example loss, from the ELBO and the mutual information:
    [elbo - mut_reg * mut_info]. *)
Definition regularized (mut_reg : R) (elbo mut_info : vec) : vec :=
  zip_with (fun e m => e - mut_reg * m) elbo mut_info.

End Spec.

(** ** The reparameterizers as the specification describes them *)

Module SpecReparam.

Import Torch Vae.

Open Scope R_scope.

(** Modelled from the spec: the call of a reparameterizer maps logits of
    size [batch x input_size] to a latent sample of size
    [batch x output_size]. *)
Definition sample_sizes (input_size output_size : Z) (logits : list nat)
  : result (list nat) :=
  match logits with
  | [b; w] =>
      if (Z.eqb (Z.of_nat w) input_size && Z.leb 0 output_size)%bool
      then Ok [b; Z.to_nat output_size] else Raise shape_error
  | _ => Raise shape_error
  end.

(** Modelled from the spec: KL and mutual information fail on a parameter
    record that lacks a key they need. *)
Definition param (k : string) (p : ParamRecord) : result rows :=
  match lookup k p with
  | Some v => Ok v
  | None => Raise (KeyError k)
  end.

(** Modelled from the spec: the KL of the isotropic Gaussian to a standard
    normal, [0.5 * sum(exp(logvar) + mu^2 - 1 - logvar)] per example. *)
Definition gaussian_kl (p : ParamRecord) : result vec :=
  mu <- param "mu" p ;;
  logvar <- param "logvar" p ;;
  Ok (map (fun row => 1 / 2 * vsum row)
        (zip_rows (fun m lv => exp lv + m ^ 2 - 1 - lv) mu logvar)).

Definition softmax (row : vec) : vec :=
  let s := vsum (map exp row) in map (fun v => exp v / s) row.

(** Modelled from the spec: the KL of [softmax(logits)] to the uniform
    categorical prior, [sum_i p_i * log(p_i * discrete_size)] per example. *)
Definition discrete_kl (discrete_size : Z) (p : ParamRecord) : result vec :=
  logits <- param "logits" p ;;
  Ok (map (fun row =>
             vsum (map (fun pi => pi * ln (pi * IZR discrete_size))
                     (softmax row)))
        logits).

(** Modelled from the spec: the KL of the mixture is the sum of the KLs of
    its two parts. *)
Definition mixture_kl (discrete_size : Z) (p : ParamRecord) : result vec :=
  kd <- discrete_kl discrete_size p ;;
  kc <- gaussian_kl p ;;
  broadcast Rplus kd kc.

Definition no_mutual_info (p : ParamRecord) : result vec :=
  Raise (AttributeError "mutual_info").

(** Modelled from the spec: the sizes of the three reparameterizers,
    [input_size = 2 * continuous_size] and [output_size = continuous_size]
    for the Gaussian, [discrete_size] twice for the discrete one, the sums
    for the mixture.  The specification leaves the estimator of the mutual
    information open; it is the parameter [mi]. *)
Definition gaussian (continuous_size : Z) : Reparameterizer :=
  mk_reparameterizer (2 * continuous_size) continuous_size
    (sample_sizes (2 * continuous_size) continuous_size)
    gaussian_kl no_mutual_info.

Definition discrete (discrete_size : Z) : Reparameterizer :=
  mk_reparameterizer discrete_size discrete_size
    (sample_sizes discrete_size discrete_size)
    (discrete_kl discrete_size) no_mutual_info.

Definition mixture (mi : ParamRecord -> result vec)
  (num_discrete num_continuous : Z) : Reparameterizer :=
  mk_reparameterizer
    (2 * num_continuous + num_discrete) (num_continuous + num_discrete)
    (sample_sizes (2 * num_continuous + num_discrete)
       (num_continuous + num_discrete))
    (mixture_kl num_discrete) mi.

#[export] Instance reparameterizers (mi : ParamRecord -> result vec)
  : Reparameterizers := {
  IsotropicGaussian cfg := Ok (gaussian (continuous_size cfg));
  GumbelSoftmax cfg := Ok (discrete (discrete_size cfg));
  Mixture num_discrete num_continuous cfg :=
    Ok (mixture mi num_discrete num_continuous)
}.

End SpecReparam.

(** ** Concrete inputs used in the examples below *)

Module Examples.

Import Torch Vae.

Open Scope R_scope.

(** Two tensors of size [2 x 2], and one of size [2 x 3]. *)
Definition logits_2x2 : tensor := mk_tensor [2; 2]%nat [0; 50; -50; 1].
Definition target_2x2 : tensor := mk_tensor [2; 2]%nat [1; 0; 1; 0].
Definition target_2x3 : tensor := mk_tensor [2; 3]%nat [1; 0; 1; 0; 1; 0].

(** A batch of no example: a tensor of size [0 x 2]. *)
Definition empty_0x2 : tensor := mk_tensor [0; 2]%nat [].

(** A configuration as the command line gives it by default, and variants
    of it. *)
Definition default_config : Config :=
  mk_config "mnist" "isotropic_gaussian" "conv" "bernoulli" 32 64
    (mk_float (3 / 10) "0.3") 32 32 false 1 (mk_float (1 / 1000) "0.001").

Definition with_types (reparam layer nll : string) (cfg : Config) : Config :=
  mk_config (task cfg) reparam layer nll (filter_depth cfg) (batch_size cfg)
    (mut_reg cfg) (discrete_size cfg) (continuous_size cfg) (cuda cfg)
    (ngpu cfg) (lr cfg).

Definition with_discrete_size (d : Z) (cfg : Config) : Config :=
  mk_config (task cfg) (reparam_type cfg) (layer_type cfg) (nll_type cfg)
    (filter_depth cfg) (batch_size cfg) (mut_reg cfg) d
    (continuous_size cfg) (cuda cfg) (ngpu cfg) (lr cfg).

(** A mutual information that is the zero tensor, one entry per example. *)
Definition zero_mutual_info (batch : nat) (p : ParamRecord) : result vec :=
  Ok (repeat 0 batch).

(** The object [VAE(input_shape, kwargs=cfg)] before any call of
    [forward]. *)
Definition vae (input_shape : list Z) (cfg : Config) : result VAE :=
  @init (SpecReparam.reparameterizers (zero_mutual_info 2)) input_shape cfg.

Definition mnist_shape : list Z := [1; 28; 28]%Z.

(** The object a construction returns, when it returns. *)
Definition blank : VAE :=
  mk_vae [] false 0 default_config (SpecReparam.gaussian 0)
    (mk_module [] false false) (mk_module [] false false) None.

Definition built (r : result VAE) : VAE :=
  match r with
  | Ok self => self
  | Raise _ => blank
  end.

(** The end-to-end scenario of the specification: a mixture with
    [discrete_size = 10], [continuous_size = 8], [mut_reg = 0.3] and a
    mutual information that is the zero tensor, on a batch of two. *)
Definition scenario_config : Config :=
  mk_config "mnist" "mixture" "conv" "bernoulli" 32 64
    (mk_float (3 / 10) "0.3") 10 8 false 1 (mk_float (1 / 1000) "0.001").

Definition scenario_vae : VAE := built (vae mnist_shape scenario_config).

(** An object whose latent variable is discrete, of [d] categories. *)
Definition discrete_vae (d : Z) : VAE :=
  built (vae mnist_shape
           (with_types "discrete" "conv" "bernoulli"
              (with_discrete_size d default_config))).

Definition scenario_params : ParamRecord :=
  [ ("logits", [repeat 0 10; repeat 0 10]);
    ("mu", [repeat 0 8; repeat 0 8]);
    ("logvar", [repeat 0 8; repeat 0 8]) ]%string.

Definition scenario_nll : vec :=
  map vsum (zip_rows bernoulli_entry [[0; 50]; [-50; 1]] [[1; 0]; [1; 0]]).

Definition scenario_kld : vec :=
  match kld scenario_vae scenario_params with
  | Ok v => v
  | Raise _ => []
  end.

End Examples.
(* ================================================================= *)
(** * Part II: properties *)
(* ================================================================= *)

(** ** [scale] *)

Section ScaleFacts.

Import Utils.

Example scale_mid :
  scale (1 # 2) [0; 1]%Q [10; 20]%Q
  = Ok (((1 # 2) - 0) / (1 - 0) * (20 - 10) + 10)%Q.
Proof. reflexivity. Qed.

Example scale_degenerate_range :
  scale 3 [5; 5]%Q [0; 1]%Q = Raise ZeroDivisionError.
Proof. reflexivity. Qed.

Example scale_short_range :
  scale 3 [5]%Q [0; 1]%Q = Raise IndexError.
Proof. reflexivity. Qed.

Lemma truediv_nonzero (a b : Q) :
  ~ (b == 0)%Q -> truediv a b = Ok (a / b)%Q.
Proof.
  intros Hb. unfold truediv.
  destruct (Qeq_bool b 0) eqn:E; [|reflexivity].
  apply Qeq_bool_iff in E. contradiction.
Qed.

Lemma Qminus_zero_eq (a b : Q) : (a - b == 0)%Q -> (a == b)%Q.
Proof.
  intros H. setoid_replace a with ((a - b) + b)%Q by ring.
  rewrite H. ring.
Qed.

Lemma scale_value (val s0 s1 d0 d1 : Q) (srest drest : list Q) :
  ~ (s1 == s0)%Q ->
  scale val (s0 :: s1 :: srest) (d0 :: d1 :: drest)
  = Ok ((val - s0) / (s1 - s0) * (d1 - d0) + d0)%Q.
Proof.
  intros Hne. unfold scale. cbn [getitem nth_error bind].
  rewrite truediv_nonzero; [reflexivity|].
  intros H. apply Hne. apply Qminus_zero_eq. exact H.
Qed.

(** C10.  When the two ends of the source range differ, [scale] returns,
    and it is the affine map that takes the source range onto the
    destination range: it sends [src[0]] to [dst[0]] and [src[1]] to
    [dst[1]], and every [val] to [dst[0]] plus [val - src[0]] times the
    constant slope [(dst[1] - dst[0]) / (src[1] - src[0])]. *)
Theorem scale_affine_endpoints (s0 s1 d0 d1 : Q) (srest drest : list Q) :
  ~ (s1 == s0)%Q ->
  let src := s0 :: s1 :: srest in
  let dst := d0 :: d1 :: drest in
  (exists r, scale s0 src dst = Ok r /\ (r == d0)%Q) /\
  (exists r, scale s1 src dst = Ok r /\ (r == d1)%Q) /\
  (forall val, exists r,
      scale val src dst = Ok r /\
      (r == d0 + (val - s0) * ((d1 - d0) / (s1 - s0)))%Q).
Proof.
  intros Hne src dst. subst src dst.
  assert (Hd : ~ (s1 - s0 == 0)%Q) by (intros H; apply Hne, Qminus_zero_eq, H).
  repeat split.
  - eexists. split; [apply scale_value; assumption|]. field. exact Hd.
  - eexists. split; [apply scale_value; assumption|]. field. exact Hd.
  - intros val. eexists. split; [apply scale_value; assumption|].
    field. exact Hd.
Qed.

Lemma scale_affine_endpoints_witness :
  ~ (1 == 0)%Q /\
  (exists r, scale 0 [0; 1]%Q [10; 20]%Q = Ok r /\ (r == 10)%Q).
Proof.
  split; [discriminate|].
  apply (@scale_affine_endpoints 0 1 10 20 [] []). discriminate.
Defined.

End ScaleFacts.

(** ** [one_hot] *)

Section OneHotFacts.

Import Utils.

Example one_hot_docstring :
  one_hot [3; 3]%nat [[2]; [0]; [1]]%Z false
  = Ok [[0; 0; 1]; [1; 0; 0]; [0; 1; 0]]%Z.
Proof. reflexivity. Qed.

Example one_hot_variable :
  one_hot [3; 3]%nat [[2]; [0]; [1]]%Z true
  = Ok [[0; 0; 1]; [1; 0; 0]; [0; 1; 0]]%Z.
Proof. reflexivity. Qed.

Example one_hot_out_of_range :
  one_hot [2; 3]%nat [[3]; [0]]%Z false
  = Raise (RuntimeError "scatter_: index out of range").
Proof. reflexivity. Qed.

Lemma set_at_length (row : list Z) (c : nat) (v : Z) :
  List.length (set_at row c v) = List.length row.
Proof.
  revert c. induction row as [|x row IH]; intros [|c]; simpl; auto.
Qed.

Lemma set_at_nth (row : list Z) (c j : nat) (v : Z) :
  (c < List.length row)%nat ->
  nth j (set_at row c v) 0%Z = if Nat.eqb j c then v else nth j row 0%Z.
Proof.
  revert c j. induction row as [|x row IH]; intros c j Hc; simpl in Hc.
  - lia.
  - destruct c as [|c], j as [|j]; simpl; auto.
    apply IH. lia.
Qed.

Lemma row_sum_zeros (k : nat) : row_sum (repeat 0%Z k) = 0%Z.
Proof. induction k as [|k IH]; simpl; auto. Qed.

Lemma row_sum_set_at_zeros (k c : nat) :
  (c < k)%nat -> row_sum (set_at (repeat 0%Z k) c 1%Z) = 1%Z.
Proof.
  revert c. induction k as [|k IH]; intros c Hc; [lia|].
  destruct c as [|c]; simpl.
  - fold (row_sum (repeat 0%Z k)). rewrite row_sum_zeros. reflexivity.
  - fold (row_sum (set_at (repeat 0%Z k) c 1%Z)). rewrite IH by lia.
    reflexivity.
Qed.

Lemma src_at_ones (index : matrix) (is_var : bool) (i : nat) (c : Z) :
  nth_error index i = Some [c] ->
  src_at (if is_var then SrcTensor (map (map (fun _ => 1%Z)) index)
          else SrcScalar 1) i 0 = Ok 1%Z.
Proof.
  intros Hi. destruct is_var; simpl; [|reflexivity].
  rewrite nth_error_map, Hi. reflexivity.
Qed.

(** Scattering a column of in-range indices into a zero mask of as many
    rows writes one 1 per row. *)
Lemma scatter_1_columns (s : scatter_src) (k : nat) (cols : list Z) (i : nat) :
  Forall (fun c => 0 <= c < Z.of_nat k)%Z cols ->
  (forall d, (d < List.length cols)%nat -> src_at s (i + d) 0 = Ok 1%Z) ->
  scatter_1 s i (map (fun c => [c]) cols) (fill (List.length cols) k 0)
  = Ok (map (fun c => set_at (repeat 0%Z k) (Z.to_nat c) 1%Z) cols).
Proof.
  revert i. induction cols as [|c cols IH]; intros i Hr Hs; [reflexivity|].
  inversion Hr as [|c' cols' Hc Hr']; subst.
  cbn [map List.length fill repeat scatter_1 scatter_row].
  rewrite repeat_length.
  replace ((0 <=? c) && (c <? Z.of_nat k))%Z with true
    by (symmetry; apply andb_true_iff; split;
        [apply Z.leb_le | apply Z.ltb_lt]; lia).
  specialize (Hs 0%nat) as Hs0. rewrite Nat.add_0_r in Hs0.
  rewrite Hs0 by (simpl; lia). cbn [bind].
  unfold fill in IH. rewrite (IH (S i) Hr').
  - reflexivity.
  - intros d Hd. replace (S i + d)%nat with (i + S d)%nat by lia.
    apply Hs. simpl. lia.
Qed.

(** C9.  For a size [(n, k)] with [n, k > 0] and an [n x 1] index tensor
    with entries in [[0, k)], [one_hot] returns an [n x k] matrix whose row
    [i] is 1 at column [index[i]] and 0 elsewhere; every row sums to 1.
    This holds for a plain index tensor and for one wrapped in a
    [Variable]. *)
Theorem one_hot_rows (n k : nat) (cols : list Z) (is_var : bool) :
  (0 < n)%nat -> (0 < k)%nat ->
  List.length cols = n ->
  Forall (fun c => 0 <= c < Z.of_nat k)%Z cols ->
  exists m,
    one_hot [n; k] (map (fun c => [c]) cols) is_var = Ok m /\
    List.length m = n /\
    forall i c, nth_error cols i = Some c ->
      exists row,
        nth_error m i = Some row /\
        List.length row = k /\
        (forall j, (j < k)%nat ->
           nth j row 0%Z = if Nat.eqb j (Z.to_nat c) then 1%Z else 0%Z) /\
        row_sum row = 1%Z.
Proof.
  intros _ _ Hlen Hr. subst n.
  exists (map (fun c => set_at (repeat 0%Z k) (Z.to_nat c) 1%Z) cols).
  split; [|split].
  - unfold one_hot. apply scatter_1_columns; [exact Hr|].
    intros d Hd. simpl.
    destruct (nth_error cols d) as [c|] eqn:E.
    + apply src_at_ones with (c := c). rewrite nth_error_map, E. reflexivity.
    + apply nth_error_None in E. lia.
  - apply length_map.
  - intros i c Hi. eexists. split; [rewrite nth_error_map, Hi; reflexivity|].
    assert (Hc : (0 <= c < Z.of_nat k)%Z).
    { rewrite Forall_forall in Hr. apply Hr. eapply nth_error_In; eauto. }
    assert (Hc' : (Z.to_nat c < k)%nat) by lia.
    split; [|split].
    + rewrite set_at_length. apply repeat_length.
    + intros j Hj. rewrite set_at_nth by (rewrite repeat_length; exact Hc').
      destruct (Nat.eqb j (Z.to_nat c)); [reflexivity|].
      apply nth_repeat.
    + apply row_sum_set_at_zeros. exact Hc'.
Qed.

Lemma one_hot_rows_witness :
  exists m,
    one_hot [3; 3]%nat (map (fun c => [c]) [2; 0; 1]%Z) false = Ok m /\
    List.length m = 3%nat /\
    forall i c, nth_error [2; 0; 1]%Z i = Some c ->
      exists row,
        nth_error m i = Some row /\
        List.length row = 3%nat /\
        (forall j, (j < 3)%nat ->
           nth j row 0%Z = if Nat.eqb j (Z.to_nat c) then 1%Z else 0%Z) /\
        row_sum row = 1%Z.
Proof.
  apply (@one_hot_rows 3 3 [2; 0; 1]%Z false); try lia; try reflexivity.
  repeat constructor; lia.
Defined.

End OneHotFacts.

(** ** [nll_bernoulli] *)

Section BernoulliFacts.

Import Torch Vae Spec.

Open Scope R_scope.

Lemma chunks_length (m n : nat) (l : list R) :
  List.length (chunks m n l) = n.
Proof.
  revert l. induction n as [|n IH]; intros l; simpl; auto.
Qed.

Lemma chunks_nth (m n : nat) (l : list R) (i : nat) :
  (i < n)%nat -> nth i (chunks m n l) [] = firstn m (skipn (i * m) l).
Proof.
  revert l i. induction n as [|n IH]; intros l i Hi; [lia|].
  destruct i as [|i]; simpl chunks; cbn [nth].
  - reflexivity.
  - rewrite IH by lia. rewrite skipn_skipn.
    replace (i * m + m)%nat with (S i * m)%nat by lia. reflexivity.
Qed.

Lemma zip_rows_length (f : R -> R -> R) (a b : rows) :
  List.length a = List.length b ->
  List.length (zip_rows f a b) = List.length a.
Proof.
  revert b. induction a as [|x a IH]; intros [|y b] H; simpl in *;
    try discriminate; auto.
Qed.

Lemma zip_rows_nth (f : R -> R -> R) (a b : rows) (i : nat) :
  List.length a = List.length b -> (i < List.length a)%nat ->
  nth i (zip_rows f a b) [] = zip_with f (nth i a []) (nth i b []).
Proof.
  revert b i. induction a as [|x a IH]; intros [|y b] i H Hi; simpl in *;
    try discriminate; try lia.
  destruct i as [|i]; [reflexivity|]. apply IH; lia.
Qed.

Lemma zip_with_ext (f g : R -> R -> R) (a b : vec) :
  (forall u v, f u v = g u v) -> zip_with f a b = zip_with g a b.
Proof.
  intros H. revert b. induction a as [|x a IH]; intros [|y b]; simpl; auto.
  rewrite H, IH. reflexivity.
Qed.

(** The tensor expression of [nll_bernoulli] computes [bernoulli_entry] at
    every position. *)
Lemma bernoulli_rows_entry (l x : vec) :
  let max_val := map (fun v => Rmax v 0) (map Ropp l) in
  zip_with Rplus
    (zip_with Rplus (zip_with Rminus l (zip_with Rmult l x)) max_val)
    (map ln (zip_with Rplus (map exp (map Ropp max_val))
               (map exp (zip_with Rminus (map Ropp l) max_val))))
  = zip_with bernoulli_entry l x.
Proof.
  revert x. induction l as [|u l IH]; intros [|v x]; simpl; auto.
  simpl in IH. rewrite IH. reflexivity.
Qed.

Lemma bernoulli_tensor_entry (l x : rows) :
  let max_val := rclamp_min 0 (rneg l) in
  radd (radd (rsub l (rmul l x)) max_val)
       (rlog (radd (rexp (rneg max_val)) (rexp (rsub (rneg l) max_val))))
  = zip_rows bernoulli_entry l x.
Proof.
  revert x. induction l as [|u l IH]; intros [|v x]; simpl; auto.
  unfold radd, rsub, rmul, rneg, rexp, rlog, rclamp_min in *. simpl.
  simpl in IH. rewrite IH. f_equal. apply bernoulli_rows_entry.
Qed.

Lemma bernoulli_entry_stable (l x : R) :
  bernoulli_entry l x = stable_log_sum_exp l x.
Proof. unfold bernoulli_entry, stable_log_sum_exp. simpl. ring. Qed.

Lemma one_plus_exp_pos (l : R) : 0 < 1 + exp (- l).
Proof. pose proof (exp_pos (- l)). lra. Qed.

(** The log-sum-exp identity: the shift by [max] cancels. *)
Lemma stable_log_sum_exp_softplus (l x : R) :
  stable_log_sum_exp l x = l - l * x + ln (1 + exp (- l)).
Proof.
  unfold stable_log_sum_exp. cbv zeta.
  set (m := Rmax (- l) 0).
  replace (exp (- m) + exp (- l - m)) with (exp (- m) * (1 + exp (- l))).
  - rewrite ln_mult by (apply exp_pos || apply one_plus_exp_pos).
    rewrite ln_exp. ring.
  - unfold Rminus. rewrite (exp_plus (- l) (- m)). ring.
Qed.

Lemma cross_entropy_softplus (l x : R) :
  bernoulli_cross_entropy l x = l - l * x + ln (1 + exp (- l)).
Proof.
  unfold bernoulli_cross_entropy, sigmoid.
  pose proof (one_plus_exp_pos l) as Hp.
  assert (Hs : ln (1 / (1 + exp (- l))) = - ln (1 + exp (- l))).
  { unfold Rdiv. rewrite Rmult_1_l. apply ln_Rinv. exact Hp. }
  assert (Hc : ln (1 - 1 / (1 + exp (- l))) = - l - ln (1 + exp (- l))).
  { replace (1 - 1 / (1 + exp (- l)))
      with (exp (- l) * / (1 + exp (- l))) by (field; lra).
    rewrite ln_mult by (apply exp_pos || (apply Rinv_0_lt_compat; exact Hp)).
    rewrite ln_exp, ln_Rinv by exact Hp. ring. }
  rewrite Hs, Hc. ring.
Qed.

Lemma stable_is_cross_entropy (l x : R) :
  stable_log_sum_exp l x = bernoulli_cross_entropy l x.
Proof.
  rewrite stable_log_sum_exp_softplus, cross_entropy_softplus. reflexivity.
Qed.

Lemma size_eqb_refl (s : list nat) : size_eqb s s = true.
Proof. unfold size_eqb. destruct (list_eq_dec Nat.eq_dec s s); congruence. Qed.

Lemma size_eqb_neq (s t : list nat) : s <> t -> size_eqb s t = false.
Proof. unfold size_eqb. destruct (list_eq_dec Nat.eq_dec s t); congruence. Qed.

(** The value of [nll_bernoulli] on tensors of one size and a non-empty
    batch. *)
Lemma nll_bernoulli_value (recon x : tensor) (b : nat) (rest : list nat) :
  size recon = b :: rest -> size x = size recon -> (0 < b)%nat ->
  nll_bernoulli recon x
  = Ok (map vsum (zip_rows bernoulli_entry
                    (chunks (numel rest) b (data recon))
                    (chunks (numel rest) b (data x)))).
Proof.
  intros Hr Hx Hb. unfold nll_bernoulli.
  rewrite Hx, size_eqb_refl. cbn [negb]. rewrite Hr.
  cbn [getitem nth_error bind]. unfold view_rows. rewrite Hx, Hr.
  destruct b as [|b]; [lia|]. cbn [bind].
  replace (Nat.div (numel (S b :: rest)) (S b)) with (numel rest).
  - rewrite bernoulli_tensor_entry. reflexivity.
  - cbn [numel fold_right]. fold (numel rest).
    rewrite Nat.mul_comm, Nat.div_mul by lia. reflexivity.
Qed.

(** C4, as the code has it.  On tensors of one size with a non-empty batch,
    [nll_bernoulli] returns one number per batch row: the sum, over all
    non-batch entries of that row, of the stable log-sum-exp form, which
    over the reals is exactly the Bernoulli cross-entropy
    [-[x*log(sigmoid(l)) + (1-x)*log(1-sigmoid(l))]]. *)
Theorem nll_bernoulli_cross_entropy (recon x : tensor) (b : nat)
  (rest : list nat) :
  size recon = b :: rest -> size x = size recon -> (0 < b)%nat ->
  exists out,
    nll_bernoulli recon x = Ok out /\
    List.length out = b /\
    forall i, (i < b)%nat ->
      nth i out 0
      = vsum (zip_with stable_log_sum_exp (example recon i) (example x i)) /\
      nth i out 0
      = vsum (zip_with bernoulli_cross_entropy (example recon i)
                (example x i)).
Proof.
  intros Hr Hx Hb. eexists. split; [apply (nll_bernoulli_value _ _ Hr Hx Hb)|].
  assert (Hl : List.length (chunks (numel rest) b (data recon))
               = List.length (chunks (numel rest) b (data x)))
    by (rewrite !chunks_length; reflexivity).
  split.
  - rewrite length_map, zip_rows_length, chunks_length by exact Hl.
    reflexivity.
  - intros i Hi.
    assert (He : nth i (map vsum (zip_rows bernoulli_entry
                    (chunks (numel rest) b (data recon))
                    (chunks (numel rest) b (data x)))) 0
                 = vsum (zip_with bernoulli_entry (example recon i)
                           (example x i))).
    { replace 0 with (vsum []) at 1 by reflexivity. rewrite map_nth.
      rewrite zip_rows_nth by (rewrite ?chunks_length; auto).
      rewrite !chunks_nth by exact Hi.
      unfold example. rewrite Hx, Hr. reflexivity. }
    rewrite He. split.
    + f_equal. apply zip_with_ext, bernoulli_entry_stable.
    + f_equal. apply zip_with_ext. intros u v.
      rewrite bernoulli_entry_stable. apply stable_is_cross_entropy.
Qed.

Lemma nll_bernoulli_cross_entropy_witness :
  exists out,
    nll_bernoulli Examples.logits_2x2 Examples.target_2x2 = Ok out /\
    List.length out = 2%nat /\
    forall i, (i < 2)%nat ->
      nth i out 0
      = vsum (zip_with stable_log_sum_exp (example Examples.logits_2x2 i)
                (example Examples.target_2x2 i)) /\
      nth i out 0
      = vsum (zip_with bernoulli_cross_entropy
                (example Examples.logits_2x2 i)
                (example Examples.target_2x2 i)).
Proof.
  apply (@nll_bernoulli_cross_entropy Examples.logits_2x2
           Examples.target_2x2 2 [2%nat]); [reflexivity | reflexivity | lia].
Defined.

(** C4, counterexample.  Two tensors of one size, [0 x 2]: the batch is
    empty, the assertion on the sizes passes, and [view(batch_size, -1)]
    raises; [nll_bernoulli] returns no value. *)
Lemma nll_bernoulli_empty_batch :
  size Examples.empty_0x2 = size Examples.empty_0x2 /\
  nll_bernoulli Examples.empty_0x2 Examples.empty_0x2
  = Raise (RuntimeError "view: cannot infer the size of dimension -1").
Proof. split; reflexivity. Qed.

End BernoulliFacts.

(** ** [nll] and [nll_gaussian] *)

Section GaussianFacts.

Import Torch Vae Spec.

Open Scope R_scope.

Lemma hasattr_method (self : VAE) (name : string) :
  In name class_attributes -> hasattr self name = true.
Proof.
  intros H. unfold hasattr. apply existsb_exists. exists name. split.
  - apply in_or_app. right. exact H.
  - apply String.eqb_refl.
Qed.

Lemma hasattr_log_unnormalized_prob (self : VAE) :
  hasattr self "_log_unnormalized_prob" = false.
Proof. unfold hasattr, instance_attributes. destruct (enc_proj self); reflexivity. Qed.

Lemma nll_gaussian_attribute_error (self : VAE) (recon x : tensor)
  (logvar : R) :
  nll_gaussian self recon x logvar
  = Raise (AttributeError "_log_unnormalized_prob").
Proof.
  unfold nll_gaussian, getattr.
  rewrite hasattr_log_unnormalized_prob. reflexivity.
Qed.

(** C3.  [nll_gaussian] returns on no input: the lookup of
    [self._log_unnormalized_prob] raises [AttributeError], whatever the
    reconstruction, the target and [logvar] are.  In particular it does not
    return the negated Gaussian log-likelihood. *)
Theorem nll_gaussian_raises (self : VAE) (recon x : tensor) (logvar : R) :
  nll_gaussian self recon x logvar
  = Raise (AttributeError "_log_unnormalized_prob") /\
  nll_gaussian self recon x logvar
  <> Ok (map (gaussian_nll recon x logvar) (seq 0 (hd 0%nat (size recon)))).
Proof.
  pose proof (nll_gaussian_attribute_error self recon x logvar) as H.
  split; [exact H|]. rewrite H. discriminate.
Qed.

Lemma nll_dispatch (self : VAE) (recon x : tensor) :
  nll self recon x
  = if (nll_type (config self) =? "gaussian")%string
    then nll_gaussian self recon x 1
    else if (nll_type (config self) =? "bernoulli")%string
         then nll_bernoulli recon x
         else Raise (KeyError (nll_type (config self))).
Proof.
  unfold nll, getattr.
  rewrite !hasattr_method by (simpl; tauto). reflexivity.
Qed.

(** In the Bernoulli branch a shape mismatch fails the assertion. *)
Lemma nll_bernoulli_shape_mismatch (recon x : tensor) :
  size x <> size recon -> nll_bernoulli recon x = Raise AssertionError.
Proof.
  intros H. unfold nll_bernoulli. rewrite size_eqb_neq by exact H.
  reflexivity.
Qed.

(** With [nll_type = 'gaussian'], [nll] raises the [AttributeError] of
    [nll_gaussian] on every input, of matching sizes or not. *)
Lemma nll_gaussian_branch (self : VAE) (recon x : tensor) :
  nll_type (config self) = "gaussian"%string ->
  nll self recon x = Raise (AttributeError "_log_unnormalized_prob").
Proof.
  intros H. rewrite nll_dispatch, H. cbn [String.eqb Ascii.eqb Bool.eqb].
  apply nll_gaussian_attribute_error.
Qed.

(** C7.  On a reconstruction and a target of different sizes [nll] returns
    no value, whatever [nll_type] is.  With ['bernoulli'] the assertion of
    [nll_bernoulli] on the two sizes fails; with ['gaussian'] the call
    raises the [AttributeError] of [nll_gaussian]. *)
Theorem nll_shape_mismatch_raises (self : VAE) (recon x : tensor) :
  size x <> size recon ->
  returns (nll self recon x) = false /\
  (nll_type (config self) = "bernoulli"%string ->
   nll self recon x = Raise AssertionError) /\
  (nll_type (config self) = "gaussian"%string ->
   nll self recon x = Raise (AttributeError "_log_unnormalized_prob")).
Proof.
  intros Hs. rewrite nll_dispatch.
  destruct (nll_type (config self) =? "gaussian")%string eqn:Eg.
  - rewrite nll_gaussian_attribute_error.
    split; [reflexivity|]. split; [|reflexivity].
    intros Hb. rewrite Hb in Eg. discriminate Eg.
  - destruct (nll_type (config self) =? "bernoulli")%string eqn:Eb.
    + rewrite (nll_bernoulli_shape_mismatch _ _ Hs).
      split; [reflexivity|]. split; [reflexivity|].
      intros Hg. rewrite Hg in Eg. discriminate Eg.
    + split; [reflexivity|]. split.
      * intros Hb. rewrite Hb in Eb. discriminate Eb.
      * intros Hg. rewrite Hg in Eg. discriminate Eg.
Qed.

Lemma nll_shape_mismatch_raises_witness :
  returns (nll Examples.scenario_vae Examples.logits_2x2 Examples.target_2x3)
  = false /\
  nll Examples.scenario_vae Examples.logits_2x2 Examples.target_2x3
  = Raise AssertionError /\
  nll (Examples.built
         (Examples.vae Examples.mnist_shape
            (Examples.with_types "isotropic_gaussian" "conv" "gaussian"
               Examples.default_config)))
    Examples.logits_2x2 Examples.target_2x3
  = Raise (AttributeError "_log_unnormalized_prob").
Proof.
  destruct (@nll_shape_mismatch_raises Examples.scenario_vae
              Examples.logits_2x2 Examples.target_2x3) as [H [Hb _]];
    [discriminate|].
  destruct (@nll_shape_mismatch_raises
              (Examples.built
                 (Examples.vae Examples.mnist_shape
                    (Examples.with_types "isotropic_gaussian" "conv"
                       "gaussian" Examples.default_config)))
              Examples.logits_2x2 Examples.target_2x3) as [_ [_ Hg]];
    [discriminate|].
  split; [exact H|]. split; [apply Hb; reflexivity | apply Hg; reflexivity].
Defined.

End GaussianFacts.

(** ** [loss_function] *)

Section LossFacts.

Import Torch Vae Spec.

Open Scope R_scope.

Lemma broadcast_same_length (f : R -> R -> R) (a b : vec) :
  List.length a = List.length b -> broadcast f a b = Ok (zip_with f a b).
Proof.
  intros H. unfold broadcast.
  destruct a as [|x [|x' a]], b as [|y [|y' b]];
    try discriminate H; try reflexivity.
  rewrite H, Nat.eqb_refl. reflexivity.
Qed.

Lemma zip_with_length (f : R -> R -> R) (a b : vec) :
  List.length a = List.length b ->
  List.length (zip_with f a b) = List.length a.
Proof.
  revert b. induction a as [|x a IH]; intros [|y b] H; simpl in *;
    try discriminate; auto.
Qed.

Lemma zip_with_nth (f : R -> R -> R) (a b : vec) (i : nat) :
  List.length a = List.length b -> (i < List.length a)%nat ->
  nth i (zip_with f a b) 0 = f (nth i a 0) (nth i b 0).
Proof.
  revert b i. induction a as [|x a IH]; intros [|y b] i H Hi; simpl in *;
    try discriminate; try lia.
  destruct i as [|i]; [reflexivity|]. apply IH; lia.
Qed.

Lemma zip_with_map_r (f : R -> R -> R) (g : R -> R) (a b : vec) :
  zip_with f a (map g b) = zip_with (fun u v => f u (g v)) a b.
Proof.
  revert b. induction a as [|x a IH]; intros [|y b]; simpl; auto.
  rewrite IH. reflexivity.
Qed.

Lemma map_zip_with_zeros (f : R -> R -> R) (a : vec) :
  map (fun u => f u 0) a = zip_with f a (repeat 0 (List.length a)).
Proof. induction a as [|x a IH]; simpl; auto. rewrite IH. reflexivity. Qed.

Lemma zip_with_zero_r (a b : vec) (c : R) :
  List.length a = List.length b -> (forall i, nth i b 0 = 0) ->
  zip_with (fun e m => e - c * m) a b = a.
Proof.
  revert b. induction a as [|x a IH]; intros [|y b] H Hz; simpl in *;
    try discriminate; auto.
  pose proof (Hz 0%nat) as H0. simpl in H0. subst y.
  rewrite IH; [f_equal; ring | lia | intros i; apply (Hz (S i))].
Qed.

(** The dictionary [loss_function] returns when [nll] and [kl] return one
    number per example each, and so does [mutual_info] for a mixture.
    [miv] is the mutual information: that of the reparameterizer for a
    mixture, zero otherwise. *)
Lemma loss_function_value (self : VAE) (recon x : tensor)
  (params : ParamRecord) (nllv kldv miv : vec) :
  nll self recon x = Ok nllv ->
  kld self params = Ok kldv ->
  List.length kldv = List.length nllv ->
  (if is_mixture self
   then mutual_info (reparameterizer self) params = Ok miv
        /\ List.length miv = List.length nllv
   else miv = repeat 0 (List.length nllv)) ->
  let elbo := zip_with Rplus nllv kldv in
  let loss := regularized (float_value (mut_reg (config self))) elbo miv in
  loss_function self recon x params
  = Ok [ ("loss", VTensor loss);
         ("loss_mean", VTensor [mean loss]);
         ("elbo_mean", VTensor [mean elbo]);
         ("nll_mean", VTensor [mean nllv]);
         ("kld_mean", VTensor [mean kldv]);
         ("mut_info_mean",
          if is_mixture self then VTensor [mean miv] else VFloat 0) ]%string.
Proof.
  intros Hn Hk Hl Hm elbo loss. unfold loss_function.
  rewrite Hn, Hk. cbn [bind binop].
  rewrite broadcast_same_length by (symmetry; exact Hl). cbn [bind].
  fold elbo. unfold is_mixture in *.
  assert (Hel : List.length elbo = List.length nllv).
  { unfold elbo. apply zip_with_length. symmetry. exact Hl. }
  destruct (reparam_type (config self) =? "mixture")%string.
  - destruct Hm as [Hm Hml]. rewrite Hm. cbn [bind binop].
    rewrite !broadcast_same_length
      by (rewrite !length_map, Hel, Hml; reflexivity).
    cbn [bind torch_mean isinstance_float negb].
    assert (E : zip_with Rminus elbo
                  (map (Rmult (float_value (mut_reg (config self))))
                     (map (Rplus 0) miv)) = loss).
    { rewrite map_map, zip_with_map_r. unfold loss, regularized.
      apply zip_with_ext. intros u v. ring. }
    assert (E0 : map (Rplus 0) miv = miv).
    { rewrite <- (map_id miv) at 2. apply map_ext. intros v. ring. }
    rewrite E, E0. reflexivity.
  - subst miv. cbn [bind binop torch_mean isinstance_float negb].
    assert (E : map (fun x0 => x0 - float_value (mut_reg (config self)) * 0)
                  elbo = loss).
    { unfold loss, regularized. rewrite <- Hel.
      apply (map_zip_with_zeros
               (fun e m => e - float_value (mut_reg (config self)) * m)). }
    rewrite E. reflexivity.
Qed.

Lemma size_eqb_eq (s t : list nat) : size_eqb s t = true -> s = t.
Proof. unfold size_eqb. destruct (list_eq_dec Nat.eq_dec s t); congruence. Qed.

(** When [nll] returns, it returns one number per batch row. *)
Lemma nll_ok_length (self : VAE) (recon x : tensor) (v : vec) (b : nat)
  (rest : list nat) :
  size recon = b :: rest -> nll self recon x = Ok v -> List.length v = b.
Proof.
  intros Hr H. rewrite nll_dispatch in H.
  destruct (nll_type (config self) =? "gaussian")%string.
  { rewrite nll_gaussian_attribute_error in H. discriminate. }
  destruct (nll_type (config self) =? "bernoulli")%string; [|discriminate].
  destruct (size_eqb (size x) (size recon)) eqn:E.
  - apply size_eqb_eq in E. destruct b as [|b].
    + unfold nll_bernoulli in H. rewrite E, size_eqb_refl, Hr in H.
      discriminate.
    + pose proof (nll_bernoulli_value _ _ Hr E) as Hv.
      assert (Hv' : v = map vsum (zip_rows bernoulli_entry
                          (chunks (numel rest) (S b) (data recon))
                          (chunks (numel rest) (S b) (data x))))
        by (rewrite Hv in H by lia; congruence).
      rewrite Hv'.
      rewrite length_map, zip_rows_length, chunks_length;
        rewrite ?chunks_length; reflexivity.
  - unfold nll_bernoulli in H. rewrite E in H. discriminate.
Qed.

(** C1.  When [nll] and [kl] return one number per example each (and so
    does [mutual_info] for a mixture), [loss_function] returns a map whose
    [loss] is [nll + kld - mut_reg * mut_info] entry by entry, where
    [mut_info] is zero unless [reparam_type] is ['mixture']; its
    [loss_mean], [elbo_mean], [nll_mean] and [kld_mean] are the batch means
    of the loss, of [nll + kld], of [nll] and of [kld]; and when [mut_info]
    is a zero tensor, [loss] is the ELBO [nll + kld] itself. *)
Theorem loss_function_decomposition (self : VAE) (recon x : tensor)
  (params : ParamRecord) (nllv kldv miv : vec) :
  nll self recon x = Ok nllv ->
  kld self params = Ok kldv ->
  List.length kldv = List.length nllv ->
  (if is_mixture self
   then mutual_info (reparameterizer self) params = Ok miv
        /\ List.length miv = List.length nllv
   else miv = repeat 0 (List.length nllv)) ->
  exists m loss,
    loss_function self recon x params = Ok m /\
    lookup "loss" m = Some (VTensor loss) /\
    List.length loss = List.length nllv /\
    (forall i, (i < List.length nllv)%nat ->
       nth i loss 0
       = nth i nllv 0 + nth i kldv 0
         - float_value (mut_reg (config self)) * nth i miv 0) /\
    lookup "loss_mean" m = Some (VTensor [mean loss]) /\
    lookup "elbo_mean" m = Some (VTensor [mean (zip_with Rplus nllv kldv)]) /\
    lookup "nll_mean" m = Some (VTensor [mean nllv]) /\
    lookup "kld_mean" m = Some (VTensor [mean kldv]) /\
    ((forall i, nth i miv 0 = 0) -> loss = zip_with Rplus nllv kldv).
Proof.
  intros Hn Hk Hl Hm.
  pose proof (@loss_function_value self recon x params nllv kldv miv
                Hn Hk Hl Hm) as Hv.
  cbv zeta in Hv.
  assert (Hel : List.length (zip_with Rplus nllv kldv) = List.length nllv)
    by (apply zip_with_length; symmetry; exact Hl).
  assert (Hml : List.length miv = List.length nllv).
  { destruct (is_mixture self); [apply Hm|]. subst miv. apply repeat_length. }
  eexists. eexists. split; [exact Hv|].
  split; [reflexivity|]. split.
  { unfold regularized. rewrite zip_with_length; congruence. }
  split.
  { intros i Hi. unfold regularized.
    rewrite zip_with_nth by (try rewrite Hel; congruence || lia).
    rewrite zip_with_nth by (symmetry in Hl; auto). reflexivity. }
  repeat (split; [reflexivity|]).
  intros Hz. apply zip_with_zero_r; [congruence | exact Hz].
Qed.

(** C8.  When [loss_function] returns, the keys of the map are exactly
    [loss], [loss_mean], [elbo_mean], [nll_mean], [kld_mean] and
    [mut_info_mean], and [loss] is a tensor with one number per batch row,
    provided [kl] and [mutual_info] of the reparameterizer return one
    number per batch row as their contract says. *)
Theorem loss_function_keys (self : VAE) (recon x : tensor)
  (params : ParamRecord) (b : nat) (rest : list nat)
  (m : list (string * value)) :
  size recon = b :: rest ->
  (forall v, kl (reparameterizer self) params = Ok v -> List.length v = b) ->
  (forall v, mutual_info (reparameterizer self) params = Ok v ->
             List.length v = b) ->
  loss_function self recon x params = Ok m ->
  map fst m
  = [ "loss"; "loss_mean"; "elbo_mean"; "nll_mean"; "kld_mean";
      "mut_info_mean" ]%string /\
  exists loss,
    lookup "loss" m = Some (VTensor loss) /\ List.length loss = b.
Proof.
  intros Hr Hkl Hmi H.
  destruct (nll self recon x) as [nllv|e] eqn:Hn.
  2: { unfold loss_function in H. rewrite Hn in H. discriminate. }
  destruct (kld self params) as [kldv|e] eqn:Hk.
  2: { unfold loss_function in H. rewrite Hn, Hk in H. discriminate. }
  pose proof (@nll_ok_length self recon x nllv b rest Hr Hn) as Hnl.
  pose proof (Hkl _ Hk) as Hkl'.
  assert (Hl : List.length kldv = List.length nllv) by congruence.
  assert (Hv : exists miv,
             List.length miv = b /\
             if is_mixture self
             then mutual_info (reparameterizer self) params = Ok miv
                  /\ List.length miv = List.length nllv
             else miv = repeat 0 (List.length nllv)).
  { destruct (is_mixture self) eqn:Hmix.
    - destruct (mutual_info (reparameterizer self) params) as [miv|e] eqn:Hm.
      + exists miv. pose proof (Hmi _ eq_refl). repeat split; congruence.
      + exfalso. unfold loss_function in H. rewrite Hn, Hk in H.
        cbn [bind binop] in H.
        rewrite broadcast_same_length in H by congruence.
        unfold is_mixture in Hmix. cbn [bind] in H.
        rewrite Hmix, Hm in H. discriminate.
    - exists (repeat 0 (List.length nllv)). split; [|reflexivity].
      rewrite repeat_length. exact Hnl. }
  destruct Hv as [miv [Hmb Hv]].
  rewrite (@loss_function_value self recon x params nllv kldv miv
             Hn Hk Hl Hv) in H.
  injection H as <-. split; [reflexivity|].
  eexists. split; [reflexivity|].
  assert (Hel : List.length (zip_with Rplus nllv kldv) = List.length nllv)
    by (apply zip_with_length; symmetry; exact Hl).
  unfold regularized. rewrite zip_with_length; congruence.
Qed.

Example scenario_vae_built :
  Examples.vae Examples.mnist_shape Examples.scenario_config
  = Ok Examples.scenario_vae.
Proof. reflexivity. Qed.

Lemma scenario_nll_ok :
  nll Examples.scenario_vae Examples.logits_2x2 Examples.target_2x2
  = Ok Examples.scenario_nll.
Proof. reflexivity. Defined.

Lemma scenario_kld_ok :
  kld Examples.scenario_vae Examples.scenario_params
  = Ok Examples.scenario_kld.
Proof. reflexivity. Defined.

Lemma scenario_mutual_info_ok :
  mutual_info (reparameterizer Examples.scenario_vae)
    Examples.scenario_params = Ok (repeat 0 2).
Proof. reflexivity. Defined.

Lemma loss_function_decomposition_witness :
  exists m loss,
    loss_function Examples.scenario_vae Examples.logits_2x2
      Examples.target_2x2 Examples.scenario_params = Ok m /\
    lookup "loss" m = Some (VTensor loss) /\
    List.length loss = List.length Examples.scenario_nll /\
    (forall i, (i < List.length Examples.scenario_nll)%nat ->
       nth i loss 0
       = nth i Examples.scenario_nll 0 + nth i Examples.scenario_kld 0
         - float_value (mut_reg (config Examples.scenario_vae))
           * nth i (repeat 0 2) 0) /\
    lookup "loss_mean" m = Some (VTensor [mean loss]) /\
    lookup "elbo_mean" m
    = Some (VTensor [mean (zip_with Rplus Examples.scenario_nll
                             Examples.scenario_kld)]) /\
    lookup "nll_mean" m = Some (VTensor [mean Examples.scenario_nll]) /\
    lookup "kld_mean" m = Some (VTensor [mean Examples.scenario_kld]) /\
    ((forall i, nth i (repeat 0 2) 0 = 0) ->
     loss = zip_with Rplus Examples.scenario_nll Examples.scenario_kld).
Proof.
  apply (@loss_function_decomposition Examples.scenario_vae
           Examples.logits_2x2 Examples.target_2x2 Examples.scenario_params
           Examples.scenario_nll Examples.scenario_kld (repeat 0 2)).
  - exact scenario_nll_ok.
  - exact scenario_kld_ok.
  - reflexivity.
  - split; [exact scenario_mutual_info_ok | reflexivity].
Defined.

Lemma loss_function_keys_witness :
  exists m,
    loss_function Examples.scenario_vae Examples.logits_2x2
      Examples.target_2x2 Examples.scenario_params = Ok m /\
    map fst m
    = [ "loss"; "loss_mean"; "elbo_mean"; "nll_mean"; "kld_mean";
        "mut_info_mean" ]%string /\
    exists loss,
      lookup "loss" m = Some (VTensor loss) /\ List.length loss = 2%nat.
Proof.
  assert (Hm : (if is_mixture Examples.scenario_vae
                then mutual_info (reparameterizer Examples.scenario_vae)
                       Examples.scenario_params = Ok (repeat 0 2)
                     /\ List.length (repeat 0 2)
                        = List.length Examples.scenario_nll
                else repeat 0 2
                     = repeat 0 (List.length Examples.scenario_nll)))
    by (split; [exact scenario_mutual_info_ok | reflexivity]).
  pose proof (@loss_function_value Examples.scenario_vae
                Examples.logits_2x2 Examples.target_2x2
                Examples.scenario_params Examples.scenario_nll
                Examples.scenario_kld (repeat 0 2)
                scenario_nll_ok scenario_kld_ok eq_refl Hm) as Hv.
  cbv zeta in Hv. eexists. split; [exact Hv|].
  apply (@loss_function_keys Examples.scenario_vae Examples.logits_2x2
           Examples.target_2x2 Examples.scenario_params 2 [2%nat] _
           eq_refl).
  - intros v H.
    change (kld Examples.scenario_vae Examples.scenario_params = Ok v) in H.
    rewrite scenario_kld_ok in H.
    assert (E : v = Examples.scenario_kld) by congruence.
    rewrite E. reflexivity.
  - intros v H. rewrite scenario_mutual_info_ok in H.
    assert (E : v = repeat 0 2) by congruence.
    rewrite E. reflexivity.
  - exact Hv.
Defined.

End LossFacts.

(** ** Construction *)

Section InitFacts.

Import Torch Vae Spec.

Context `{RP : Reparameterizers}.

Lemma construct_same (l l' : layer) : construct l = Ok l' -> l' = l.
Proof.
  destruct l; cbn [construct];
    repeat match goal with
    | |- context [if ?b then _ else _] => destruct b
    end; intros H; first [discriminate H | injection H as <-; reflexivity].
Qed.

(** What [nn.Sequential] returns holds the layers it was given. *)
Lemma sequential_same (ls ls' : list layer) :
  sequential ls = Ok ls' -> ls' = ls.
Proof.
  revert ls'. induction ls as [|l ls IH]; intros ls' H; cbn [sequential] in H.
  - injection H as <-. reflexivity.
  - destruct (construct l) as [l1|] eqn:E1; [|discriminate H].
    destruct (sequential ls) as [ls1|] eqn:E2; [|discriminate H].
    cbn [bind] in H. injection H as <-.
    rewrite (construct_same _ E1), (IH ls1 eq_refl). reflexivity.
Qed.

Lemma bind_sequential (A : Type) (ls : list layer)
  (k : list layer -> result A) (m : A) :
  (built <- sequential ls ;; k built) = Ok m -> k ls = Ok m.
Proof.
  destruct (sequential ls) as [ls1|] eqn:E; [|discriminate].
  cbn [bind]. rewrite (sequential_same _ E). auto.
Qed.









(** With a [nll_type] that is neither ['bernoulli'] nor ['gaussian'], every
    call of [nll] raises [KeyError]. *)
Lemma nll_unknown_type (self : VAE) (recon x : tensor) :
  known_nll_type (nll_type (config self)) = false ->
  nll self recon x = Raise (KeyError (nll_type (config self))).
Proof.
  unfold known_nll_type. intros H. rewrite nll_dispatch.
  apply orb_false_iff in H. destruct H as [H1 H2].
  rewrite H1, H2. reflexivity.
Qed.


End InitFacts.

Section InitExamples.

Import Torch Vae Spec.



End InitExamples.

(** ** The lazy projection *)

Section LazyFacts.

Import Torch Vae Spec.

Lemma hasattr_enc_proj (self : VAE) :
  hasattr self "enc_proj"
  = match enc_proj self with Some _ => true | None => false end.
Proof. unfold hasattr, instance_attributes. destruct (enc_proj self); reflexivity. Qed.

Lemma lazy_init_dense_built (self : VAE) (p : module) (i o : Z) :
  enc_proj self = Some p -> _lazy_init_dense self i o = self.
Proof.
  intros H. unfold _lazy_init_dense. rewrite hasattr_enc_proj, H. reflexivity.
Qed.

Lemma lazy_init_dense_fresh (self : VAE) (i o : Z) :
  enc_proj self = None ->
  enc_proj (_lazy_init_dense self i o)
  = Some (place (config self) [View [-1; i]%Z; Linear i o]).
Proof.
  intros H. unfold _lazy_init_dense. rewrite hasattr_enc_proj, H. reflexivity.
Qed.

Lemma forward_state (self : VAE) (x : list nat) :
  fst (forward self x) = fst (encode self x).
Proof. unfold forward. destruct (encode self x). reflexivity. Qed.




End LazyFacts.

(** ** Python strings *)

Section StringFacts.

Import PyStr Spec.

Open Scope string_scope.

Lemma append_assoc (a b c : string) : (a ++ b) ++ c = a ++ (b ++ c).
Proof. induction a as [|x a IH]; simpl; congruence. Qed.

Lemma append_inv_head (a x y : string) : a ++ x = a ++ y -> x = y.
Proof.
  induction a as [|c a IH]; simpl; intros H; [exact H|].
  injection H as H. auto.
Qed.

Lemma append_length (a b : string) :
  String.length (a ++ b) = (String.length a + String.length b)%nat.
Proof. induction a as [|x a IH]; simpl; congruence. Qed.

Lemma append_inv_tail (x y b : string) : x ++ b = y ++ b -> x = y.
Proof.
  revert y. induction x as [|c x IH]; intros [|d y] H; simpl in H.
  - reflexivity.
  - exfalso. apply (f_equal String.length) in H. simpl in H.
    rewrite append_length in H. lia.
  - exfalso. apply (f_equal String.length) in H. simpl in H.
    rewrite append_length in H. lia.
  - injection H as Hc H. f_equal; auto.
Qed.

Lemma all_chars_app (p : ascii -> bool) (a b : string) :
  all_chars p (a ++ b) = (all_chars p a && all_chars p b)%bool.
Proof.
  induction a as [|c a IH]; simpl; [reflexivity|].
  rewrite IH, andb_assoc. reflexivity.
Qed.

Lemma all_chars_impl (p q : ascii -> bool) (s : string) :
  (forall c, p c = true -> q c = true) ->
  all_chars p s = true -> all_chars q s = true.
Proof.
  intros Hpq. induction s as [|c s IH]; simpl; [reflexivity|].
  intros H. apply andb_true_iff in H. destruct H as [Hc Hs].
  rewrite (Hpq c Hc), (IH Hs). reflexivity.
Qed.

(** *** [lower] and [replace] work character by character *)

Lemma lower_app (a b : string) : lower (a ++ b) = lower a ++ lower b.
Proof. induction a as [|c a IH]; simpl; congruence. Qed.

Lemma replace_app (old : ascii) (new a b : string) :
  replace old new (a ++ b) = replace old new a ++ replace old new b.
Proof.
  induction a as [|c a IH]; simpl; [reflexivity|].
  destruct (Ascii.eqb c old); rewrite IH.
  - rewrite append_assoc. reflexivity.
  - reflexivity.
Qed.

Lemma clean_app (a b : string) : clean (a ++ b) = clean a ++ clean b.
Proof. unfold clean. rewrite lower_app, !replace_app. reflexivity. Qed.

Lemma replace_other (old : ascii) (new : string) (c : ascii) (s : string) :
  Ascii.eqb c old = false ->
  replace old new (String c s) = String c (replace old new s).
Proof. intros H. simpl. rewrite H. reflexivity. Qed.

Lemma clean_kept_cons (c : ascii) (s : string) :
  kept c = true -> clean (String c s) = String c (clean s).
Proof.
  unfold kept, char_in. intros H. apply andb_true_iff in H.
  destruct H as [Hl Hr]. apply Ascii.eqb_eq in Hl.
  apply negb_true_iff in Hr. cbn [list_ascii_of_string existsb] in Hr.
  repeat (apply orb_false_iff in Hr; destruct Hr as [? Hr]).
  unfold clean. cbn [lower]. rewrite Hl.
  rewrite !replace_other by assumption. reflexivity.
Qed.

Lemma clean_kept (s : string) : all_chars kept s = true -> clean s = s.
Proof.
  induction s as [|c s IH]; [reflexivity|]. simpl. intros H.
  apply andb_true_iff in H. destruct H as [Hc Hs].
  rewrite clean_kept_cons by exact Hc. rewrite IH by exact Hs. reflexivity.
Qed.

(** *** [strip] *)

Lemma rstrip_app (a y : string) :
  rstrip y <> EmptyString -> rstrip (a ++ y) = a ++ rstrip y.
Proof.
  intros Hy. induction a as [|c a IH]; [reflexivity|].
  cbn [append rstrip]. rewrite IH.
  destruct (a ++ rstrip y) eqn:E; [|reflexivity].
  exfalso. destruct a; simpl in E; [contradiction | discriminate].
Qed.

Lemma rstrip_visible_cons (c : ascii) (s : string) :
  is_space c = false -> rstrip (String c s) <> EmptyString.
Proof.
  intros H. cbn [rstrip]. destruct (rstrip s); [rewrite H|]; discriminate.
Qed.

Lemma rstrip_visible_app (a y : string) :
  rstrip y <> EmptyString -> rstrip (a ++ y) <> EmptyString.
Proof.
  intros Hy. rewrite rstrip_app by exact Hy.
  destruct a; simpl; [exact Hy | discriminate].
Qed.

Lemma rstrip_no_space (s : string) :
  all_chars (fun c => negb (is_space c)) s = true -> rstrip s = s.
Proof.
  induction s as [|c s IH]; [reflexivity|]. simpl. intros H.
  apply andb_true_iff in H. destruct H as [Hc Hs].
  apply negb_true_iff in Hc. rewrite (IH Hs), Hc.
  destruct s; reflexivity.
Qed.

End StringFacts.

(** ** [str] of integers and of lists of integers *)

Section IntStringFacts.

Import PyStr Spec.

Open Scope string_scope.

Lemma string_of_uint_chars (d : Decimal.uint) :
  all_chars int_char (NilEmpty.string_of_uint d) = true.
Proof. induction d; simpl; auto. Qed.

Lemma str_int_chars (z : Z) : all_chars int_char (str_int z) = true.
Proof.
  unfold str_int. destruct z as [|p|p]; [reflexivity| |];
    cbn [Z.to_int NilZero.string_of_int];
    [|cbn [all_chars]; apply andb_true_iff; split; [reflexivity|]];
    unfold NilZero.string_of_uint;
    pose proof (string_of_uint_chars (Pos.to_uint p)) as H;
    destruct (Pos.to_uint p); (reflexivity || exact H).
Qed.

Lemma to_int_not_nil (z : Z) :
  Z.to_int z <> Decimal.Pos Decimal.Nil /\
  Z.to_int z <> Decimal.Neg Decimal.Nil.
Proof.
  destruct z as [|p|p]; cbn [Z.to_int]; split; intros H;
    try discriminate; injection H as H;
    exact (DecimalPos.Unsigned.to_uint_nonnil p H).
Qed.

Lemma str_int_inj (z z' : Z) : str_int z = str_int z' -> z = z'.
Proof.
  unfold str_int. intros H. apply DecimalZ.to_int_inj.
  destruct (to_int_not_nil z) as [H1 H2].
  destruct (to_int_not_nil z') as [H1' H2'].
  pose proof (NilZero.isi (Z.to_int z) H1 H2) as E.
  pose proof (NilZero.isi (Z.to_int z') H1' H2') as E'.
  rewrite H in E. congruence.
Qed.

Lemma str_int_nonempty (z : Z) : str_int z <> EmptyString.
Proof.
  unfold str_int. destruct z as [|p|p]; cbn [Z.to_int NilZero.string_of_int];
    try discriminate.
  unfold NilZero.string_of_uint.
  destruct (Pos.to_uint p); discriminate.
Qed.

Lemma int_char_kept (c : ascii) : int_char c = true -> kept c = true.
Proof.
  destruct c as [[] [] [] [] [] [] [] []]; intros H;
    try reflexivity; discriminate H.
Qed.

Lemma int_char_no_underscore (c : ascii) :
  int_char c = true -> Ascii.eqb c "_" = false.
Proof.
  destruct c as [[] [] [] [] [] [] [] []]; intros H;
    try reflexivity; discriminate H.
Qed.

Lemma clean_str_int (z : Z) : clean (str_int z) = str_int z.
Proof.
  apply clean_kept.
  apply (all_chars_impl int_char kept _ int_char_kept), str_int_chars.
Qed.

Lemma clean_str_int_inj (z z' : Z) :
  clean (str_int z) = clean (str_int z') -> z = z'.
Proof. rewrite !clean_str_int. apply str_int_inj. Qed.

Lemma join_cons (sep x : string) (l : list string) :
  join sep (x :: l)
  = x ++ match l with [] => EmptyString | _ => sep ++ join sep l end.
Proof.
  destruct l; cbn [join]; [|reflexivity].
  induction x as [|c x IH]; simpl; congruence.
Qed.

Lemma clean_join (l : list Z) :
  clean (join ", " (map str_int l)) = join "_" (map str_int l).
Proof.
  induction l as [|x l IH]; [reflexivity|].
  cbn [map]. rewrite !join_cons, clean_app, clean_str_int.
  destruct l as [|y l]; [reflexivity|].
  cbn [map] in *. rewrite clean_app, IH. reflexivity.
Qed.

Lemma clean_str_list (l : list Z) :
  clean (str_list l) = join "_" (map str_int l).
Proof.
  unfold str_list. rewrite !clean_app, clean_join.
  change (clean "[") with EmptyString. change (clean "]") with EmptyString.
  cbn [append]. induction (join "_" (map str_int l)); simpl; congruence.
Qed.

(** Two texts without ['_'], each followed by nothing or by a text that
    starts with ['_'], are equal when the whole texts are. *)
Lemma split_at_underscore (a b t t' : string) :
  all_chars int_char a = true -> all_chars int_char b = true ->
  (t = EmptyString \/ exists r, t = String "_" r) ->
  (t' = EmptyString \/ exists r, t' = String "_" r) ->
  a ++ t = b ++ t' -> a = b /\ t = t'.
Proof.
  revert b. induction a as [|c a IH]; intros [|d b] Ha Hb Ht Ht' H;
    simpl in *.
  - auto.
  - exfalso. apply andb_true_iff in Hb. destruct Hb as [Hd _].
    apply int_char_no_underscore in Hd.
    destruct Ht as [Ht|[r Ht]]; subst t; [discriminate|].
    injection H as Hc _. subst d. discriminate Hd.
  - exfalso. apply andb_true_iff in Ha. destruct Ha as [Hc _].
    apply int_char_no_underscore in Hc.
    destruct Ht' as [Ht'|[r Ht']]; subst t'; [discriminate|].
    injection H as Hd _. subst c. discriminate Hc.
  - apply andb_true_iff in Ha. destruct Ha as [_ Ha].
    apply andb_true_iff in Hb. destruct Hb as [_ Hb].
    injection H as Hc H. subst d.
    destruct (IH b Ha Hb Ht Ht' H) as [E1 E2]. subst. auto.
Qed.

Lemma after_first_shape (l : list string) :
  after_first l = EmptyString \/ exists r, after_first l = String "_" r.
Proof. destruct l; [left; reflexivity | right; eexists; reflexivity]. Qed.

Lemma join_str_int_inj (l l' : list Z) :
  join "_" (map str_int l) = join "_" (map str_int l') -> l = l'.
Proof.
  revert l'. induction l as [|x l IH]; intros [|y l'] H.
  - reflexivity.
  - exfalso. cbn [map] in H. rewrite join_cons in H.
    apply (str_int_nonempty y). destruct (str_int y); [reflexivity|].
    discriminate H.
  - exfalso. cbn [map] in H. rewrite join_cons in H.
    apply (str_int_nonempty x). destruct (str_int x); [reflexivity|].
    discriminate H.
  - cbn [map] in H. rewrite !join_cons in H.
    change (match map str_int l with [] => EmptyString | _ => "_" ++ join "_" (map str_int l) end)
      with (after_first (map str_int l)) in H.
    change (match map str_int l' with [] => EmptyString | _ => "_" ++ join "_" (map str_int l') end)
      with (after_first (map str_int l')) in H.
    destruct (@split_at_underscore (str_int x) (str_int y)
                (after_first (map str_int l)) (after_first (map str_int l'))
                (str_int_chars x) (str_int_chars y)
                (after_first_shape _) (after_first_shape _) H) as [E1 E2].
    apply str_int_inj in E1. subst y. f_equal.
    apply IH.
    destruct l as [|u l], l' as [|v l']; try reflexivity;
      try discriminate E2.
    cbn [map after_first] in E2. apply (append_inv_head "_") in E2.
    exact E2.
Qed.

Lemma clean_str_list_inj (l l' : list Z) :
  clean (str_list l) = clean (str_list l') -> l = l'.
Proof. rewrite !clean_str_list. apply join_str_int_inj. Qed.

End IntStringFacts.

(** ** [get_name] *)

Section NameFacts.

Import PyStr Vae Spec.

Open Scope string_scope.

Lemma lstrip_visible (c : ascii) (s t : string) :
  is_space c = false -> lstrip (String c s ++ t) = String c s ++ t.
Proof. intros H. cbn [append lstrip]. rewrite H. reflexivity. Qed.

Ltac visible :=
  repeat first [ apply rstrip_visible_cons; reflexivity
               | apply rstrip_visible_app ].

(** The name, piece by piece. *)
Lemma get_name_form (a : VAE) :
  get_name a
  = "vae_" ++ task (config a)
    ++ clean "_input" ++ clean (str_list (input_shape a))
    ++ clean (param_str (config a))
    ++ clean "_batch" ++ clean (str_int (batch_size (config a)))
    ++ clean "_mut" ++ clean (float_str (mut_reg (config a)))
    ++ clean "_filter_depth" ++ clean (str_int (filter_depth (config a)))
    ++ clean "_nll" ++ clean (nll_type (config a))
    ++ clean "_reparam" ++ clean (reparam_type (config a))
    ++ clean (rstrip ("_lr" ++ float_str (lr (config a)))).
Proof.
  unfold get_name, strip. cbv zeta. do 2 f_equal.
  assert (Hc : forall s,
             replace "'" EmptyString
               (replace ")" EmptyString
                 (replace "(" EmptyString
                   (replace ":" EmptyString
                     (replace "," "_"
                       (replace "}" EmptyString
                         (replace "{" EmptyString
                           (replace " " EmptyString
                             (replace "]" EmptyString
                               (replace "[" EmptyString (lower s))))))))))
             = clean s) by reflexivity.
  rewrite Hc. rewrite lstrip_visible by reflexivity.
  rewrite !rstrip_app by visible.
  rewrite !clean_app. reflexivity.
Qed.

Lemma float_like_kept (c : ascii) :
  char_in "0123456789.-+einfa" c = true -> kept c = true.
Proof.
  destruct c as [[] [] [] [] [] [] [] []]; intros H;
    try reflexivity; discriminate H.
Qed.

Lemma float_like_no_space (c : ascii) :
  char_in "0123456789.-+einfa" c = true -> negb (is_space c) = true.
Proof.
  destruct c as [[] [] [] [] [] [] [] []]; intros H;
    try reflexivity; discriminate H.
Qed.

Lemma clean_float_like (s : string) : float_like s = true -> clean s = s.
Proof.
  intros H. apply clean_kept.
  exact (all_chars_impl _ kept _ float_like_kept H).
Qed.

Lemma lr_piece_inj (l l' : string) :
  float_like l = true -> float_like l' = true ->
  clean (rstrip ("_lr" ++ l)) = clean (rstrip ("_lr" ++ l')) -> l = l'.
Proof.
  intros Hl Hl' H.
  assert (Hs : forall s, float_like s = true ->
                 rstrip ("_lr" ++ s) = "_lr" ++ s).
  { intros s Hf. apply rstrip_no_space. rewrite all_chars_app.
    rewrite (all_chars_impl _ (fun c => negb (is_space c)) _
               float_like_no_space Hf). reflexivity. }
  rewrite (Hs l Hl), (Hs l' Hl'), !clean_app in H.
  apply append_inv_head in H.
  rewrite !clean_float_like in H by assumption. exact H.
Qed.

Lemma known_nll_type_cases (s : string) :
  known_nll_type s = true -> s = "bernoulli" \/ s = "gaussian".
Proof.
  unfold known_nll_type. intros H. apply orb_true_iff in H.
  destruct H as [H|H]; apply String.eqb_eq in H; auto.
Qed.

Lemma known_reparam_type_cases (s : string) :
  known_reparam_type s = true ->
  s = "isotropic_gaussian" \/ s = "discrete" \/ s = "mixture".
Proof.
  unfold known_reparam_type. intros H. apply orb_true_iff in H.
  destruct H as [H|H]; [apply orb_true_iff in H; destruct H as [H|H]|];
    apply String.eqb_eq in H; auto.
Qed.

Ltac agree_on Hsame H a b h' :=
  let E := fresh "E" in
  assert (E : agree h' a b) by (apply Hsame; discriminate);
  cbn [agree] in E; rewrite ?E in H; clear E.

Ltac agree_elsewhere Hsame H a b :=
  try agree_on Hsame H a b InputShape;
  try agree_on Hsame H a b ContinuousSize;
  try agree_on Hsame H a b DiscreteSize;
  try agree_on Hsame H a b BatchSize;
  try agree_on Hsame H a b MutReg;
  try agree_on Hsame H a b FilterDepth;
  try agree_on Hsame H a b NllType;
  try agree_on Hsame H a b ReparamType;
  try agree_on Hsame H a b Lr.

Ltac decide_mixture H :=
  repeat match type of H with
  | context [String.eqb ?s "mixture"] =>
      let v := eval vm_compute in (String.eqb s "mixture") in
      change (String.eqb s "mixture") with v in H
  end;
  cbv iota in H.

Tactic Notation "heads" hyp(H) integer(n) :=
  do n (apply append_inv_head in H).

Lemma param_str_first_char (x y r r' : string) :
  clean ("_disc" ++ x) ++ r = clean ("latent" ++ y) ++ r' -> False.
Proof.
  rewrite !clean_app.
  change (clean "latent") with "latent". change (clean "_disc") with "_disc".
  cbn [append]. discriminate.
Qed.

(** Two objects that differ in one hyperparameter have different names,
    when that one is the input shape, [continuous_size], the batch size or
    the filter depth; [discrete_size] of a mixture; [nll_type] or
    [reparam_type] with enumerated values; [mut_reg] or [lr] with texts
    that differ. *)
Lemma get_name_separates (h : hyper) (a b : VAE) :
  task (config a) = task (config b) ->
  (forall h', h' <> h -> agree h' a b) ->
  ~ agree h a b ->
  nameable h a -> nameable h b ->
  get_name a <> get_name b.
Proof.
  intros Htask Hsame Hdiff Na Nb H.
  rewrite !get_name_form in H. unfold param_str in H.
  rewrite Htask in H.
  destruct h; cbn [agree nameable] in Hdiff, Na, Nb;
    agree_elsewhere Hsame H a b.
  - (* input shape *)
    heads H 3. apply append_inv_tail in H.
    apply clean_str_list_inj in H. contradiction.
  - (* continuous size *)
    heads H 4. apply append_inv_tail in H.
    destruct (reparam_type (config b) =? "mixture").
    + rewrite !clean_app in H. heads H 3.
      apply clean_str_int_inj in H. contradiction.
    + rewrite !clean_app in H. heads H 1.
      apply clean_str_int_inj in H. contradiction.
  - (* discrete size, for a mixture *)
    unfold is_mixture in Na, Nb. rewrite Nb in H.
    heads H 4. apply append_inv_tail in H.
    rewrite !clean_app in H. heads H 1. apply append_inv_tail in H.
    apply clean_str_int_inj in H. contradiction.
  - (* batch size *)
    heads H 6. apply append_inv_tail in H.
    apply clean_str_int_inj in H. contradiction.
  - (* mut_reg *)
    heads H 8. apply append_inv_tail in H.
    rewrite !clean_float_like in H by assumption. contradiction.
  - (* filter depth *)
    heads H 10. apply append_inv_tail in H.
    apply clean_str_int_inj in H. contradiction.
  - (* nll type *)
    heads H 12. apply append_inv_tail in H.
    apply known_nll_type_cases in Na, Nb.
    destruct Na as [Ea|Ea], Nb as [Eb|Eb]; rewrite Ea, Eb in *;
      try (apply Hdiff; reflexivity); vm_compute in H; discriminate H.
  - (* reparam type *)
    heads H 4.
    apply known_reparam_type_cases in Na, Nb.
    destruct Na as [Ea|[Ea|Ea]], Nb as [Eb|[Eb|Eb]]; rewrite Ea, Eb in *;
      try (exfalso; apply Hdiff; reflexivity); decide_mixture H.
    + heads H 10. apply append_inv_tail in H. vm_compute in H.
      discriminate H.
    + symmetry in H. exact (param_str_first_char H).
    + heads H 10. apply append_inv_tail in H. vm_compute in H.
      discriminate H.
    + symmetry in H. exact (param_str_first_char H).
    + exact (param_str_first_char H).
    + exact (param_str_first_char H).
  - (* lr *)
    heads H 15. apply lr_piece_inj in H; [contradiction | assumption..].
Qed.

(** The name of an object that is not a mixture does not depend on
    [discrete_size]. *)
Lemma get_name_without_discrete_size (a b : VAE) :
  is_mixture a = false ->
  task (config a) = task (config b) ->
  (forall h', h' <> DiscreteSize -> agree h' a b) ->
  get_name a = get_name b.
Proof.
  intros Hmix Htask Hsame.
  assert (H : get_name b = get_name b) by reflexivity.
  unfold get_name at 1 in H. unfold get_name at 1. unfold is_mixture in Hmix.
  agree_elsewhere Hsame Hmix a b.
  assert (G : forall h', h' <> DiscreteSize -> agree h' a b) by exact Hsame.
  rewrite Htask.
  repeat match goal with
  | |- context [input_shape a] =>
      rewrite (G InputShape ltac:(discriminate) : input_shape a = _)
  | |- context [continuous_size (config a)] =>
      rewrite (G ContinuousSize ltac:(discriminate)
               : continuous_size (config a) = _)
  | |- context [batch_size (config a)] =>
      rewrite (G BatchSize ltac:(discriminate) : batch_size (config a) = _)
  | |- context [float_str (mut_reg (config a))] =>
      rewrite (G MutReg ltac:(discriminate)
               : float_str (mut_reg (config a)) = _)
  | |- context [filter_depth (config a)] =>
      rewrite (G FilterDepth ltac:(discriminate)
               : filter_depth (config a) = _)
  | |- context [nll_type (config a)] =>
      rewrite (G NllType ltac:(discriminate) : nll_type (config a) = _)
  | |- context [reparam_type (config a)] =>
      rewrite (G ReparamType ltac:(discriminate)
               : reparam_type (config a) = _)
  | |- context [float_str (lr (config a))] =>
      rewrite (G Lr ltac:(discriminate) : float_str (lr (config a)) = _)
  end.
  rewrite Hmix. unfold get_name. rewrite Hmix. reflexivity.
Qed.

Example get_name_default :
  get_name (Examples.built
              (Examples.vae Examples.mnist_shape Examples.default_config))
  = "vae_mnist_input1_28_28latent32_batch64_mut0.3_filter_depth32_nllbernoulli_reparamisotropic_gaussian_lr0.001".
Proof. vm_compute. reflexivity. Qed.

Example get_name_scenario :
  get_name Examples.scenario_vae
  = "vae_mnist_input1_28_28_disc10_cont8_batch64_mut0.3_filter_depth32_nllbernoulli_reparammixture_lr0.001".
Proof. vm_compute. reflexivity. Qed.

(** C6.  Two objects whose latent variable is discrete
    ([reparam_type = 'discrete']) and which agree on everything but
    [discrete_size] have one name: [get_name] prints [discrete_size] for a
    mixture only, and for every other [reparam_type] prints
    [continuous_size] in its place. *)
Theorem get_name_discrete_collision (a b : VAE) :
  reparam_type (config a) = "discrete" ->
  task (config a) = task (config b) ->
  (forall h', h' <> DiscreteSize -> agree h' a b) ->
  get_name a = get_name b.
Proof.
  intros Hd. apply get_name_without_discrete_size.
  unfold is_mixture. rewrite Hd. reflexivity.
Qed.

(** Two such objects, with [discrete_size] 10 and 16: their encoders end in
    different widths, and they have one name. *)
Lemma get_name_discrete_collision_witness :
  discrete_size (config (Examples.discrete_vae 10))
  <> discrete_size (config (Examples.discrete_vae 16)) /\
  input_size (reparameterizer (Examples.discrete_vae 10))
  <> input_size (reparameterizer (Examples.discrete_vae 16)) /\
  get_name (Examples.discrete_vae 10) = get_name (Examples.discrete_vae 16).
Proof.
  split; [discriminate|]. split; [discriminate|].
  apply (@get_name_discrete_collision (Examples.discrete_vae 10)
           (Examples.discrete_vae 16)).
  - reflexivity.
  - reflexivity.
  - intros h' Hh. destruct h'; try reflexivity. contradiction.
Defined.

End NameFacts.

(* ================================================================= *)
(** * Part III: further properties of the helpers and of the model *)
(* ================================================================= *)

(** ** [scale]: failures, round trip, order *)

Section ScaleMore.

Import Utils.

Lemma Qeq_bool_minus (a b : Q) : Qeq_bool (a - b) 0 = Qeq_bool a b.
Proof.
  apply Bool.eq_iff_eq_true. rewrite !Qeq_bool_iff. split; intros H.
  - apply Qminus_zero_eq. exact H.
  - rewrite H. ring.
Qed.

Lemma scale_equal_ends (val s0 s1 : Q) (srest dst : list Q) :
  (s1 == s0)%Q -> scale val (s0 :: s1 :: srest) dst = Raise ZeroDivisionError.
Proof.
  intros H. unfold scale, truediv. cbn [getitem nth_error bind].
  rewrite Qeq_bool_minus.
  apply Qeq_bool_iff in H. rewrite H. reflexivity.
Qed.

(** X1.  The failures of [scale].  A source range of fewer than two entries
    raises [IndexError]; a source range whose two ends are equal raises
    [ZeroDivisionError], whatever the destination is; with a proper source
    range, a destination of fewer than two entries raises [IndexError].  So
    [scale] returns exactly when both ranges have two entries and the ends
    of the source differ. *)
Theorem scale_failures (val : Q) (src dst : list Q) :
  ((List.length src < 2)%nat -> scale val src dst = Raise IndexError) /\
  (forall s0 s1 srest, src = s0 :: s1 :: srest -> (s1 == s0)%Q ->
     scale val src dst = Raise ZeroDivisionError) /\
  (forall s0 s1 srest, src = s0 :: s1 :: srest -> ~ (s1 == s0)%Q ->
     (List.length dst < 2)%nat -> scale val src dst = Raise IndexError) /\
  (returns (scale val src dst) = true <->
   exists s0 s1 srest d0 d1 drest,
     src = s0 :: s1 :: srest /\ dst = d0 :: d1 :: drest /\ ~ (s1 == s0)%Q).
Proof.
  assert (Hshort : (List.length src < 2)%nat ->
                   scale val src dst = Raise IndexError).
  { intros H. destruct src as [|s0 [|s1 srest]]; simpl in H;
      try reflexivity; lia. }
  assert (Hdst : forall s0 s1 srest, src = s0 :: s1 :: srest ->
                   ~ (s1 == s0)%Q -> (List.length dst < 2)%nat ->
                   scale val src dst = Raise IndexError).
  { intros s0 s1 srest -> Hne H.
    unfold scale. cbn [getitem nth_error bind].
    rewrite truediv_nonzero
      by (intros E; apply Hne, Qminus_zero_eq; exact E).
    destruct dst as [|d0 [|d1 drest]]; simpl in H; try reflexivity; lia. }
  split; [exact Hshort|]. split.
  { intros s0 s1 srest -> H. apply scale_equal_ends. exact H. }
  split; [exact Hdst|]. split.
  - intros H.
    destruct src as [|s0 [|s1 srest]];
      try (rewrite Hshort in H by (simpl; lia); discriminate H).
    destruct (Qeq_dec s1 s0) as [E|E].
    { rewrite scale_equal_ends in H by exact E. discriminate H. }
    destruct dst as [|d0 [|d1 drest]];
      try (rewrite (Hdst s0 s1 srest eq_refl E) in H by (simpl; lia);
           discriminate H).
    exists s0, s1, srest, d0, d1, drest. auto.
  - intros (s0 & s1 & srest & d0 & d1 & drest & -> & -> & Hne).
    rewrite scale_value by exact Hne. reflexivity.
Qed.

Lemma scale_failures_witness :
  scale 3 [5; 5]%Q [] = Raise ZeroDivisionError /\
  returns (scale 3 [5; 6]%Q [0; 1]%Q) = true.
Proof.
  destruct (scale_failures 3 [5; 5]%Q []) as [_ [Hz _]].
  destruct (scale_failures 3 [5; 6]%Q [0; 1]%Q) as [_ [_ [_ Hr]]].
  split.
  - apply (Hz 5 5 [] eq_refl). reflexivity.
  - apply Hr. exists 5, 6, [], 0, 1, []. repeat split. discriminate.
Defined.

(** X2.  Round trip.  When the ends of the source differ and so do the ends of
    the destination, scaling a value from the source range to the
    destination range and back gives the value again. *)
Theorem scale_round_trip (val s0 s1 d0 d1 : Q) (srest drest : list Q) :
  ~ (s1 == s0)%Q -> ~ (d1 == d0)%Q ->
  let src := s0 :: s1 :: srest in
  let dst := d0 :: d1 :: drest in
  exists r r',
    scale val src dst = Ok r /\ scale r dst src = Ok r' /\ (r' == val)%Q.
Proof.
  intros Hs Hd src dst. subst src dst.
  eexists. eexists.
  split; [apply scale_value; exact Hs|].
  split; [apply scale_value; exact Hd|].
  field. split; intros H.
  - apply Hs, Qminus_zero_eq, H.
  - apply Hd, Qminus_zero_eq, H.
Qed.

Lemma scale_round_trip_witness :
  exists r r',
    scale (1 # 4) [0; 1]%Q [10; 20]%Q = Ok r /\
    scale r [10; 20]%Q [0; 1]%Q = Ok r' /\ (r' == 1 # 4)%Q.
Proof.
  apply (@scale_round_trip (1 # 4) 0 1 10 20 [] []); discriminate.
Defined.

Lemma scale_expr_le (v v' s0 s1 d0 d1 : Q) :
  (s0 < s1)%Q -> (d0 <= d1)%Q -> (v <= v')%Q ->
  ((v - s0) / (s1 - s0) * (d1 - d0) + d0
   <= (v' - s0) / (s1 - s0) * (d1 - d0) + d0)%Q.
Proof.
  intros Hs Hd Hv.
  assert (Hp : (0 < s1 - s0)%Q).
  { setoid_replace 0%Q with (s0 - s0)%Q by ring.
    unfold Qminus. apply Qplus_lt_l. exact Hs. }
  assert (Hq : (0 <= d1 - d0)%Q).
  { setoid_replace 0%Q with (d0 - d0)%Q by ring.
    unfold Qminus. apply Qplus_le_l. exact Hd. }
  apply Qplus_le_l. apply Qmult_le_compat_r; [|exact Hq].
  unfold Qdiv. apply Qmult_le_compat_r.
  - unfold Qminus. apply Qplus_le_l. exact Hv.
  - apply Qinv_le_0_compat. apply Qlt_le_weak. exact Hp.
Qed.

(** X3.  Order.  With a source range [s0 < s1] and a destination range
    [d0 <= d1], [scale] is monotone in [val], and it takes the values of the
    source range into the destination range. *)
Theorem scale_monotone (v v' s0 s1 d0 d1 : Q) (srest drest : list Q) :
  (s0 < s1)%Q -> (d0 <= d1)%Q ->
  let src := s0 :: s1 :: srest in
  let dst := d0 :: d1 :: drest in
  ((v <= v')%Q ->
   exists r r',
     scale v src dst = Ok r /\ scale v' src dst = Ok r' /\ (r <= r')%Q) /\
  ((s0 <= v)%Q -> (v <= s1)%Q ->
   exists r, scale v src dst = Ok r /\ (d0 <= r)%Q /\ (r <= d1)%Q).
Proof.
  intros Hs Hd src dst. subst src dst.
  assert (Hne : ~ (s1 == s0)%Q).
  { intros E. rewrite E in Hs. exact (Qlt_irrefl _ Hs). }
  assert (Hz : ~ (s1 - s0 == 0)%Q)
    by (intros E; apply Hne, Qminus_zero_eq, E).
  split.
  - intros Hv. eexists. eexists.
    split; [apply scale_value; exact Hne|].
    split; [apply scale_value; exact Hne|].
    apply scale_expr_le; assumption.
  - intros Hlo Hhi. eexists.
    split; [apply scale_value; exact Hne|]. split.
    + setoid_replace d0
        with ((s0 - s0) / (s1 - s0) * (d1 - d0) + d0)%Q at 1
        by (field; exact Hz).
      apply scale_expr_le; assumption.
    + setoid_replace d1
        with ((s1 - s0) / (s1 - s0) * (d1 - d0) + d0)%Q at 2
        by (field; exact Hz).
      apply scale_expr_le; assumption.
Qed.

Lemma scale_monotone_witness :
  exists r,
    scale (1 # 2) [0; 1]%Q [10; 20]%Q = Ok r /\ (10 <= r)%Q /\ (r <= 20)%Q.
Proof.
  destruct (@scale_monotone (1 # 2) (1 # 2) 0 1 10 20 [] []) as [_ H];
    try (vm_compute; congruence).
  apply H; vm_compute; congruence.
Defined.

End ScaleMore.

(** ** [one_hot], [generate_random_categorical] and [one_hot_np] *)

Section OneHotMore.

Import Utils.

Lemma in_range_test (k : nat) (c : Z) :
  (0 <= c < Z.of_nat k)%Z -> ((0 <=? c) && (c <? Z.of_nat k))%Z = true.
Proof.
  intros H. apply andb_true_iff. split; [apply Z.leb_le | apply Z.ltb_lt]; lia.
Qed.

Lemma in_range_test_inv (k : nat) (c : Z) :
  ((0 <=? c) && (c <? Z.of_nat k))%Z = true -> (0 <= c < Z.of_nat k)%Z.
Proof.
  intros H. apply andb_true_iff in H. destruct H as [H1 H2].
  apply Z.leb_le in H1. apply Z.ltb_lt in H2. lia.
Qed.

(** Scattering a column of in-range indices into a zero mask of at least as
    many rows: one 1 per row of the index, the other rows stay zero. *)
Lemma scatter_1_prefix (s : scatter_src) (k : nat) (cols : list Z)
  (i n : nat) :
  (List.length cols <= n)%nat ->
  Forall (fun c => 0 <= c < Z.of_nat k)%Z cols ->
  (forall d, (d < List.length cols)%nat -> src_at s (i + d) 0 = Ok 1%Z) ->
  scatter_1 s i (map (fun c => [c]) cols) (fill n k 0)
  = Ok (map (fun c => set_at (repeat 0%Z k) (Z.to_nat c) 1%Z) cols
        ++ fill (n - List.length cols) k 0).
Proof.
  revert i n. induction cols as [|c cols IH]; intros i n Hn Hr Hs.
  - simpl. rewrite Nat.sub_0_r. reflexivity.
  - destruct n as [|n]; [simpl in Hn; lia|].
    inversion Hr as [|c' cols' Hc Hr']; subst.
    cbn [map List.length fill repeat scatter_1 scatter_row].
    rewrite repeat_length, in_range_test by exact Hc.
    specialize (Hs 0%nat) as Hs0. rewrite Nat.add_0_r in Hs0.
    rewrite Hs0 by (simpl; lia). cbn [bind].
    unfold fill in IH. rewrite (IH (S i) n).
    + reflexivity.
    + simpl in Hn. lia.
    + exact Hr'.
    + intros d Hd. replace (S i + d)%nat with (i + S d)%nat by lia.
      apply Hs. simpl. lia.
Qed.

Lemma scatter_1_returns (s : scatter_src) (k : nat) (cols : list Z)
  (i n : nat) :
  returns (scatter_1 s i (map (fun c => [c]) cols) (fill n k 0)) = true ->
  (List.length cols <= n)%nat /\
  Forall (fun c => 0 <= c < Z.of_nat k)%Z cols.
Proof.
  revert i n. induction cols as [|c cols IH]; intros i n H.
  - split; [simpl; lia | constructor].
  - destruct n as [|n]; [discriminate H|].
    cbn [map fill repeat scatter_1 scatter_row] in H.
    rewrite repeat_length in H.
    destruct ((0 <=? c) && (c <? Z.of_nat k))%Z eqn:E; [|discriminate H].
    destruct (src_at s i 0) as [v|e]; [|discriminate H].
    cbn [bind scatter_row] in H.
    destruct (IH (S i) n) as [Hl Hf].
    + unfold fill.
      destruct (scatter_1 s (S i) (map (fun c0 => [c0]) cols)
                  (repeat (repeat 0%Z k) n)); [reflexivity|discriminate H].
    + split; [simpl; lia|]. constructor; [|exact Hf].
      apply in_range_test_inv. exact E.
Qed.

Lemma src_at_ones_column (cols : list Z) (is_var : bool) (d : nat) :
  (d < List.length cols)%nat ->
  src_at (if is_var
          then SrcTensor (map (map (fun _ => 1%Z)) (map (fun c => [c]) cols))
          else SrcScalar 1) d 0 = Ok 1%Z.
Proof.
  intros Hd. destruct (nth_error cols d) as [c|] eqn:E.
  - apply src_at_ones with (c := c). rewrite nth_error_map, E. reflexivity.
  - apply nth_error_None in E. lia.
Qed.

(** X4.  [one_hot] on an index of one column.  With no more index rows than
    rows of the mask and every index in [[0, k)], it returns the rows of the
    index as one-hot rows, followed by the rows of zeros the index does not
    reach.  It returns in no other case: more index rows than [n], or an
    index that is negative or at least [k], make it raise. *)
Theorem one_hot_column_index (n k : nat) (cols : list Z) (is_var : bool) :
  ((List.length cols <= n)%nat ->
   Forall (fun c => 0 <= c < Z.of_nat k)%Z cols ->
   one_hot [n; k] (map (fun c => [c]) cols) is_var
   = Ok (map (fun c => set_at (repeat 0%Z k) (Z.to_nat c) 1%Z) cols
         ++ fill (n - List.length cols) k 0)) /\
  (returns (one_hot [n; k] (map (fun c => [c]) cols) is_var) = true ->
   (List.length cols <= n)%nat /\
   Forall (fun c => 0 <= c < Z.of_nat k)%Z cols).
Proof.
  split.
  - intros Hn Hr. unfold one_hot. apply scatter_1_prefix; [exact Hn|exact Hr|].
    intros d Hd. apply src_at_ones_column. exact Hd.
  - unfold one_hot. apply scatter_1_returns.
Qed.

Lemma one_hot_column_index_witness :
  one_hot [3; 2]%nat (map (fun c => [c]) [1]%Z) true
  = Ok ([[0; 1]] ++ [[0; 0]; [0; 0]])%Z /\
  returns (one_hot [1; 2]%nat (map (fun c => [c]) [1; 0]%Z) false) = false /\
  returns (one_hot [2; 2]%nat (map (fun c => [c]) [1; -1]%Z) false) = false.
Proof.
  destruct (one_hot_column_index 3 2 [1]%Z true) as [H _].
  destruct (one_hot_column_index 1 2 [1; 0]%Z false) as [_ H1].
  destruct (one_hot_column_index 2 2 [1; -1]%Z false) as [_ H2].
  split; [|split].
  - apply H; [simpl; lia | repeat constructor; lia].
  - destruct (returns (one_hot [1; 2]%nat (map (fun c => [c]) [1; 0]%Z) false));
      [|reflexivity].
    destruct (H1 eq_refl) as [Hl _]. simpl in Hl. lia.
  - destruct (returns (one_hot [2; 2]%nat (map (fun c => [c]) [1; -1]%Z) false));
      [|reflexivity].
    destruct (H2 eq_refl) as [_ Hf].
    inversion Hf as [|? ? _ Hf']. inversion Hf' as [|? ? Hc _]. lia.
Defined.

Lemma scatter_row_ones (s : scatter_src) (i j : nat) (idx row : list Z) :
  (forall d, (d < List.length idx)%nat -> src_at s i (j + d) = Ok 1%Z) ->
  scatter_row s i j idx row = scatter_row (SrcScalar 1) i j idx row.
Proof.
  revert j row. induction idx as [|c idx IH]; intros j row Hs; [reflexivity|].
  cbn [scatter_row].
  destruct ((0 <=? c) && (c <? Z.of_nat (List.length row)))%Z; [|reflexivity].
  pose proof (Hs 0%nat) as H0. rewrite Nat.add_0_r in H0.
  rewrite H0 by (simpl; lia). cbn [src_at bind].
  apply IH. intros d Hd. replace (S j + d)%nat with (j + S d)%nat by lia.
  apply Hs. simpl. lia.
Qed.

Lemma scatter_1_ones (s : scatter_src) (i : nat) (index mask : matrix) :
  (forall d idx e, nth_error index d = Some idx ->
     (e < List.length idx)%nat -> src_at s (i + d) e = Ok 1%Z) ->
  scatter_1 s i index mask = scatter_1 (SrcScalar 1) i index mask.
Proof.
  revert i mask. induction index as [|idx index IH]; intros i mask Hs;
    [reflexivity|].
  destruct mask as [|row mask]; [reflexivity|]. cbn [scatter_1].
  rewrite (@scatter_row_ones s i 0 idx row).
  - rewrite (IH (S i) mask); [reflexivity|].
    intros d idx' e Hd He. replace (S i + d)%nat with (i + S d)%nat by lia.
    apply (Hs (S d) idx' e); assumption.
  - intros d Hd. simpl.
    pose proof (Hs 0%nat idx d eq_refl Hd) as H0.
    rewrite Nat.add_0_r in H0. exact H0.
Qed.

(** X5.  An index wrapped in a [Variable] gives what the plain index gives, for
    every size and every index tensor: the tensor of ones that is scattered
    then has a 1 wherever the index has an entry. *)
Theorem one_hot_variable_index (size : list nat) (index : matrix) :
  one_hot size index true = one_hot size index false.
Proof.
  unfold one_hot. destruct size as [|n [|k [|k' size]]]; try reflexivity.
  apply scatter_1_ones. intros d idx e Hd He. simpl.
  rewrite nth_error_map, Hd. simpl. rewrite nth_error_map.
  destruct (nth_error idx e) eqn:E; [reflexivity|].
  apply nth_error_None in E. lia.
Qed.




Lemma np_column_mod (k : nat) (c : Z) :
  (- Z.of_nat k <= c < Z.of_nat k)%Z ->
  np_column k c = Ok (Z.to_nat (c mod Z.of_nat k)).
Proof.
  intros H. unfold np_column.
  replace ((- Z.of_nat k <=? c) && (c <? Z.of_nat k))%Z with true
    by (symmetry; apply andb_true_iff; split;
        [apply Z.leb_le | apply Z.ltb_lt]; lia).
  do 2 f_equal. destruct (c <? 0)%Z eqn:E.
  - apply Z.ltb_lt in E.
    rewrite <- (Z.mod_add c 1 (Z.of_nat k)) by lia.
    rewrite Z.mod_small by lia. lia.
  - apply Z.ltb_ge in E. rewrite Z.mod_small by lia. reflexivity.
Qed.

Lemma np_column_returns (k : nat) (c : Z) :
  returns (np_column k c) = true -> (- Z.of_nat k <= c < Z.of_nat k)%Z.
Proof.
  unfold np_column.
  destruct ((- Z.of_nat k <=? c) && (c <? Z.of_nat k))%Z eqn:E;
    [|discriminate].
  intros _. apply andb_true_iff in E. destruct E as [E1 E2].
  apply Z.leb_le in E1. apply Z.ltb_lt in E2. lia.
Qed.

Lemma np_columns_mod (k : nat) (indices : list Z) :
  Forall (fun c => - Z.of_nat k <= c < Z.of_nat k)%Z indices ->
  np_columns k indices
  = Ok (map (fun c => Z.to_nat (c mod Z.of_nat k)) indices).
Proof.
  induction 1 as [|c indices Hc _ IH]; [reflexivity|].
  cbn [np_columns map]. rewrite np_column_mod by exact Hc.
  cbn [bind]. rewrite IH. reflexivity.
Qed.

Lemma np_columns_returns (k : nat) (indices : list Z) :
  returns (np_columns k indices) = true ->
  Forall (fun c => - Z.of_nat k <= c < Z.of_nat k)%Z indices.
Proof.
  induction indices as [|c indices IH]; intros H; [constructor|].
  cbn [np_columns] in H.
  destruct (np_column k c) as [j|e] eqn:E; [|discriminate H].
  cbn [bind] in H.
  destruct (np_columns k indices) as [js|e]; [|discriminate H].
  constructor; [|apply IH; reflexivity].
  apply np_column_returns. rewrite E. reflexivity.
Qed.

Lemma map_combine_repeat (r : list Z) (js : list nat) :
  map (fun rc => set_at (fst rc) (snd rc) 1%Z)
    (combine (repeat r (List.length js)) js)
  = map (fun j => set_at r j 1%Z) js.
Proof. induction js as [|j js IH]; simpl; [reflexivity|]. rewrite IH. reflexivity. Qed.

Lemma one_hot_np_value (num_cols : nat) (indices : list Z) :
  Forall (fun c => - Z.of_nat num_cols <= c < Z.of_nat num_cols)%Z indices ->
  one_hot_np num_cols indices
  = Ok (map (fun c => set_at (repeat 0%Z num_cols)
                        (Z.to_nat (c mod Z.of_nat num_cols)) 1%Z) indices).
Proof.
  intros H. unfold one_hot_np. rewrite np_columns_mod by exact H.
  cbn [bind]. unfold fill.
  replace (List.length indices)
    with (List.length (map (fun c => Z.to_nat (c mod Z.of_nat num_cols))
                         indices)) by apply length_map.
  rewrite map_combine_repeat, map_map. reflexivity.
Qed.

(** X7.  [one_hot_np] returns exactly when every index lies in
    [[-num_cols, num_cols)].  Row [i] of the result then has a single 1, at
    column [indices[i]] counted from the end of the row when it is
    negative, that is at [indices[i] mod num_cols]; and zeros elsewhere. *)
Theorem one_hot_np_rows (num_cols : nat) (indices : list Z) :
  (Forall (fun c => - Z.of_nat num_cols <= c < Z.of_nat num_cols)%Z indices ->
   exists m,
     one_hot_np num_cols indices = Ok m /\
     List.length m = List.length indices /\
     forall i c, nth_error indices i = Some c ->
       exists row,
         nth_error m i = Some row /\
         List.length row = num_cols /\
         (forall j, (j < num_cols)%nat ->
            nth j row 0%Z
            = if Nat.eqb j (Z.to_nat (c mod Z.of_nat num_cols))
              then 1%Z else 0%Z) /\
         row_sum row = 1%Z) /\
  (returns (one_hot_np num_cols indices) = true ->
   Forall (fun c => - Z.of_nat num_cols <= c < Z.of_nat num_cols)%Z indices).
Proof.
  split.
  - intros H. eexists. split; [apply one_hot_np_value; exact H|].
    split; [apply length_map|].
    intros i c Hi. eexists.
    split; [rewrite nth_error_map, Hi; reflexivity|].
    assert (Hc : (- Z.of_nat num_cols <= c < Z.of_nat num_cols)%Z).
    { rewrite Forall_forall in H. apply H. eapply nth_error_In; eauto. }
    assert (Hm : (Z.to_nat (c mod Z.of_nat num_cols) < num_cols)%nat).
    { pose proof (Z.mod_pos_bound c (Z.of_nat num_cols)). lia. }
    split; [|split].
    + rewrite set_at_length. apply repeat_length.
    + intros j Hj. rewrite set_at_nth by (rewrite repeat_length; exact Hm).
      destruct (Nat.eqb j _); [reflexivity|]. apply nth_repeat.
    + apply row_sum_set_at_zeros. exact Hm.
  - intros H. apply np_columns_returns. unfold one_hot_np in H.
    destruct (np_columns num_cols indices); [reflexivity|discriminate H].
Qed.

Lemma one_hot_np_rows_witness :
  exists m,
    one_hot_np 3 [2; -1; 0]%Z = Ok m /\
    List.length m = 3%nat /\
    forall i c, nth_error [2; -1; 0]%Z i = Some c ->
      exists row,
        nth_error m i = Some row /\
        List.length row = 3%nat /\
        (forall j, (j < 3)%nat ->
           nth j row 0%Z
           = if Nat.eqb j (Z.to_nat (c mod Z.of_nat 3)) then 1%Z else 0%Z) /\
        row_sum row = 1%Z.
Proof.
  destruct (one_hot_np_rows 3 [2; -1; 0]%Z) as [H _].
  apply H. repeat constructor; lia.
Defined.

(** X8.  On indices in [[0, num_cols)], [one_hot_np] and [one_hot] agree:
    [one_hot_np(k, indices)] is [one_hot((len(indices), k), index)] for the
    index tensor of one column that holds [indices]. *)
Theorem one_hot_np_one_hot (num_cols : nat) (indices : list Z)
  (is_var : bool) :
  Forall (fun c => 0 <= c < Z.of_nat num_cols)%Z indices ->
  one_hot_np num_cols indices
  = one_hot [List.length indices; num_cols] (map (fun c => [c]) indices)
      is_var.
Proof.
  intros H. rewrite one_hot_np_value.
  - unfold one_hot.
    rewrite (@scatter_1_prefix _ num_cols indices 0 (List.length indices));
      [| lia | exact H | intros d Hd; apply src_at_ones_column; exact Hd].
    rewrite Nat.sub_diag. cbn [fill repeat]. rewrite app_nil_r.
    f_equal. apply map_ext_in. intros c Hc.
    rewrite Forall_forall in H. specialize (H c Hc).
    rewrite Z.mod_small by lia. reflexivity.
  - eapply Forall_impl; [|exact H]. intros c Hc. cbv beta in Hc. lia.
Qed.

Lemma one_hot_np_one_hot_witness :
  one_hot_np 3 [2; 0; 1]%Z
  = one_hot [List.length [2; 0; 1]%Z; 3%nat]
      (map (fun c => [c]) [2; 0; 1]%Z) false.
Proof.
  apply (@one_hot_np_one_hot 3 [2; 0; 1]%Z false).
  repeat constructor; lia.
Defined.

End OneHotMore.

(** ** [softmax_accuracy] *)

Section AccuracyFacts.

Import Utils.

Lemma skipn_cons_nth (l : list Q) (i : nat) (v : Q) (r : list Q) :
  skipn i l = v :: r -> nth i l 0%Q = v /\ skipn (S i) l = r.
Proof.
  revert i. induction l as [|x l IH]; intros [|i] H; simpl in H;
    try discriminate.
  - injection H as -> ->. split; reflexivity.
  - destruct (IH i H) as [H1 H2]. split; assumption.
Qed.

(** [argmax_from] ends on an index of the row whose entry is at least
    every entry of the row. *)
Lemma argmax_from_max (full rest : list Q) (best : Q) (besti i : nat) :
  (besti < i)%nat -> (i + List.length rest = List.length full)%nat ->
  skipn i full = rest -> nth besti full 0%Q = best ->
  (forall j, (j < i)%nat -> (nth j full 0 <= best)%Q) ->
  (argmax_from best besti i rest < List.length full)%nat /\
  forall j, (j < List.length full)%nat ->
    (nth j full 0 <= nth (argmax_from best besti i rest) full 0)%Q.
Proof.
  revert best besti i.
  induction rest as [|v rest IH]; intros best besti i Hb Hl Hs Hn Hle.
  - cbn [argmax_from]. simpl in Hl. split; [lia|].
    intros j Hj. rewrite Hn. apply Hle. lia.
  - cbn [argmax_from]. destruct (skipn_cons_nth _ _ Hs) as [Hv Hs'].
    simpl in Hl.
    destruct (Qlt_le_dec best v) as [Hlt|Hge].
    + apply IH; [lia | lia | exact Hs' | exact Hv |].
      intros j Hj. destruct (Nat.eq_dec j i) as [->|Hne].
      * rewrite Hv. apply Qle_refl.
      * apply Qle_trans with best; [apply Hle; lia|].
        apply Qlt_le_weak. exact Hlt.
    + apply IH; [lia | lia | exact Hs' | exact Hn |].
      intros j Hj. destruct (Nat.eq_dec j i) as [->|Hne].
      * rewrite Hv. exact Hge.
      * apply Hle. lia.
Qed.

Lemma argmax_max (row : list Q) (a : nat) :
  argmax row = Ok a ->
  (a < List.length row)%nat /\
  forall j, (j < List.length row)%nat -> (nth j row 0 <= nth a row 0)%Q.
Proof.
  destruct row as [|v row]; [discriminate|].
  cbn [argmax]. intros H. injection H as <-.
  apply argmax_from_max.
  - lia.
  - reflexivity.
  - reflexivity.
  - reflexivity.
  - intros j Hj. replace j with 0%nat by lia. apply Qle_refl.
Qed.

Lemma max_1_indices_rows (preds : list (list Q)) :
  Forall (fun row => row <> []) preds ->
  exists pred,
    max_1_indices preds = Ok pred /\
    List.length pred = List.length preds /\
    forall i row, nth_error preds i = Some row ->
      exists a, nth_error pred i = Some a /\ argmax row = Ok a.
Proof.
  induction 1 as [|row preds Hrow _ (pred & Hp & Hl & Hn)].
  - exists []. repeat split. intros [|i] row H; discriminate H.
  - destruct row as [|v row]; [contradiction|].
    exists (argmax_from v 0 1 row :: pred).
    cbn [max_1_indices argmax bind]. rewrite Hp. cbn [bind].
    split; [reflexivity|]. split; [simpl; lia|].
    intros [|i] row' H; cbn [nth_error] in *.
    + injection H as <-. eexists. split; reflexivity.
    + apply Hn. exact H.
Qed.

Lemma inject_succ (n : nat) :
  (inject_Z (Z.of_nat (S n)) == inject_Z (Z.of_nat n) + 1)%Q.
Proof.
  rewrite Nat2Z.inj_succ, <- Z.add_1_r, inject_Z_plus. reflexivity.
Qed.

Lemma qsum_bounds (hits : list Q) :
  Forall (fun h => h = 0%Q \/ h = 1%Q) hits ->
  (0 <= qsum hits)%Q /\
  (qsum hits <= inject_Z (Z.of_nat (List.length hits)))%Q.
Proof.
  induction 1 as [|h hits Hh _ [IH1 IH2]]; [split; apply Qle_refl|].
  cbn [qsum fold_right List.length]. fold (qsum hits). rewrite inject_succ.
  destruct Hh as [-> | ->]; split.
  - rewrite Qplus_0_l. exact IH1.
  - rewrite Qplus_0_l. apply Qle_trans with (1 := IH2).
    rewrite <- (Qplus_0_r (inject_Z (Z.of_nat (List.length hits)))) at 1.
    apply Qplus_le_r. discriminate.
  - apply Qle_trans with (0 + 0)%Q; [apply Qle_refl|].
    apply Qplus_le_compat; [discriminate | exact IH1].
  - rewrite Qplus_comm. apply Qplus_le_l. exact IH2.
Qed.

Lemma qsum_all (hits : list Q) (v : Q) :
  Forall (fun h => h = v) hits ->
  (qsum hits == v * inject_Z (Z.of_nat (List.length hits)))%Q.
Proof.
  induction 1 as [|h hits -> _ IH]; [cbn; ring|].
  cbn [qsum fold_right List.length]. fold (qsum hits).
  rewrite inject_succ, IH. ring.
Qed.

Lemma hits_entries (pred : list nat) (targets : list Z) :
  Forall (fun h => h = 0%Q \/ h = 1%Q)
    (map (fun pt => if Z.eqb (Z.of_nat (fst pt)) (snd pt) then 1%Q else 0%Q)
       (combine pred targets)).
Proof.
  apply Forall_forall. intros h Hh. apply in_map_iff in Hh.
  destruct Hh as [[a t] [<- _]]. cbn [fst snd].
  destruct (Z.of_nat a =? t)%Z; auto.
Qed.

Lemma hits_all (pred : list nat) (targets : list Z) (b : bool) :
  (forall i a t, nth_error pred i = Some a -> nth_error targets i = Some t ->
     (Z.of_nat a =? t)%Z = b) ->
  Forall (fun h => h = (if b then 1%Q else 0%Q))
    (map (fun pt => if Z.eqb (Z.of_nat (fst pt)) (snd pt) then 1%Q else 0%Q)
       (combine pred targets)).
Proof.
  revert targets. induction pred as [|a pred IH]; intros [|t targets] H;
    cbn [combine map]; try constructor.
  - cbn [fst snd]. rewrite (H 0%nat a t eq_refl eq_refl). reflexivity.
  - apply IH. intros i a' t' Ha Ht. apply (H (S i) a' t'); assumption.
Qed.

(** X9.  [softmax_accuracy] with [size_average=True], on [n > 0] rows of
    predictions, none of them empty, and [n] targets: it returns a number
    between 0 and 1; it returns 1 when in every row the entry at the target
    is strictly larger than every other entry, and 0 when in every row some
    entry is strictly larger than the one at the target. *)
Theorem softmax_accuracy_bounds (preds : list (list Q)) (targets : list Z) :
  List.length preds = List.length targets ->
  (0 < List.length preds)%nat ->
  Forall (fun row => row <> []) preds ->
  exists acc,
    softmax_accuracy preds targets true = Ok acc /\
    (0 <= acc)%Q /\ (acc <= 1)%Q /\
    ((forall i row t,
        nth_error preds i = Some row -> nth_error targets i = Some t ->
        (0 <= t < Z.of_nat (List.length row))%Z /\
        forall j, (j < List.length row)%nat -> j <> Z.to_nat t ->
          (nth j row 0 < nth (Z.to_nat t) row 0)%Q) ->
     (acc == 1)%Q) /\
    ((forall i row t,
        nth_error preds i = Some row -> nth_error targets i = Some t ->
        exists j, (j < List.length row)%nat /\
                  (nth (Z.to_nat t) row 0 < nth j row 0)%Q) ->
     (acc == 0)%Q).
Proof.
  intros Hlen Hn Hrows.
  destruct (max_1_indices_rows Hrows) as (pred & Hp & Hl & Hrow).
  unfold softmax_accuracy. rewrite Hp. cbn [bind].
  replace (Nat.eqb (List.length pred) (List.length targets)) with true
    by (symmetry; apply Nat.eqb_eq; congruence).
  set (hits := map (fun pt => if Z.eqb (Z.of_nat (fst pt)) (snd pt)
                              then 1%Q else 0%Q) (combine pred targets)).
  assert (Hh : List.length hits = List.length preds).
  { unfold hits. rewrite length_map, length_combine. lia. }
  assert (Hpos : (0 < inject_Z (Z.of_nat (List.length hits)))%Q).
  { rewrite Hh. change 0%Q with (inject_Z 0). rewrite <- Zlt_Qlt. lia. }
  assert (Hne : ~ (inject_Z (Z.of_nat (List.length hits)) == 0)%Q).
  { intros E. rewrite E in Hpos. exact (Qlt_irrefl _ Hpos). }
  destruct (qsum_bounds (hits_entries pred targets)) as [H0 H1].
  fold hits in H0, H1.
  eexists. split; [reflexivity|]. split; [|split; [|split]].
  - apply Qle_shift_div_l; [exact Hpos|]. rewrite Qmult_0_l. exact H0.
  - apply Qle_shift_div_r; [exact Hpos|]. rewrite Qmult_1_l. exact H1.
  - intros Hstrict.
    assert (Hall : Forall (fun h => h = 1%Q) hits).
    { apply (@hits_all pred targets true). intros i a t Ha Ht.
      destruct (nth_error preds i) as [row|] eqn:Er.
      2: { apply nth_error_None in Er.
           assert (i < List.length pred)%nat
             by (apply nth_error_Some; congruence).
           lia. }
      destruct (Hrow i row Er) as (a' & Ha' & Hmax).
      assert (a' = a) by congruence. subst a'.
      destruct (Hstrict i row t Er Ht) as [Ht' Hlt].
      destruct (argmax_max _ Hmax) as [Hal Hle].
      apply Z.eqb_eq.
      destruct (Nat.eq_dec a (Z.to_nat t)) as [->|Hd]; [lia|].
      exfalso. specialize (Hlt a Hal Hd).
      assert (Htl : (Z.to_nat t < List.length row)%nat) by lia.
      specialize (Hle (Z.to_nat t) Htl).
      exact (Qlt_irrefl _ (Qlt_le_trans _ _ _ Hlt Hle)). }
    rewrite (qsum_all Hall). field. exact Hne.
  - intros Hbelow.
    assert (Hall : Forall (fun h => h = 0%Q) hits).
    { apply (@hits_all pred targets false). intros i a t Ha Ht.
      destruct (nth_error preds i) as [row|] eqn:Er.
      2: { apply nth_error_None in Er.
           assert (i < List.length pred)%nat
             by (apply nth_error_Some; congruence).
           lia. }
      destruct (Hrow i row Er) as (a' & Ha' & Hmax).
      assert (a' = a) by congruence. subst a'.
      destruct (Hbelow i row t Er Ht) as (j & Hj & Hlt).
      destruct (argmax_max _ Hmax) as [Hal Hle].
      apply Z.eqb_neq. intros E.
      assert (Ea : a = Z.to_nat t) by lia. subst a.
      specialize (Hle j Hj).
      exact (Qlt_irrefl _ (Qlt_le_trans _ _ _ Hlt Hle)). }
    rewrite (qsum_all Hall). field. exact Hne.
Qed.

Lemma softmax_accuracy_bounds_witness :
  exists acc,
    softmax_accuracy [[1; 3; 2]; [5; 0; 1]]%Q [1; 0]%Z true = Ok acc /\
    (0 <= acc)%Q /\ (acc <= 1)%Q.
Proof.
  destruct (@softmax_accuracy_bounds [[1; 3; 2]; [5; 0; 1]]%Q [1; 0]%Z)
    as (acc & H & H0 & H1 & _).
  - reflexivity.
  - simpl. lia.
  - repeat constructor; discriminate.
  - exists acc. auto.
Defined.

End AccuracyFacts.

(** ** [expand_dims] and [squeeze_expand_dim] *)

Section ExpandFacts.

Import Torch Helpers.

Lemma numel_app (a b : list nat) : numel (a ++ b) = (numel a * numel b)%nat.
Proof.
  induction a as [|x a IH]; simpl; [lia|].
  fold (numel (a ++ b)). fold (numel a). rewrite IH. lia.
Qed.

Lemma numel_insert_one (p : nat) (l : list nat) :
  numel (firstn p l ++ 1%nat :: skipn p l) = numel l.
Proof.
  rewrite numel_app.
  change (numel (1%nat :: skipn p l)) with (1 * numel (skipn p l))%nat.
  rewrite Nat.mul_1_l, <- numel_app, firstn_skipn. reflexivity.
Qed.

Lemma length_insert_one (p : nat) (l : list nat) :
  List.length (firstn p l ++ 1%nat :: skipn p l) = S (List.length l).
Proof.
  rewrite length_app. cbn [List.length].
  rewrite Nat.add_succ_r, <- length_app, firstn_skipn. reflexivity.
Qed.

Lemma prodZ_of_nat (s : list nat) :
  prodZ (map Z.of_nat s) = Z.of_nat (numel s).
Proof.
  induction s as [|x s IH]; [reflexivity|].
  cbn [map prodZ numel fold_right]. fold (prodZ (map Z.of_nat s)).
  fold (numel s). rewrite IH. lia.
Qed.

Lemma filter_sizes_keep (s : list nat) :
  filter (fun d => negb (Z.eqb d (-1))) (map Z.of_nat s) = map Z.of_nat s.
Proof.
  induction s as [|x s IH]; [reflexivity|]. cbn [map filter].
  replace (Z.of_nat x =? -1)%Z with false by (symmetry; apply Z.eqb_neq; lia).
  cbn [negb]. rewrite IH. reflexivity.
Qed.

Lemma filter_sizes_holes (s : list nat) :
  filter (fun d => Z.eqb d (-1)) (map Z.of_nat s) = [].
Proof.
  induction s as [|x s IH]; [reflexivity|]. cbn [map filter].
  replace (Z.of_nat x =? -1)%Z with false by (symmetry; apply Z.eqb_neq; lia).
  exact IH.
Qed.

Lemma existsb_sizes (s : list nat) :
  existsb (fun d => Z.ltb d (-1)) (map Z.of_nat s) = false.
Proof.
  induction s as [|x s IH]; [reflexivity|]. cbn [map existsb].
  replace (Z.of_nat x <? -1)%Z with false by (symmetry; apply Z.ltb_ge; lia).
  exact IH.
Qed.

Lemma map_to_nat_of_nat (s : list nat) : map Z.to_nat (map Z.of_nat s) = s.
Proof.
  rewrite map_map. rewrite <- (map_id s) at 2. apply map_ext.
  intros x. apply Nat2Z.id.
Qed.

(** A view with explicit sizes succeeds when the number of entries is kept. *)
Lemma view_shape_sizes (s x : list nat) :
  numel s = numel x -> view_shape (map Z.of_nat s) x = Ok s.
Proof.
  intros H. unfold view_shape.
  rewrite existsb_sizes, filter_sizes_keep, filter_sizes_holes, prodZ_of_nat.
  cbn [List.length]. rewrite H, Z.eqb_refl, map_to_nat_of_nat. reflexivity.
Qed.

Lemma in_word (i : Z) :
  (- maxsize - 1 <= i <= maxsize)%Z ->
  ((- maxsize - 1 <=? i) && (i <=? maxsize))%Z = true.
Proof. intros H. apply andb_true_iff. split; apply Z.leb_le; lia. Qed.

Lemma expand_dims_value (t : tensor) (dim : Z) :
  (- maxsize - 1 <= dim <= maxsize)%Z ->
  let n := Z.of_nat (List.length (size t)) in
  let p := Z.to_nat (if dim <? 0 then Z.max 0 (dim + n) else Z.min dim n)%Z in
  expand_dims t dim
  = Ok (mk_tensor (firstn p (size t) ++ 1%nat :: skipn p (size t)) (data t)).
Proof.
  intros H n p. unfold expand_dims, list_insert. rewrite (in_word H).
  fold n. fold p. cbn [bind]. unfold view.
  rewrite view_shape_sizes; [reflexivity|]. apply numel_insert_one.
Qed.

(** X10.  [expand_dims] for a [dim] that fits a machine integer (from
    [-maxsize - 1] to [maxsize], with [maxsize = 2^63 - 1]) raises on no
    tensor: it returns a tensor with the same entries in the same order,
    one dimension more, and as many elements as before; a tensor whose
    entries match its size stays so.  For a [dim] outside the machine
    integers [list.insert] raises [OverflowError]. *)
Theorem expand_dims_keeps_entries (t : tensor) (dim : Z) :
  ((- maxsize - 1 <= dim <= maxsize)%Z ->
   exists t',
     expand_dims t dim = Ok t' /\
     data t' = data t /\
     List.length (size t') = S (List.length (size t)) /\
     numel (size t') = numel (size t) /\
     (well_formed t -> well_formed t')) /\
  ((dim < - maxsize - 1 \/ maxsize < dim)%Z ->
   expand_dims t dim = Raise OverflowError).
Proof.
  split.
  - intros H. eexists. split; [apply (expand_dims_value t H)|].
    cbn [data size].
    split; [reflexivity|]. split; [apply length_insert_one|].
    split; [apply numel_insert_one|].
    unfold well_formed. cbn [data size]. rewrite numel_insert_one. auto.
  - intros H. unfold expand_dims, list_insert.
    replace ((- maxsize - 1 <=? dim) && (dim <=? maxsize))%Z with false;
      [reflexivity|].
    symmetry. apply andb_false_iff.
    destruct H as [H|H]; [left|right]; apply Z.leb_gt; lia.
Qed.

Lemma expand_dims_keeps_entries_witness :
  (exists t',
     expand_dims (mk_tensor [2; 3]%nat [1; 2; 3; 4; 5; 6]%R) 1 = Ok t' /\
     data t' = [1; 2; 3; 4; 5; 6]%R /\
     List.length (size t') = 3%nat /\
     numel (size t') = 6%nat) /\
  expand_dims (mk_tensor [2; 3]%nat [1; 2; 3; 4; 5; 6]%R) (2 ^ 63)
  = Raise OverflowError.
Proof.
  destruct (expand_dims_keeps_entries
              (mk_tensor [2; 3]%nat [1; 2; 3; 4; 5; 6]%R) 1) as [H _].
  destruct (expand_dims_keeps_entries
              (mk_tensor [2; 3]%nat [1; 2; 3; 4; 5; 6]%R) (2 ^ 63))
    as [_ H'].
  split.
  - destruct H as (t' & E & Hd & Hl & Hn & _); [unfold maxsize; lia|].
    exists t'. auto.
  - apply H'. right. unfold maxsize. lia.
Defined.

(** X11.  Where [expand_dims] puts the new dimension, against [unsqueeze] of
    torch, for a tensor of [d] dimensions and a [dim] that fits a machine
    integer.  For [0 <= dim <= d] the two agree.  For a negative [dim] down
    to [-d], [expand_dims] gives what [unsqueeze] gives for [dim - 1]: the
    new dimension comes before the one that [dim] names, so [dim = -1] does
    not add a last dimension.  Past the two ends [expand_dims] clips, where
    [unsqueeze] raises. *)
Theorem expand_dims_position (t : tensor) (dim : Z) :
  let d := Z.of_nat (List.length (size t)) in
  (- maxsize - 1 <= dim <= maxsize)%Z ->
  ((0 <= dim <= d)%Z -> expand_dims t dim = unsqueeze t dim) /\
  ((- d <= dim < 0)%Z -> expand_dims t dim = unsqueeze t (dim - 1)) /\
  ((d < dim)%Z ->
   expand_dims t dim = unsqueeze t d /\ returns (unsqueeze t dim) = false) /\
  ((dim < - d)%Z ->
   expand_dims t dim = unsqueeze t 0 /\
   (dim < - d - 1 -> returns (unsqueeze t dim) = false)%Z).
Proof.
  intros d Hw. rewrite (expand_dims_value t Hw). cbv zeta. unfold unsqueeze.
  fold d.
  assert (Hd : (0 <= d)%Z) by (unfold d; lia).
  assert (Hin : forall a, (- (d + 1) <= a <= d)%Z ->
                  ((- (d + 1) <=? a) && (a <=? d))%Z = true).
  { intros a Ha. apply andb_true_iff.
    split; apply Z.leb_le; lia. }
  assert (Hout : forall a, (a < - (d + 1) \/ d < a)%Z ->
                  ((- (d + 1) <=? a) && (a <=? d))%Z = false).
  { intros a Ha. apply andb_false_iff.
    destruct Ha; [left|right]; apply Z.leb_gt; lia. }
  repeat split.
  - intros H. rewrite Hin by lia.
    replace (dim <? 0)%Z with false by (symmetry; apply Z.ltb_ge; lia).
    rewrite Z.min_l by lia. reflexivity.
  - intros H. rewrite Hin by lia.
    replace (dim <? 0)%Z with true by (symmetry; apply Z.ltb_lt; lia).
    replace (dim - 1 <? 0)%Z with true by (symmetry; apply Z.ltb_lt; lia).
    rewrite Z.max_r by lia.
    replace (dim - 1 + d + 1)%Z with (dim + d)%Z by lia. reflexivity.
  - rewrite Hin by lia.
    replace (dim <? 0)%Z with false by (symmetry; apply Z.ltb_ge; lia).
    replace (d <? 0)%Z with false by (symmetry; apply Z.ltb_ge; lia).
    rewrite Z.min_r by lia. reflexivity.
  - rewrite Hout by lia. reflexivity.
  - rewrite Hin by lia.
    replace (dim <? 0)%Z with true by (symmetry; apply Z.ltb_lt; lia).
    rewrite Z.max_l by lia. reflexivity.
  - intros H'. rewrite Hout by lia. reflexivity.
Qed.

Lemma expand_dims_position_witness :
  expand_dims (mk_tensor [2; 3]%nat [1; 2; 3; 4; 5; 6]%R) (-1)
  = unsqueeze (mk_tensor [2; 3]%nat [1; 2; 3; 4; 5; 6]%R) (-1 - 1) /\
  size (mk_tensor [2; 1; 3]%nat [1; 2; 3; 4; 5; 6]%R) = [2; 1; 3]%nat.
Proof.
  split; [|reflexivity].
  destruct (@expand_dims_position
              (mk_tensor [2; 3]%nat [1; 2; 3; 4; 5; 6]%R) (-1))
    as [_ [H _]].
  - unfold maxsize. lia.
  - apply H. simpl. lia.
Defined.

Lemma numel_squeeze (s : list nat) :
  numel (filter (fun d => negb (Nat.eqb d 1)) s) = numel s.
Proof.
  induction s as [|x s IH]; [reflexivity|]. cbn [filter].
  destruct (Nat.eqb x 1) eqn:E; cbn [negb numel fold_right];
    fold (numel s); fold (numel (filter (fun d => negb (Nat.eqb d 1)) s)).
  - apply Nat.eqb_eq in E. subst x. rewrite IH. lia.
  - rewrite IH. reflexivity.
Qed.

(** X12.  [squeeze_expand_dim], for a tensor with [m] dimensions of a size other
    than 1, [m > 0] (what [squeeze] makes of a tensor all of whose
    dimensions are 1 depends on the version of torch).  With [m >= 4] the
    squeezed tensor is returned and [axis] is not looked at.  With [m < 4] and [axis] in [[-(m+1), m]] the
    result has [m + 1] dimensions, of which one has size 1, and the entries
    of the input; so the result has four dimensions only for [m = 3].  With
    [m < 4] and [axis] outside that interval the call raises. *)
Theorem squeeze_expand_dim_rank (t : tensor) (axis : Z) :
  let m := List.length (size (squeeze t)) in
  (0 < m)%nat ->
  ((4 <= m)%nat -> squeeze_expand_dim t axis = Ok (squeeze t)) /\
  ((m < 4)%nat -> (- (Z.of_nat m + 1) <= axis <= Z.of_nat m)%Z ->
   exists t',
     squeeze_expand_dim t axis = Ok t' /\
     List.length (size t') = S m /\
     numel (size t') = numel (size t) /\
     data t' = data t) /\
  ((m < 4)%nat -> ~ (- (Z.of_nat m + 1) <= axis <= Z.of_nat m)%Z ->
   returns (squeeze_expand_dim t axis) = false).
Proof.
  intros m _. unfold squeeze_expand_dim. fold m.
  split; [|split].
  - intros H. replace (Nat.ltb m 4) with false
      by (symmetry; apply Nat.ltb_ge; exact H).
    reflexivity.
  - intros H Ha.
    replace (Nat.ltb m 4) with true by (symmetry; apply Nat.ltb_lt; exact H).
    unfold unsqueeze. fold m.
    replace ((- (Z.of_nat m + 1) <=? axis) && (axis <=? Z.of_nat m))%Z
      with true
      by (symmetry; apply andb_true_iff; split; apply Z.leb_le; lia).
    eexists. split; [reflexivity|]. cbn [size data].
    split; [apply length_insert_one|].
    split; [|reflexivity].
    rewrite numel_insert_one. unfold squeeze. cbn [size].
    apply numel_squeeze.
  - intros H Ha.
    replace (Nat.ltb m 4) with true by (symmetry; apply Nat.ltb_lt; exact H).
    unfold unsqueeze. fold m.
    replace ((- (Z.of_nat m + 1) <=? axis) && (axis <=? Z.of_nat m))%Z
      with false; [reflexivity|].
    symmetry. apply andb_false_iff.
    destruct (Z_le_gt_dec (- (Z.of_nat m + 1)) axis) as [H1|H1].
    + right. apply Z.leb_gt. lia.
    + left. apply Z.leb_gt. lia.
Qed.

Lemma squeeze_expand_dim_rank_witness :
  exists t',
    squeeze_expand_dim (mk_tensor [1; 1; 2; 2]%nat [1; 2; 3; 4]%R) 0 = Ok t' /\
    List.length (size t') = 3%nat /\
    numel (size t') = 4%nat /\
    data t' = [1; 2; 3; 4]%R.
Proof.
  destruct (@squeeze_expand_dim_rank
              (mk_tensor [1; 1; 2; 2]%nat [1; 2; 3; 4]%R) 0)
    as [_ [H _]].
  - simpl. lia.
  - apply H; simpl; lia.
Defined.

End ExpandFacts.

(** ** [str_to_activ] *)

Section ActivFacts.

Import PyStr Helpers Spec.

Open Scope string_scope.

Lemma is_space_lower (c : ascii) : is_space (lower_char c) = is_space c.
Proof. destruct c as [[] [] [] [] [] [] [] []]; reflexivity. Qed.

Lemma lstrip_lower (s : string) : lstrip (lower s) = lower (lstrip s).
Proof.
  induction s as [|c s IH]; [reflexivity|]. cbn [lower lstrip].
  rewrite is_space_lower. destruct (is_space c); [exact IH | reflexivity].
Qed.

Lemma rstrip_lower (s : string) : rstrip (lower s) = lower (rstrip s).
Proof.
  induction s as [|c s IH]; [reflexivity|]. cbn [lower rstrip].
  rewrite IH, is_space_lower.
  destruct (rstrip s); cbn [lower]; [destruct (is_space c)|]; reflexivity.
Qed.

Lemma strip_lower (s : string) : strip (lower s) = lower (strip s).
Proof. unfold strip. rewrite lstrip_lower, rstrip_lower. reflexivity. Qed.

Lemma lstrip_spaces (l s : string) :
  all_chars is_space l = true -> lstrip (l ++ s) = lstrip s.
Proof.
  induction l as [|c l IH]; [reflexivity|]. cbn [all_chars append lstrip].
  intros H. apply andb_true_iff in H. destruct H as [Hc Hl].
  rewrite Hc. apply IH. exact Hl.
Qed.

Lemma rstrip_spaces (r : string) :
  all_chars is_space r = true -> rstrip r = EmptyString.
Proof.
  induction r as [|c r IH]; [reflexivity|]. cbn [all_chars rstrip].
  intros H. apply andb_true_iff in H. destruct H as [Hc Hr].
  rewrite (IH Hr), Hc. reflexivity.
Qed.

Lemma rstrip_app_spaces (s r : string) :
  all_chars is_space r = true -> rstrip (s ++ r) = rstrip s.
Proof.
  intros Hr. induction s as [|c s IH].
  - cbn [append]. apply rstrip_spaces. exact Hr.
  - cbn [append rstrip]. rewrite IH. reflexivity.
Qed.

Lemma strip_app_spaces (s r : string) :
  all_chars is_space r = true -> strip (s ++ r) = strip s.
Proof.
  intros Hr. unfold strip. induction s as [|c s IH].
  - cbn [append]. rewrite <- (lstrip_spaces r EmptyString Hr).
    replace (r ++ EmptyString) with r
      by (clear; induction r; simpl; congruence).
    rewrite rstrip_spaces; [reflexivity|].
    clear - Hr. induction r as [|c r IH]; [reflexivity|].
    cbn [all_chars] in Hr. apply andb_true_iff in Hr. destruct Hr as [Hc Hr].
    cbn [lstrip]. rewrite Hc. apply IH. exact Hr.
  - cbn [append lstrip]. destruct (is_space c); [exact IH|].
    apply (rstrip_app_spaces (String c s) r Hr).
Qed.

Lemma printable_no_space (c : ascii) :
  printable c = true -> negb (is_space c) = true.
Proof.
  destruct c as [[] [] [] [] [] [] [] []]; intros H;
    try reflexivity; discriminate H.
Qed.

Lemma strip_padding (l s r : string) :
  all_chars is_space l = true -> all_chars is_space r = true ->
  strip (l ++ s ++ r) = strip s.
Proof.
  intros Hl Hr. unfold strip. rewrite lstrip_spaces by exact Hl.
  apply (strip_app_spaces s r Hr).
Qed.

(** X14.  [str_to_activ] does not see the case of the letters of the name nor
    white space around it: two names that are equal up to case and up to
    white space before and after get the same answer.  A name of
    printable characters is accepted exactly when, lowered, it reads 'elu',
    'sigmoid', 'tanh' or 'oneplus'; every other one raises, 'relu' and
    'selu' among them. *)
Theorem str_to_activ_normalises (s : string) :
  (forall s' l r,
     all_chars is_space l = true -> all_chars is_space r = true ->
     lower s' = lower s ->
     str_to_activ (l ++ s' ++ r) = str_to_activ s) /\
  (all_chars printable s = true ->
   (returns (str_to_activ s) = true <->
    In (lower s) ["elu"; "sigmoid"; "tanh"; "oneplus"])).
Proof.
  split.
  - intros s' l r Hl Hr Hs. unfold str_to_activ. cbv zeta.
    rewrite strip_padding by assumption.
    rewrite <- !strip_lower, Hs. reflexivity.
  - intros Hp. unfold str_to_activ. cbv zeta.
    assert (Hs : strip s = s).
    { unfold strip.
      assert (Hn : all_chars (fun c => negb (is_space c)) s = true)
        by exact (all_chars_impl printable _ s printable_no_space Hp).
      replace (lstrip s) with s
        by (destruct s as [|c s']; [reflexivity|];
            cbn [all_chars] in Hn; apply andb_true_iff in Hn;
            destruct Hn as [Hc _]; apply negb_true_iff in Hc;
            cbn [lstrip]; rewrite Hc; reflexivity).
      apply rstrip_no_space. exact Hn. }
    rewrite Hs. set (n := lower s).
    destruct (n =? "elu") eqn:E1.
    { apply String.eqb_eq in E1. rewrite E1. simpl. tauto. }
    destruct (n =? "sigmoid") eqn:E2.
    { apply String.eqb_eq in E2. rewrite E2. simpl. tauto. }
    destruct (n =? "tanh") eqn:E3.
    { apply String.eqb_eq in E3. rewrite E3. simpl. tauto. }
    destruct (n =? "oneplus") eqn:E4.
    { apply String.eqb_eq in E4. rewrite E4. simpl. tauto. }
    apply String.eqb_neq in E1, E2, E3, E4. simpl.
    split; [discriminate|]. intros [H|[H|[H|[H|[]]]]]; congruence.
Qed.

Lemma str_to_activ_normalises_witness :
  str_to_activ ("  " ++ "TanH" ++ " ") = str_to_activ "tanh" /\
  returns (str_to_activ "relu") = false.
Proof.
  destruct (str_to_activ_normalises "tanh") as [H _].
  destruct (str_to_activ_normalises "relu") as [_ H'].
  split.
  - apply H; reflexivity.
  - destruct (returns (str_to_activ "relu")) eqn:E; [|reflexivity].
    exfalso. destruct (H' eq_refl) as [H'' _]. clear H'.
    pose proof (H'' eq_refl) as H'.
    simpl in H'. destruct H' as [H'|[H'|[H'|[H'|[]]]]]; discriminate H'.
Defined.

End ActivFacts.

(** ** [nll_activation] and the Bernoulli likelihood *)

Section ActivationFacts.

Import Torch Vae Spec.

Open Scope R_scope.

Lemma nll_activation_bernoulli (self : VAE) (logits : tensor) :
  nll_type (config self) = "bernoulli"%string ->
  nll_activation self logits
  = Ok (mk_tensor (size logits) (map F_sigmoid (data logits))).
Proof. intros H. unfold nll_activation. rewrite H. reflexivity. Qed.

Lemma example_map (f : R -> R) (t : tensor) (i : nat) :
  example (mk_tensor (size t) (map f (data t))) i = map f (example t i).
Proof.
  unfold example. cbn [size data]. rewrite skipn_map, firstn_map.
  reflexivity.
Qed.

Lemma zip_with_map_l (f : R -> R -> R) (g : R -> R) (a b : vec) :
  zip_with f (map g a) b = zip_with (fun u v => f (g u) v) a b.
Proof.
  revert b. induction a as [|x a IH]; intros [|y b]; simpl; auto.
  rewrite IH. reflexivity.
Qed.

Lemma vsum_opp (f : R -> R -> R) (a b : vec) :
  vsum (zip_with (fun u v => - f u v) a b) = - vsum (zip_with f a b).
Proof.
  revert b. induction a as [|x a IH]; intros [|y b]; simpl;
    try (unfold vsum; simpl; ring).
  fold (vsum (zip_with (fun u v => - f u v) a b)).
  fold (vsum (zip_with f a b)). rewrite IH. ring.
Qed.

(** Entry [i] of what [nll_bernoulli] returns: the sum over example [i]. *)
Lemma nll_bernoulli_entry (recon x : tensor) (b : nat) (rest : list nat)
  (i : nat) :
  size recon = b :: rest -> size x = size recon -> (i < b)%nat ->
  nth i (map vsum (zip_rows bernoulli_entry
                     (chunks (numel rest) b (data recon))
                     (chunks (numel rest) b (data x)))) 0
  = vsum (zip_with bernoulli_entry (example recon i) (example x i)).
Proof.
  intros Hr Hx Hi.
  replace 0 with (vsum []) at 1 by reflexivity. rewrite map_nth.
  rewrite zip_rows_nth by (rewrite ?chunks_length; auto).
  rewrite !chunks_nth by exact Hi.
  unfold example. rewrite Hx, Hr. reflexivity.
Qed.

(** X19.  [nll] and [nll_activation] fit together, over the reals.  With
    [nll_type = 'bernoulli'], on tensors of one size with a non-empty batch,
    entry [i] of [nll(recon, x)] is, as a real number, the cross-entropy
    between the target and the activated reconstruction
    [p = nll_activation(recon)]:
    [- sum (x * log p + (1 - x) * log (1 - p))] over example [i].  This is
    an identity of real numbers and not one of floating point numbers:
    there the sigmoid of a logit of large magnitude rounds to 0 or 1 and
    the right side is infinite, which is what the stable form of
    [nll_bernoulli] avoids. *)
Theorem nll_of_activation (self : VAE) (recon x : tensor) (b : nat)
  (rest : list nat) :
  nll_type (config self) = "bernoulli"%string ->
  size recon = b :: rest -> size x = size recon -> (0 < b)%nat ->
  exists p out,
    nll_activation self recon = Ok p /\
    nll self recon x = Ok out /\
    List.length out = b /\
    forall i, (i < b)%nat ->
      nth i out 0
      = - vsum (zip_with (fun q v => v * ln q + (1 - v) * ln (1 - q))
                  (example p i) (example x i)).
Proof.
  intros Ht Hr Hx Hb. eexists. eexists.
  split; [apply nll_activation_bernoulli; exact Ht|].
  split.
  { rewrite nll_dispatch, Ht. cbn [String.eqb Ascii.eqb Bool.eqb].
    apply (nll_bernoulli_value _ _ Hr Hx Hb). }
  split.
  { rewrite length_map, zip_rows_length, chunks_length;
      rewrite ?chunks_length; reflexivity. }
  intros i Hi.
  rewrite (nll_bernoulli_entry _ _ Hr Hx Hi).
  rewrite example_map, zip_with_map_l, <- vsum_opp. f_equal.
  apply zip_with_ext. intros u v.
  rewrite bernoulli_entry_stable, stable_is_cross_entropy. reflexivity.
Qed.

Lemma nll_of_activation_witness :
  exists p out,
    nll_activation Examples.scenario_vae Examples.logits_2x2 = Ok p /\
    nll Examples.scenario_vae Examples.logits_2x2 Examples.target_2x2
    = Ok out /\
    List.length out = 2%nat /\
    forall i, (i < 2)%nat ->
      nth i out 0
      = - vsum (zip_with (fun q v => v * ln q + (1 - v) * ln (1 - q))
                  (example p i) (example Examples.target_2x2 i)).
Proof.
  apply (@nll_of_activation Examples.scenario_vae Examples.logits_2x2
           Examples.target_2x2 2 [2%nat]); try reflexivity. lia.
Defined.

Lemma softplus_pos (l : R) : 0 < ln (1 + exp (- l)).
Proof.
  rewrite <- ln_1. apply ln_increasing; [lra|].
  pose proof (exp_pos (- l)). lra.
Qed.

Lemma softplus_above (l : R) : 0 < l + ln (1 + exp (- l)).
Proof.
  pose proof (exp_pos (- l)) as He.
  assert (H : ln (exp (- l)) < ln (1 + exp (- l)))
    by (apply ln_increasing; lra).
  rewrite ln_exp in H. lra.
Qed.

Lemma bernoulli_entry_nonneg (l v : R) :
  0 <= v <= 1 -> 0 <= bernoulli_entry l v.
Proof.
  intros Hv. rewrite bernoulli_entry_stable, stable_log_sum_exp_softplus.
  pose proof (softplus_pos l) as Ha. pose proof (softplus_above l) as Hb.
  set (A := ln (1 + exp (- l))) in *.
  replace (l - l * v + A) with ((1 - v) * (l + A) + v * A) by ring.
  apply Rplus_le_le_0_compat; apply Rmult_le_pos; lra.
Qed.

Lemma firstn_entries (P : R -> Prop) (n : nat) (l : list R) :
  Forall P l -> Forall P (firstn n l).
Proof.
  intros H. revert n. induction H as [|x l Hx _ IH]; intros [|n]; simpl;
    constructor; auto.
Qed.

Lemma skipn_entries (P : R -> Prop) (n : nat) (l : list R) :
  Forall P l -> Forall P (skipn n l).
Proof.
  intros H. revert n. induction H as [|x l Hx Hl IH]; intros [|n]; simpl;
    auto.
Qed.

Lemma chunks_Forall (P : R -> Prop) (m n : nat) (l : list R) :
  Forall P l -> Forall (Forall P) (chunks m n l).
Proof.
  revert l. induction n as [|n IH]; intros l H; simpl; constructor.
  - apply firstn_entries. exact H.
  - apply IH. apply skipn_entries. exact H.
Qed.

Lemma zip_with_nonneg (ls xs : vec) :
  Forall (fun v => 0 <= v <= 1) xs ->
  0 <= vsum (zip_with bernoulli_entry ls xs).
Proof.
  intros H. revert ls. induction H as [|x xs Hx _ IH]; intros [|l ls];
    simpl; try lra.
  fold (vsum (zip_with bernoulli_entry ls xs)).
  pose proof (bernoulli_entry_nonneg l Hx). specialize (IH ls). lra.
Qed.

Lemma zip_rows_nonneg (ls xs : rows) :
  Forall (Forall (fun v => 0 <= v <= 1)) xs ->
  Forall (fun v => 0 <= v) (map vsum (zip_rows bernoulli_entry ls xs)).
Proof.
  intros H. revert ls. induction H as [|x xs Hx _ IH]; intros [|l ls];
    simpl; constructor.
  - apply zip_with_nonneg. exact Hx.
  - apply IH.
Qed.

(** X20.  The Bernoulli negative log-likelihood is not negative: on tensors of
    one size with a non-empty batch and a target whose entries lie in
    [[0, 1]], every entry of what [nll_bernoulli] returns is at least 0,
    whatever the logits are. *)
Theorem nll_bernoulli_nonnegative (recon x : tensor) (b : nat)
  (rest : list nat) :
  size recon = b :: rest -> size x = size recon -> (0 < b)%nat ->
  Forall (fun v => 0 <= v <= 1) (data x) ->
  exists out,
    nll_bernoulli recon x = Ok out /\ Forall (fun v => 0 <= v) out.
Proof.
  intros Hr Hx Hb Hd. eexists.
  split; [apply (nll_bernoulli_value _ _ Hr Hx Hb)|].
  apply zip_rows_nonneg, chunks_Forall. exact Hd.
Qed.

Lemma nll_bernoulli_nonnegative_witness :
  exists out,
    nll_bernoulli Examples.logits_2x2 Examples.target_2x2 = Ok out /\
    Forall (fun v => 0 <= v) out.
Proof.
  apply (@nll_bernoulli_nonnegative Examples.logits_2x2 Examples.target_2x2
           2 [2%nat]); try reflexivity; [lia|].
  repeat constructor; simpl; lra.
Defined.

End ActivationFacts.

(** ** [loss_function]: failures, means, and the part of [mut_reg] *)

Section LossMore.

Import Torch Vae Spec.

Open Scope R_scope.

(** X21.  [loss_function] fails with the error of [nll], before the
    reparameterizer is asked for anything.  With [nll_type = 'gaussian'] it
    therefore returns on no input; with ['bernoulli'] and tensors of
    different sizes it fails the assertion; with any other [nll_type] it
    raises [KeyError]. *)
Theorem loss_function_nll_failure (self : VAE) (recon x : tensor)
  (params : ParamRecord) :
  (forall e, nll self recon x = Raise e ->
     loss_function self recon x params = Raise e) /\
  (nll_type (config self) = "gaussian"%string ->
   loss_function self recon x params
   = Raise (AttributeError "_log_unnormalized_prob")) /\
  (nll_type (config self) = "bernoulli"%string -> size x <> size recon ->
   loss_function self recon x params = Raise AssertionError) /\
  (known_nll_type (nll_type (config self)) = false ->
   loss_function self recon x params
   = Raise (KeyError (nll_type (config self)))).
Proof.
  assert (H : forall e, nll self recon x = Raise e ->
                loss_function self recon x params = Raise e).
  { intros e He. unfold loss_function. rewrite He. reflexivity. }
  split; [exact H|]. split; [|split].
  - intros Ht. apply H. apply nll_gaussian_branch. exact Ht.
  - intros Ht Hs. apply H. rewrite nll_dispatch, Ht.
    cbn [String.eqb Ascii.eqb Bool.eqb].
    apply nll_bernoulli_shape_mismatch. exact Hs.
  - intros Ht. apply H. apply nll_unknown_type. exact Ht.
Qed.

Lemma loss_function_nll_failure_witness :
  loss_function Examples.scenario_vae Examples.logits_2x2
    Examples.target_2x3 Examples.scenario_params = Raise AssertionError.
Proof.
  destruct (loss_function_nll_failure Examples.scenario_vae
              Examples.logits_2x2 Examples.target_2x3
              Examples.scenario_params) as [_ [_ [H _]]].
  apply H; [reflexivity | discriminate].
Defined.

Lemma vsum_zip_plus (a b : vec) :
  List.length a = List.length b ->
  vsum (zip_with Rplus a b) = vsum a + vsum b.
Proof.
  revert b. induction a as [|x a IH]; intros [|y b] H; simpl in *;
    try discriminate; [lra|].
  fold (vsum (zip_with Rplus a b)). fold (vsum a). fold (vsum b).
  rewrite IH by lia. ring.
Qed.

Lemma vsum_regularized (c : R) (a b : vec) :
  List.length a = List.length b ->
  vsum (regularized c a b) = vsum a - c * vsum b.
Proof.
  unfold regularized.
  revert b. induction a as [|x a IH]; intros [|y b] H; simpl in *;
    try discriminate; [lra|].
  fold (vsum (zip_with (fun e m => e - c * m) a b)).
  fold (vsum a). fold (vsum b). rewrite IH by lia. ring.
Qed.

Lemma vsum_zeros (n : nat) : vsum (repeat 0 n) = 0.
Proof.
  induction n as [|n IH]; simpl; [reflexivity|].
  fold (vsum (repeat 0 n)). rewrite IH. ring.
Qed.

(** X22.  The means [loss_function] returns fit together.  When [nll] and [kl]
    return one number per example each (and so does [mutual_info] for a
    mixture): [elbo_mean = nll_mean + kld_mean], and
    [loss_mean = elbo_mean - mut_reg * mean(mut_info)].  For an object that
    is not a mixture, [loss_mean] is [elbo_mean] and [mut_info_mean] is the
    float 0.0, not a tensor; for a mixture [mut_info_mean] is the tensor
    that holds the mean of the mutual information. *)
Theorem loss_function_means (self : VAE) (recon x : tensor)
  (params : ParamRecord) (nllv kldv miv : vec) :
  nll self recon x = Ok nllv ->
  kld self params = Ok kldv ->
  List.length kldv = List.length nllv ->
  (if is_mixture self
   then mutual_info (reparameterizer self) params = Ok miv
        /\ List.length miv = List.length nllv
   else miv = repeat 0 (List.length nllv)) ->
  exists m loss_mean elbo_mean nll_mean kld_mean,
    loss_function self recon x params = Ok m /\
    lookup "loss_mean" m = Some (VTensor [loss_mean]) /\
    lookup "elbo_mean" m = Some (VTensor [elbo_mean]) /\
    lookup "nll_mean" m = Some (VTensor [nll_mean]) /\
    lookup "kld_mean" m = Some (VTensor [kld_mean]) /\
    elbo_mean = nll_mean + kld_mean /\
    loss_mean = elbo_mean - float_value (mut_reg (config self)) * mean miv /\
    (is_mixture self = false ->
     loss_mean = elbo_mean /\ lookup "mut_info_mean" m = Some (VFloat 0)) /\
    (is_mixture self = true ->
     lookup "mut_info_mean" m = Some (VTensor [mean miv])).
Proof.
  intros Hn Hk Hl Hm.
  pose proof (@loss_function_value self recon x params nllv kldv miv
                Hn Hk Hl Hm) as Hv.
  cbv zeta in Hv.
  assert (Hel : List.length (zip_with Rplus nllv kldv) = List.length nllv)
    by (apply zip_with_length; symmetry; exact Hl).
  assert (Hml : List.length miv = List.length nllv).
  { destruct (is_mixture self); [apply Hm|]. subst miv. apply repeat_length. }
  assert (Hrl : List.length (regularized (float_value (mut_reg (config self)))
                               (zip_with Rplus nllv kldv) miv)
                = List.length nllv).
  { unfold regularized. rewrite zip_with_length; congruence. }
  assert (He : mean (zip_with Rplus nllv kldv) = mean nllv + mean kldv).
  { unfold mean. rewrite Hel, Hl, vsum_zip_plus by (symmetry; exact Hl).
    unfold Rdiv. ring. }
  assert (Hr : mean (regularized (float_value (mut_reg (config self)))
                       (zip_with Rplus nllv kldv) miv)
               = mean (zip_with Rplus nllv kldv)
                 - float_value (mut_reg (config self)) * mean miv).
  { unfold mean. rewrite Hrl, Hel, Hml, vsum_regularized by congruence.
    unfold Rdiv. ring. }
  do 5 eexists. split; [exact Hv|].
  do 4 (split; [reflexivity|]).
  split; [exact He|]. split; [exact Hr|]. split.
  - intros Hmix. rewrite Hmix in *. split; [|reflexivity].
    rewrite Hr. subst miv. unfold mean at 2. rewrite vsum_zeros.
    unfold Rdiv. ring.
  - intros Hmix. rewrite Hmix. reflexivity.
Qed.

Lemma loss_function_means_witness :
  exists m loss_mean elbo_mean nll_mean kld_mean,
    loss_function Examples.scenario_vae Examples.logits_2x2
      Examples.target_2x2 Examples.scenario_params = Ok m /\
    lookup "loss_mean" m = Some (VTensor [loss_mean]) /\
    lookup "elbo_mean" m = Some (VTensor [elbo_mean]) /\
    lookup "nll_mean" m = Some (VTensor [nll_mean]) /\
    lookup "kld_mean" m = Some (VTensor [kld_mean]) /\
    elbo_mean = nll_mean + kld_mean /\
    loss_mean
    = elbo_mean
      - float_value (mut_reg (config Examples.scenario_vae))
        * mean (repeat 0 2) /\
    (is_mixture Examples.scenario_vae = false ->
     loss_mean = elbo_mean /\ lookup "mut_info_mean" m = Some (VFloat 0)) /\
    (is_mixture Examples.scenario_vae = true ->
     lookup "mut_info_mean" m = Some (VTensor [mean (repeat 0 2)])).
Proof.
  apply (@loss_function_means Examples.scenario_vae
           Examples.logits_2x2 Examples.target_2x2 Examples.scenario_params
           Examples.scenario_nll Examples.scenario_kld (repeat 0 2)).
  - exact scenario_nll_ok.
  - exact scenario_kld_ok.
  - reflexivity.
  - split; [exact scenario_mutual_info_ok | reflexivity].
Defined.

Lemma nll_same_type (a b : VAE) (recon x : tensor) :
  nll_type (config a) = nll_type (config b) ->
  nll a recon x = nll b recon x.
Proof.
  intros H. rewrite !nll_dispatch, H, !nll_gaussian_attribute_error.
  reflexivity.
Qed.

(** X23.  Without a mixture, [mut_reg] and [mutual_info] play no part: two
    objects that are not mixtures, with the same [nll_type] and
    reparameterizers of the same KL on [params], get the same answer from
    [loss_function] on every input, whatever their [mut_reg] (a finite
    number) and whatever their [mutual_info] would return or raise. *)
Theorem loss_function_without_mixture (a b : VAE) (recon x : tensor)
  (params : ParamRecord) :
  is_mixture a = false -> is_mixture b = false ->
  nll_type (config a) = nll_type (config b) ->
  kl (reparameterizer a) params = kl (reparameterizer b) params ->
  loss_function a recon x params = loss_function b recon x params.
Proof.
  unfold is_mixture. intros Ha Hb Ht Hk. unfold loss_function, kld.
  rewrite (nll_same_type a b recon x Ht), Hk, Ha, Hb.
  destruct (nll b recon x) as [nllv|e]; [|reflexivity].
  destruct (kl (reparameterizer b) params) as [kldv|e]; [|reflexivity].
  cbn [bind]. destruct (binop Rplus (VTensor nllv) (VTensor kldv))
    as [elbo|e]; [|reflexivity].
  cbn [bind binop]. rewrite !Rmult_0_r. reflexivity.
Qed.

Lemma loss_function_without_mixture_witness :
  loss_function
    (Examples.built
       (Examples.vae Examples.mnist_shape Examples.default_config))
    Examples.logits_2x2 Examples.target_2x2 Examples.scenario_params
  = loss_function
      (Examples.built
         (Examples.vae Examples.mnist_shape
            (mk_config "mnist" "isotropic_gaussian" "conv" "bernoulli" 32 64
               (mk_float 7 "7.0") 32 32 false 1
               (mk_float (1 / 1000) "0.001"))))
      Examples.logits_2x2 Examples.target_2x2 Examples.scenario_params.
Proof.
  apply loss_function_without_mixture; reflexivity.
Defined.

End LossMore.

(** ** The sizes along [encode], [decode] and [forward] *)

Section ShapeFacts.

Import Torch Vae Run.

Lemma conv2d_shape (n : nat) (cin cout k s : Z) (h w h' w' : nat) :
  (0 < cin)%Z -> (0 < cout)%Z -> (0 < k)%Z -> (0 < s)%Z ->
  (k <= Z.of_nat h)%Z -> (k <= Z.of_nat w)%Z ->
  h' = Z.to_nat ((Z.of_nat h - k) / s + 1) ->
  w' = Z.to_nat ((Z.of_nat w - k) / s + 1) ->
  layer_shape (Conv2d cin cout k s) [n; Z.to_nat cin; h; w]
  = Ok [n; Z.to_nat cout; h'; w'].
Proof.
  intros Hi Ho Hk Hs Hh Hw -> ->. cbn [layer_shape].
  rewrite Z2Nat.id by lia. rewrite Z.eqb_refl.
  replace (0 <? cout)%Z with true by (symmetry; apply Z.ltb_lt; lia).
  replace (0 <? k)%Z with true by (symmetry; apply Z.ltb_lt; lia).
  replace (0 <? s)%Z with true by (symmetry; apply Z.ltb_lt; lia).
  replace (k <=? Z.of_nat h)%Z with true by (symmetry; apply Z.leb_le; lia).
  replace (k <=? Z.of_nat w)%Z with true by (symmetry; apply Z.leb_le; lia).
  reflexivity.
Qed.

Lemma conv2d_channels (n c h w : nat) (cin cout k s : Z) :
  Z.of_nat c <> cin ->
  layer_shape (Conv2d cin cout k s) [n; c; h; w] = Raise shape_error.
Proof.
  intros H. cbn [layer_shape].
  replace (Z.of_nat c =? cin)%Z with false
    by (symmetry; apply Z.eqb_neq; exact H).
  reflexivity.
Qed.

Lemma conv_transpose2d_shape (n : nat) (cin cout k s : Z) (h w h' w' : nat) :
  (0 < cin)%Z -> (0 < cout)%Z -> (0 < k)%Z -> (0 < s)%Z ->
  (0 < h)%nat -> (0 < w)%nat ->
  h' = Z.to_nat ((Z.of_nat h - 1) * s + k) ->
  w' = Z.to_nat ((Z.of_nat w - 1) * s + k) ->
  layer_shape (ConvTranspose2d cin cout k s) [n; Z.to_nat cin; h; w]
  = Ok [n; Z.to_nat cout; h'; w'].
Proof.
  intros Hi Ho Hk Hs Hh Hw -> ->. cbn [layer_shape].
  rewrite Z2Nat.id by lia. rewrite Z.eqb_refl.
  replace (0 <? cout)%Z with true by (symmetry; apply Z.ltb_lt; lia).
  replace (0 <? k)%Z with true by (symmetry; apply Z.ltb_lt; lia).
  replace (0 <? s)%Z with true by (symmetry; apply Z.ltb_lt; lia).
  replace (Nat.ltb 0 h) with true by (symmetry; apply Nat.ltb_lt; lia).
  replace (Nat.ltb 0 w) with true by (symmetry; apply Nat.ltb_lt; lia).
  reflexivity.
Qed.

Lemma batch_norm2d_shape (n h w : nat) (f : Z) :
  (0 <= f)%Z ->
  layer_shape (BatchNorm2d f) [n; Z.to_nat f; h; w]
  = Ok [n; Z.to_nat f; h; w].
Proof.
  intros H. cbn [layer_shape]. rewrite Z2Nat.id by lia.
  rewrite Z.eqb_refl. reflexivity.
Qed.

Lemma batch_norm1d_shape (n : nat) (f : Z) :
  (0 <= f)%Z ->
  layer_shape (BatchNorm1d f) [n; Z.to_nat f] = Ok [n; Z.to_nat f].
Proof.
  intros H. cbn [layer_shape]. rewrite Z2Nat.id by lia.
  rewrite Z.eqb_refl. reflexivity.
Qed.

Lemma linear_shape (n : nat) (fin fout : Z) :
  (0 <= fin)%Z -> (0 < fout)%Z ->
  layer_shape (Linear fin fout) [n; Z.to_nat fin] = Ok [n; Z.to_nat fout].
Proof.
  intros Hi Ho. cbn [layer_shape rev app]. rewrite Z2Nat.id by lia.
  rewrite Z.eqb_refl.
  replace (0 <? fout)%Z with true by (symmetry; apply Z.ltb_lt; lia).
  reflexivity.
Qed.

(** [View([-1, k])] on an input of [n * k] entries. *)
Lemma view_flatten (k : Z) (n : nat) (x : list nat) :
  (0 < k)%Z -> numel x = (n * Z.to_nat k)%nat ->
  view_shape [-1; k]%Z x = Ok [n; Z.to_nat k].
Proof.
  intros Hk Hx. unfold view_shape. cbv [existsb filter].
  replace (k <? -1)%Z with false by (symmetry; apply Z.ltb_ge; lia).
  replace (k =? -1)%Z with false by (symmetry; apply Z.eqb_neq; lia).
  change (-1 <? -1)%Z with false. change (-1 =? -1)%Z with true.
  cbv [orb negb List.length prodZ fold_right map].
  replace (k =? -1)%Z with false by (symmetry; apply Z.eqb_neq; lia).
  change (-1 =? -1)%Z with true. cbv iota.
  rewrite Hx, Nat2Z.inj_mul, Z2Nat.id, Z.mul_1_r by lia.
  replace (0 <? k)%Z with true by (symmetry; apply Z.ltb_lt; lia).
  rewrite Z.mod_mul, Z.div_mul by lia. rewrite Z.eqb_refl. cbv [andb].
  rewrite Nat2Z.id. reflexivity.
Qed.

(** [View([-1, k, 1, 1])] on an input of size [n x k]. *)
Lemma view_unflatten (k : Z) (n : nat) :
  (0 < k)%Z ->
  view_shape [-1; k; 1; 1]%Z [n; Z.to_nat k] = Ok [n; Z.to_nat k; 1; 1]%nat.
Proof.
  intros Hk. unfold view_shape. cbv [existsb filter].
  replace (k <? -1)%Z with false by (symmetry; apply Z.ltb_ge; lia).
  replace (k =? -1)%Z with false by (symmetry; apply Z.eqb_neq; lia).
  change (-1 <? -1)%Z with false. change (-1 =? -1)%Z with true.
  change (1 <? -1)%Z with false. change (1 =? -1)%Z with false.
  cbv [orb negb List.length prodZ fold_right map].
  replace (k =? -1)%Z with false by (symmetry; apply Z.eqb_neq; lia).
  change (-1 =? -1)%Z with true. change (1 =? -1)%Z with false. cbv iota.
  replace (Z.of_nat (numel [n; Z.to_nat k])) with (Z.of_nat n * k)%Z
    by (cbn [numel fold_right]; lia).
  replace (k * (1 * (1 * 1)))%Z with k by lia.
  replace (0 <? k)%Z with true by (symmetry; apply Z.ltb_lt; lia).
  rewrite Z.mod_mul, Z.div_mul by lia. rewrite Z.eqb_refl. cbv [andb].
  rewrite Nat2Z.id. reflexivity.
Qed.

Lemma activation_shape (inplace : bool) (x : list nat) :
  layer_shape (Activation inplace) x = Ok x.
Proof. reflexivity. Qed.

Lemma view_layer (shape : list Z) (x : list nat) :
  layer_shape (View shape) x = view_shape shape x.
Proof. reflexivity. Qed.

Ltac layer_ok :=
  first [ rewrite activation_shape
        | rewrite batch_norm2d_shape by lia
        | rewrite batch_norm1d_shape by lia
        | rewrite linear_shape by lia ];
  cbn [bind].

Ltac conv_ok n cin cout k s h h' :=
  rewrite (@conv2d_shape n cin cout k s h h h' h')
    by (lia || reflexivity);
  cbn [bind].

Ltac conv_transpose_ok n cin cout k s h h' :=
  rewrite (@conv_transpose2d_shape n cin cout k s h h h' h')
    by (lia || reflexivity);
  cbn [bind].

(** The first layer of the convolutional encoder brings every batch of
    images to 32 x 32. *)
Lemma conv_encoder_first (shape : list Z) (n c h w : nat) :
  (tl shape <> bilinear_size \/ (h = 32 /\ w = 32)%nat) ->
  layer_shape (if negb (shape_eqb (tl shape) bilinear_size)
               then Upsample bilinear_size else Identity) [n; c; h; w]
  = Ok [n; c; 32; 32]%nat.
Proof.
  intros Hs. unfold shape_eqb.
  destruct (list_eq_dec Z.eq_dec (tl shape) bilinear_size) as [E|E];
    cbn [negb].
  - destruct Hs as [Hs|[-> ->]]; [contradiction | reflexivity].
  - reflexivity.
Qed.

(** The convolutional encoder on a batch of images with the channels it
    expects: one vector of [input_size] numbers per image. *)
Lemma conv_encoder_shape (shape : list Z) (ch : Z) (cfg : Config)
  (r : Reparameterizer) (e : module) (n h w : nat) :
  layer_type cfg = "conv"%string ->
  build_encoder shape ch cfg r = Ok e ->
  (0 < ch)%Z -> (0 < filter_depth cfg)%Z -> (0 < input_size r)%Z ->
  (tl shape <> bilinear_size \/ (h = 32 /\ w = 32)%nat) ->
  module_shape e [n; Z.to_nat ch; h; w]
  = Ok [n; Z.to_nat (input_size r); 1; 1]%nat.
Proof.
  intros Hl He Hc Hf Hr Hs. unfold build_encoder in He.
  rewrite Hl, String.eqb_refl in He. cbv zeta in He.
  apply bind_sequential in He. cbv beta in He. injection He as <-.
  unfold module_shape, place. cbn [layers layers_shape].
  set (fd := filter_depth cfg) in *.
  rewrite conv_encoder_first by exact Hs. cbn [bind].
  conv_ok n ch fd 5%Z 1%Z 32%nat 28%nat. do 2 layer_ok.
  conv_ok n fd (fd * 2)%Z 4%Z 2%Z 28%nat 13%nat. do 2 layer_ok.
  conv_ok n (fd * 2)%Z (fd * 4)%Z 4%Z 1%Z 13%nat 10%nat. do 2 layer_ok.
  conv_ok n (fd * 4)%Z (fd * 8)%Z 4%Z 2%Z 10%nat 4%nat. do 2 layer_ok.
  conv_ok n (fd * 8)%Z (fd * 16)%Z 4%Z 1%Z 4%nat 1%nat. do 2 layer_ok.
  conv_ok n (fd * 16)%Z (fd * 16)%Z 1%Z 1%Z 1%nat 1%nat. do 2 layer_ok.
  conv_ok n (fd * 16)%Z (input_size r) 1%Z 1%Z 1%nat 1%nat. do 2 layer_ok.
  reflexivity.
Qed.

(** The convolutional encoder raises on a batch with another number of
    channels. *)
Lemma conv_encoder_channels (shape : list Z) (ch : Z) (cfg : Config)
  (r : Reparameterizer) (e : module) (n c h w : nat) :
  layer_type cfg = "conv"%string ->
  build_encoder shape ch cfg r = Ok e ->
  Z.of_nat c <> ch ->
  module_shape e [n; c; h; w] = Raise shape_error.
Proof.
  intros Hl He Hc. unfold build_encoder in He.
  rewrite Hl, String.eqb_refl in He. cbv zeta in He.
  apply bind_sequential in He. cbv beta in He. injection He as <-.
  unfold module_shape, place. cbn [layers layers_shape].
  unfold shape_eqb.
  destruct (list_eq_dec Z.eq_dec (tl shape) bilinear_size) as [E|E];
    cbn [negb].
  - change (layer_shape Identity [n; c; h; w]) with (Ok [n; c; h; w]).
    cbn [bind]. rewrite conv2d_channels by exact Hc. reflexivity.
  - change (layer_shape (Upsample bilinear_size) [n; c; h; w])
      with (Ok [n; c; 32; 32]%nat).
    cbn [bind]. rewrite conv2d_channels by exact Hc. reflexivity.
Qed.

(** The convolutional decoder on a batch of latent vectors: one image per
    vector, of the spatial size the object was built for. *)
Lemma conv_decoder_shape (c H W ch : Z) (cfg : Config)
  (r : Reparameterizer) (d : module) (n : nat) :
  layer_type cfg = "conv"%string ->
  build_decoder [c; H; W] ch cfg r = Ok d ->
  (0 < ch)%Z -> (0 < filter_depth cfg)%Z -> (0 < output_size r)%Z ->
  (0 < H)%Z -> (0 < W)%Z ->
  module_shape d [n; Z.to_nat (output_size r)]
  = Ok [n; Z.to_nat ch; Z.to_nat H; Z.to_nat W].
Proof.
  intros Hl Hd Hc Hf Hr HH HW. unfold build_decoder in Hd.
  rewrite Hl, String.eqb_refl in Hd. cbv zeta in Hd.
  apply bind_sequential in Hd. cbv beta in Hd. injection Hd as <-.
  unfold module_shape, place. cbn [layers layers_shape].
  set (fd := filter_depth cfg) in *. set (o := output_size r) in *.
  rewrite view_layer, view_unflatten by exact Hr. cbn [bind].
  conv_transpose_ok n o (fd * 8)%Z 4%Z 1%Z 1%nat 4%nat. do 2 layer_ok.
  conv_transpose_ok n (fd * 8)%Z (fd * 4)%Z 4%Z 2%Z 4%nat 10%nat.
  do 2 layer_ok.
  conv_transpose_ok n (fd * 4)%Z (fd * 2)%Z 4%Z 1%Z 10%nat 13%nat.
  do 2 layer_ok.
  conv_transpose_ok n (fd * 2)%Z fd 4%Z 2%Z 13%nat 28%nat. do 2 layer_ok.
  conv_transpose_ok n fd fd 5%Z 1%Z 28%nat 32%nat. do 2 layer_ok.
  conv_ok n fd ch 1%Z 1%Z 32%nat 32%nat.
  cbn [tl]. unfold shape_eqb.
  destruct (list_eq_dec Z.eq_dec [H; W] bilinear_size) as [E|E]; cbn [negb].
  - injection E as -> ->. reflexivity.
  - cbn [layer_shape].
    replace (0 <? H)%Z with true by (symmetry; apply Z.ltb_lt; lia).
    replace (0 <? W)%Z with true by (symmetry; apply Z.ltb_lt; lia).
    reflexivity.
Qed.

Lemma numel_of_sizes (shape : list Z) :
  Forall (fun d => 0 < d)%Z shape ->
  Z.of_nat (numel (map Z.to_nat shape)) = prodZ shape /\ (0 < prodZ shape)%Z.
Proof.
  induction 1 as [|d shape Hd _ [IH1 IH2]]; [split; reflexivity|].
  cbn [map numel fold_right prodZ]. fold (numel (map Z.to_nat shape)).
  fold (prodZ shape). split; [|apply Z.mul_pos_pos; assumption].
  rewrite Nat2Z.inj_mul, IH1, Z2Nat.id by lia. reflexivity.
Qed.

Lemma filter_positive_keep (shape : list Z) :
  Forall (fun d => 0 < d)%Z shape ->
  filter (fun d => negb (Z.eqb d (-1))) shape = shape /\
  filter (fun d => Z.eqb d (-1)) shape = [] /\
  existsb (fun d => Z.ltb d (-1)) shape = false.
Proof.
  induction 1 as [|d shape Hd _ [IH1 [IH2 IH3]]]; [auto|].
  cbn [filter existsb].
  replace (d =? -1)%Z with false by (symmetry; apply Z.eqb_neq; lia).
  replace (d <? -1)%Z with false by (symmetry; apply Z.ltb_ge; lia).
  cbn [negb orb]. rewrite IH1. auto.
Qed.

Lemma map_sizes (shape : list Z) (v : nat) :
  Forall (fun d => 0 < d)%Z shape ->
  map (fun d => if (d =? -1)%Z then v else Z.to_nat d) shape
  = map Z.to_nat shape.
Proof.
  intros H. apply map_ext_in. intros d Hd.
  rewrite Forall_forall in H. specialize (H d Hd).
  replace (d =? -1)%Z with false by (symmetry; apply Z.eqb_neq; lia).
  reflexivity.
Qed.

(** [View([-1] + input_shape)] on [n] rows of as many numbers as an image
    has. *)
Lemma view_images (shape : list Z) (n : nat) :
  Forall (fun d => 0 < d)%Z shape ->
  view_shape ((-1)%Z :: shape) [n; Z.to_nat (prodZ shape)]
  = Ok (n :: map Z.to_nat shape).
Proof.
  intros H. destruct (numel_of_sizes H) as [_ Hp].
  destruct (filter_positive_keep H) as [Hk [Hh He]].
  assert (E1 : existsb (fun d => Z.ltb d (-1)) ((-1)%Z :: shape) = false)
    by (simpl; exact He).
  assert (E2 : filter (fun d => negb (Z.eqb d (-1))) ((-1)%Z :: shape)
               = shape) by (simpl; exact Hk).
  assert (E3 : filter (fun d => Z.eqb d (-1)) ((-1)%Z :: shape) = [(-1)%Z])
    by (simpl; f_equal; exact Hh).
  unfold view_shape. rewrite E1, E2, E3. cbn [List.length map].
  change (-1 =? -1)%Z with true. cbv iota.
  replace (Z.of_nat (numel [n; Z.to_nat (prodZ shape)]))
    with (Z.of_nat n * prodZ shape)%Z by (cbn [numel fold_right]; lia).
  replace (0 <? prodZ shape)%Z with true by (symmetry; apply Z.ltb_lt; lia).
  rewrite Z.mod_mul, Z.div_mul by lia. rewrite Z.eqb_refl. cbv [andb].
  rewrite Nat2Z.id, map_sizes by exact H. reflexivity.
Qed.

Lemma dense_encoder_shape (shape : list Z) (ch : Z) (cfg : Config)
  (r : Reparameterizer) (e : module) (n : nat) :
  layer_type cfg = "dense"%string ->
  build_encoder shape ch cfg r = Ok e ->
  Forall (fun d => 0 < d)%Z shape -> (0 < input_size r)%Z ->
  module_shape e (n :: map Z.to_nat shape) = Ok [n; Z.to_nat (input_size r)].
Proof.
  intros Hl He Hs Hr. unfold build_encoder in He.
  rewrite Hl in He. change ("dense" =? "conv")%string with false in He.
  rewrite String.eqb_refl in He. cbv zeta in He.
  apply bind_sequential in He. cbv beta in He. injection He as <-.
  unfold module_shape, place. cbn [layers layers_shape].
  destruct (numel_of_sizes Hs) as [Hn Hp].
  rewrite view_layer, (@view_flatten (prodZ shape) n).
  - cbn [bind]. do 7 layer_ok. reflexivity.
  - exact Hp.
  - cbn [numel fold_right]. fold (numel (map Z.to_nat shape)).
    rewrite <- Hn, Nat2Z.id. reflexivity.
Qed.

Lemma dense_decoder_shape (shape : list Z) (ch : Z) (cfg : Config)
  (r : Reparameterizer) (d : module) (n : nat) :
  layer_type cfg = "dense"%string ->
  build_decoder shape ch cfg r = Ok d ->
  Forall (fun d => 0 < d)%Z shape -> (0 < output_size r)%Z ->
  module_shape d [n; Z.to_nat (output_size r)]
  = Ok (n :: map Z.to_nat shape).
Proof.
  intros Hl Hd Hs Hr. unfold build_decoder in Hd.
  rewrite Hl in Hd. change ("dense" =? "conv")%string with false in Hd.
  rewrite String.eqb_refl in Hd. cbv zeta in Hd.
  apply bind_sequential in Hd. cbv beta in Hd. injection Hd as <-.
  unfold module_shape, place. cbn [layers layers_shape].
  destruct (numel_of_sizes Hs) as [Hn Hp].
  rewrite view_layer, (@view_flatten (output_size r) n).
  - cbn [bind]. do 7 layer_ok.
    rewrite view_layer, view_images by exact Hs. reflexivity.
  - exact Hr.
  - cbn [numel fold_right]. lia.
Qed.

Lemma view_flatten_inv (k : Z) (x v : list nat) :
  (0 < k)%Z -> view_shape [-1; k]%Z x = Ok v ->
  exists m, v = [m; Z.to_nat k] /\ numel x = (m * Z.to_nat k)%nat.
Proof.
  intros Hk. unfold view_shape. cbv [existsb filter].
  replace (k <? -1)%Z with false by (symmetry; apply Z.ltb_ge; lia).
  replace (k =? -1)%Z with false by (symmetry; apply Z.eqb_neq; lia).
  change (-1 <? -1)%Z with false. change (-1 =? -1)%Z with true.
  cbv [orb negb List.length prodZ fold_right map].
  replace (k =? -1)%Z with false by (symmetry; apply Z.eqb_neq; lia).
  change (-1 =? -1)%Z with true. cbv iota. rewrite Z.mul_1_r.
  replace (0 <? k)%Z with true by (symmetry; apply Z.ltb_lt; lia).
  cbv [andb].
  destruct (Z.of_nat (numel x) mod k =? 0)%Z eqn:E; [|discriminate].
  intros H. injection H as <-. eexists. split; [reflexivity|].
  apply Z.eqb_eq in E.
  pose proof (Z.div_mod (Z.of_nat (numel x)) k) as Hdm.
  assert (Hq : (0 <= Z.of_nat (numel x) / k)%Z)
    by (apply Z.div_pos; lia).
  nia.
Qed.

(** Whatever the dense encoder returns has the size [m x r]. *)
Lemma dense_encoder_output (shape : list Z) (ch : Z) (cfg : Config)
  (r : Reparameterizer) (e : module) (x conv : list nat) :
  layer_type cfg = "dense"%string ->
  build_encoder shape ch cfg r = Ok e ->
  Forall (fun d => 0 < d)%Z shape -> (0 < input_size r)%Z ->
  module_shape e x = Ok conv ->
  exists m, conv = [m; Z.to_nat (input_size r)].
Proof.
  intros Hl He Hs Hr Hx. unfold build_encoder in He.
  rewrite Hl in He. change ("dense" =? "conv")%string with false in He.
  rewrite String.eqb_refl in He. cbv zeta in He.
  apply bind_sequential in He. cbv beta in He. injection He as <-.
  unfold module_shape, place in Hx.
  cbn [layers layers_shape] in Hx. rewrite view_layer in Hx.
  destruct (numel_of_sizes Hs) as [_ Hp].
  destruct (view_shape [-1; prodZ shape]%Z x) as [v|err] eqn:Hv;
    [|discriminate Hx].
  destruct (@view_flatten_inv (prodZ shape) x v Hp Hv) as [m [-> _]].
  cbn [bind] in Hx. exists m.
  revert Hx. do 7 layer_ok. intros Hx. injection Hx as <-. reflexivity.
Qed.

End ShapeFacts.

(** ** The object along calls of [forward] *)

Section ForwardFacts.

Import Torch Vae Run.

Context `{RP : Reparameterizers}.

Lemma init_fields (shape : list Z) (cfg : Config) (self : VAE) :
  init shape cfg = Ok self ->
  exists c rest,
    shape = c :: rest /\
    input_shape self = shape /\ config self = cfg /\
    enc_proj self = None /\
    chans self = (if (1 <? c)%Z then 3 else 1)%Z /\
    build_encoder shape (chans self) cfg (reparameterizer self)
    = Ok (encoder self) /\
    build_decoder shape (chans self) cfg (reparameterizer self)
    = Ok (decoder self).
Proof.
  unfold init. destruct shape as [|c rest]; [discriminate|].
  cbn [getitem nth_error bind].
  destruct (build_reparameterizer cfg) as [r|e]; [|discriminate].
  cbn [bind].
  destruct (build_encoder (c :: rest) (if (1 <? c)%Z then 3%Z else 1%Z)
              cfg r) as [e|e] eqn:He; [|discriminate].
  cbn [bind].
  destruct (build_decoder (c :: rest) (if (1 <? c)%Z then 3%Z else 1%Z)
              cfg r) as [d|d] eqn:Hd; [|discriminate].
  cbn [bind]. intros H. injection H as <-.
  exists c, rest. cbn [input_shape config enc_proj chans reparameterizer
                        encoder decoder].
  repeat split; assumption.
Qed.

Lemma lazy_init_dense_fields (self : VAE) (i o : Z) :
  let self' := _lazy_init_dense self i o in
  input_shape self' = input_shape self /\ is_color self' = is_color self /\
  chans self' = chans self /\ config self' = config self /\
  reparameterizer self' = reparameterizer self /\
  encoder self' = encoder self /\ decoder self' = decoder self.
Proof.
  unfold _lazy_init_dense.
  destruct (negb (hasattr self "enc_proj")); cbn; repeat split.
Qed.

Lemma encode_fields (self : VAE) (x : list nat) :
  let self' := fst (encode self x) in
  input_shape self' = input_shape self /\ is_color self' = is_color self /\
  chans self' = chans self /\ config self' = config self /\
  reparameterizer self' = reparameterizer self /\
  encoder self' = encoder self /\ decoder self' = decoder self.
Proof.
  unfold encode.
  destruct (module_shape (encoder self) x) as [conv|e];
    [|cbn; repeat split].
  destruct (enc_proj (_lazy_init_dense self (Z.of_nat (numel (tl conv)))
                        (input_size (reparameterizer self))));
    cbn [fst]; apply lazy_init_dense_fields.
Qed.

Lemma reachable_fields (shape : list Z) (cfg : Config) (self : VAE) :
  reachable shape cfg self ->
  exists c rest,
    shape = c :: rest /\
    input_shape self = shape /\ config self = cfg /\
    chans self = (if (1 <? c)%Z then 3 else 1)%Z /\
    build_encoder shape (chans self) cfg (reparameterizer self)
    = Ok (encoder self) /\
    build_decoder shape (chans self) cfg (reparameterizer self)
    = Ok (decoder self).
Proof.
  induction 1 as [self H|self x _ IH].
  - destruct (@init_fields shape cfg self H) as (c & rest & H1 & H2 & H3 & _ & H4 & H5 & H6).
    exists c, rest. repeat split; assumption.
  - destruct IH as (c & rest & H1 & H2 & H3 & H4 & H5 & H6).
    rewrite forward_state.
    destruct (encode_fields self x) as (E1 & _ & E3 & E4 & E5 & E6 & E7).
    exists c, rest. rewrite E1, E3, E4, E5, E6, E7.
    repeat split; assumption.
Qed.

Lemma chans_positive (c : Z) : (0 < (if (1 <? c)%Z then 3 else 1))%Z.
Proof. destruct (1 <? c)%Z; lia. Qed.

(** [encode] on an object whose projection is missing or has the width of
    the reparameterizer, when the encoder returns [n] rows of [r] numbers
    each. *)
Lemma encode_with_projection (self : VAE) (x conv : list nat) (n : nat) :
  let r := input_size (reparameterizer self) in
  let proj := place (config self) [View [-1; r]%Z; Linear r r] in
  (0 < r)%Z ->
  module_shape (encoder self) x = Ok conv ->
  numel (tl conv) = Z.to_nat r -> numel conv = (n * Z.to_nat r)%nat ->
  (enc_proj self = None \/ enc_proj self = Some proj) ->
  snd (encode self x) = Ok [n; Z.to_nat r] /\
  enc_proj (fst (encode self x)) = Some proj.
Proof.
  intros r proj Hr He Ht Hn Hp. unfold encode. rewrite He.
  assert (Hw : Z.of_nat (numel (tl conv)) = r) by (rewrite Ht; lia).
  rewrite Hw. fold r.
  assert (Hproj : module_shape proj conv = Ok [n; Z.to_nat r]).
  { unfold proj, module_shape, place. cbn [layers layers_shape].
    rewrite view_layer, (@view_flatten r n conv Hr Hn).
    cbn [bind]. rewrite linear_shape by lia. reflexivity. }
  destruct Hp as [Hp|Hp].
  - rewrite (lazy_init_dense_fresh self r r Hp). fold proj.
    cbn [fst snd]. rewrite (lazy_init_dense_fresh self r r Hp).
    split; [exact Hproj | reflexivity].
  - rewrite (lazy_init_dense_built self r r Hp), Hp. cbn [fst snd].
    split; [exact Hproj | exact Hp].
Qed.

(** With the upsampler in front, whatever the convolutional encoder
    returns has the size [n x r x 1 x 1]. *)
Lemma conv_encoder_output (shape : list Z) (ch : Z) (cfg : Config)
  (r : Reparameterizer) (e : module) (x conv : list nat) :
  layer_type cfg = "conv"%string ->
  build_encoder shape ch cfg r = Ok e ->
  (0 < ch)%Z -> (0 < filter_depth cfg)%Z -> (0 < input_size r)%Z ->
  tl shape <> bilinear_size ->
  module_shape e x = Ok conv ->
  exists n, conv = [n; Z.to_nat (input_size r); 1; 1]%nat.
Proof.
  intros Hl He Hc Hf Hr Hs Hx.
  destruct x as [|n [|c [|h [|w [|y x]]]]].
  5: { destruct (Z.eq_dec (Z.of_nat c) ch) as [E|E].
       - exists n. subst ch.
         pose proof (@conv_encoder_shape shape (Z.of_nat c) cfg r e n h w
                       Hl He Hc Hf Hr (or_introl Hs)) as Hok.
         rewrite Nat2Z.id in Hok. rewrite Hok in Hx.
         injection Hx as <-. reflexivity.
       - rewrite (@conv_encoder_channels shape ch cfg r e n c h w) in Hx
           by assumption.
         discriminate Hx. }
  all: exfalso; unfold build_encoder in He;
    rewrite Hl, String.eqb_refl in He; cbv zeta in He;
    apply bind_sequential in He; cbv beta in He; injection He as <-;
    unfold module_shape, place in Hx;
    cbn [layers layers_shape] in Hx; unfold shape_eqb in Hx;
    destruct (list_eq_dec Z.eq_dec (tl shape) bilinear_size) as [E|E];
    [contradiction|]; cbn [negb] in Hx;
    match type of Hx with
    | bind (layer_shape (Upsample ?s) ?v) ?k = _ =>
        change (bind (layer_shape (Upsample s) v) k)
          with (@Raise (list nat) shape_error) in Hx
    end; discriminate Hx.
Qed.

(** The projection of an object whose convolutional encoder has the
    upsampler in front, after any calls of [forward]: missing, or of the
    width of the reparameterizer. *)
Lemma reachable_projection (shape : list Z) (cfg : Config) (self : VAE) :
  reachable shape cfg self ->
  layer_type cfg = "conv"%string ->
  (0 < filter_depth cfg)%Z -> (0 < input_size (reparameterizer self))%Z ->
  tl shape <> bilinear_size ->
  let r := input_size (reparameterizer self) in
  enc_proj self = None \/
  enc_proj self = Some (place cfg [View [-1; r]%Z; Linear r r]).
Proof.
  intros Hreach Hl Hf. induction Hreach as [self H|self x Hreach IH];
    intros Hr Hs r.
  - destruct (@init_fields shape cfg self H) as (c & rest & _ & _ & _ & Hp & _). auto.
  - subst r. rewrite forward_state in *.
    destruct (encode_fields self x) as (_ & _ & _ & E4 & E5 & _).
    rewrite E5 in *. specialize (IH Hr Hs). cbv zeta in IH.
    destruct (@reachable_fields shape cfg self Hreach)
      as (c & rest & H1 & H2 & H3 & H4 & H5 & H6).
    destruct (module_shape (encoder self) x) as [conv|e] eqn:Hx.
    + assert (Hc : (0 < chans self)%Z) by (rewrite H4; apply chans_positive).
      destruct (@conv_encoder_output shape (chans self) cfg
                  (reparameterizer self) (encoder self) x conv
                  Hl H5 Hc Hf Hr Hs Hx) as [n ->].
      right. rewrite <- H3 in IH |- *.
      apply (@encode_with_projection self x _ n Hr Hx);
        [cbn [tl numel fold_right]; lia | cbn [numel fold_right]; lia
        | exact IH].
    + unfold encode. rewrite Hx. cbn [fst]. exact IH.
Qed.

(** X25.  The convolutional encoder keeps working.  For an object built with
    [layer_type = 'conv'] for images that are not 32 x 32, after any calls
    of [forward], returned or failed, on any inputs: [encode] of a batch of
    [n] images with the number of channels of the object, of any height and
    width, returns [n] rows of [input_size] numbers, and the projection is
    then the one from [input_size] to [input_size].  The batch holds at
    least two images, as batch normalisation asks while training. *)
Theorem encode_conv_width (shape : list Z) (cfg : Config) (self : VAE)
  (n h w : nat) :
  reachable shape cfg self ->
  layer_type cfg = "conv"%string ->
  (0 < filter_depth cfg)%Z -> (0 < input_size (reparameterizer self))%Z ->
  tl shape <> bilinear_size ->
  (1 < n)%nat -> (0 < h)%nat -> (0 < w)%nat ->
  let r := input_size (reparameterizer self) in
  let x := [n; Z.to_nat (chans self); h; w] in
  snd (encode self x) = Ok [n; Z.to_nat r] /\
  enc_proj (fst (encode self x))
  = Some (place cfg [View [-1; r]%Z; Linear r r]).
Proof.
  intros Hreach Hl Hf Hr Hs _ _ _ r x.
  destruct (@reachable_fields shape cfg self Hreach)
    as (c & rest & H1 & H2 & H3 & H4 & H5 & H6).
  assert (Hc : (0 < chans self)%Z) by (rewrite H4; apply chans_positive).
  pose proof (@conv_encoder_shape shape (chans self) cfg
                (reparameterizer self) (encoder self) n h w
                Hl H5 Hc Hf Hr (or_introl Hs)) as Hx.
  pose proof (@reachable_projection shape cfg self Hreach Hl Hf Hr Hs) as Hp.
  cbv zeta in Hp. rewrite <- H3 in Hp |- *.
  apply (@encode_with_projection self x _ n Hr Hx);
    [cbn [tl numel fold_right]; lia | cbn [numel fold_right]; lia
    | exact Hp].
Qed.

Lemma forward_value (self : VAE) (x z_logits z : list nat) :
  snd (encode self x) = Ok z_logits ->
  sample_shape (reparameterizer self) z_logits = Ok z ->
  snd (forward self x) = module_shape (decoder self) z.
Proof.
  intros He Hz. unfold forward.
  destruct (encode_fields self x) as (_ & _ & _ & _ & E5 & _ & E7).
  destruct (encode self x) as [self' r]. cbn [fst snd] in *.
  subst r. cbn [bind]. unfold reparameterize, decode.
  rewrite E5, Hz, E7. reflexivity.
Qed.

(** X26.  The convolutional model gives back images of the size it was built
    for.  For an object built with [layer_type = 'conv'] for images of
    [H x W], with a reparameterizer that turns [n] rows of [input_size]
    logits into [n] rows of [output_size] numbers: [decode] of [n] latent
    rows returns [n] images of [chans x H x W], and so does [forward] of a
    batch of [n] images with [chans] channels; when [H x W] is not 32 x 32
    this holds after any calls of [forward] and for a batch of any height
    and width, and when it is, for the first call on a batch of 32 x 32.
    [chans] is the number of channels the object was built for when that is
    1 or 3.  The batch holds at least two images, as batch normalisation
    asks while training. *)
Theorem forward_conv_reconstruction (c H W : Z) (cfg : Config) (self : VAE)
  (n h w : nat) :
  reachable [c; H; W] cfg self ->
  layer_type cfg = "conv"%string ->
  (0 < filter_depth cfg)%Z ->
  (0 < input_size (reparameterizer self))%Z ->
  (0 < output_size (reparameterizer self))%Z ->
  (0 < H)%Z -> (0 < W)%Z ->
  (1 < n)%nat -> (0 < h)%nat -> (0 < w)%nat ->
  ([H; W] <> bilinear_size \/
   (enc_proj self = None /\ h = 32 /\ w = 32)%nat) ->
  sample_shape (reparameterizer self)
    [n; Z.to_nat (input_size (reparameterizer self))]
  = Ok [n; Z.to_nat (output_size (reparameterizer self))] ->
  let recon := [n; Z.to_nat (chans self); Z.to_nat H; Z.to_nat W] in
  decode self [n; Z.to_nat (output_size (reparameterizer self))] = Ok recon /\
  snd (forward self [n; Z.to_nat (chans self); h; w]) = Ok recon /\
  ((c = 1 \/ c = 3)%Z -> chans self = c).
Proof.
  intros Hreach Hl Hf Hr Ho HH HW _ _ _ Hs Hz recon.
  destruct (@reachable_fields [c; H; W] cfg self Hreach)
    as (c0 & rest & H1 & H2 & H3 & H4 & H5 & H6).
  injection H1 as <- <-.
  assert (Hc : (0 < chans self)%Z) by (rewrite H4; apply chans_positive).
  pose proof (@conv_decoder_shape c H W (chans self) cfg
                (reparameterizer self) (decoder self) n
                Hl H6 Hc Hf Ho HH HW) as Hd.
  split; [exact Hd|]. split.
  - assert (Hs' : tl [c; H; W] <> bilinear_size \/ (h = 32 /\ w = 32)%nat).
    { destruct Hs as [Hs|[_ Hs]]; [left; exact Hs | right; exact Hs]. }
    pose proof (@conv_encoder_shape [c; H; W] (chans self) cfg
                  (reparameterizer self) (encoder self) n h w
                  Hl H5 Hc Hf Hr Hs') as Hx.
    assert (Hp : enc_proj self = None \/
                 enc_proj self
                 = Some (place (config self)
                           [View [-1; input_size (reparameterizer self)]%Z;
                            Linear (input_size (reparameterizer self))
                              (input_size (reparameterizer self))])).
    { destruct Hs as [Hs|[Hs _]]; [|left; exact Hs].
      rewrite H3.
      apply (@reachable_projection [c; H; W] cfg self Hreach Hl Hf Hr Hs). }
    destruct (@encode_with_projection self
                [n; Z.to_nat (chans self); h; w] _ n Hr Hx) as [He _];
      [cbn [tl numel fold_right]; lia | cbn [numel fold_right]; lia
      | exact Hp |].
    rewrite (@forward_value self _ _ _ He Hz). exact Hd.
  - intros Hc13. rewrite H4. destruct Hc13 as [-> | ->]; reflexivity.
Qed.

(** X27.  A convolutional model built for a number of channels other than 1 and
    3 cannot process its own images: the first convolution expects 3
    channels when the declared number is above 1 and 1 channel otherwise, so
    [forward] of a batch with the declared number of channels raises, for
    every batch size, height and width, and leaves the object as it was. *)
Theorem forward_conv_channels (c : Z) (rest : list Z) (cfg : Config)
  (self : VAE) (n h w : nat) :
  reachable (c :: rest) cfg self ->
  layer_type cfg = "conv"%string ->
  c <> 1%Z -> c <> 3%Z ->
  snd (forward self [n; Z.to_nat c; h; w]) = Raise shape_error /\
  fst (forward self [n; Z.to_nat c; h; w]) = self.
Proof.
  intros Hreach Hl H1 H3.
  destruct (@reachable_fields (c :: rest) cfg self Hreach)
    as (c0 & rest0 & E1 & E2 & E3 & E4 & E5 & E6).
  injection E1 as <- <-.
  assert (Hc : Z.of_nat (Z.to_nat c) <> chans self).
  { rewrite E4. destruct (1 <? c)%Z eqn:E.
    - apply Z.ltb_lt in E. rewrite Z2Nat.id by lia. exact H3.
    - apply Z.ltb_ge in E. lia. }
  pose proof (@conv_encoder_channels (c :: rest) (chans self) cfg
                (reparameterizer self) (encoder self) n (Z.to_nat c) h w
                Hl E5 Hc) as Hx.
  unfold forward, encode. rewrite Hx. split; reflexivity.
Qed.

Lemma reachable_projection_dense (shape : list Z) (cfg : Config)
  (self : VAE) :
  reachable shape cfg self ->
  layer_type cfg = "dense"%string ->
  Forall (fun d => 0 < d)%Z shape ->
  (0 < input_size (reparameterizer self))%Z ->
  let r := input_size (reparameterizer self) in
  enc_proj self = None \/
  enc_proj self = Some (place cfg [View [-1; r]%Z; Linear r r]).
Proof.
  intros Hreach Hl Hs. induction Hreach as [self H|self x Hreach IH];
    intros Hr r.
  - destruct (@init_fields shape cfg self H)
      as (c & rest & _ & _ & _ & Hp & _).
    auto.
  - subst r. rewrite forward_state in *.
    destruct (encode_fields self x) as (_ & _ & _ & E4 & E5 & _).
    rewrite E5 in *. specialize (IH Hr). cbv zeta in IH.
    destruct (@reachable_fields shape cfg self Hreach)
      as (c & rest & H1 & H2 & H3 & H4 & H5 & H6).
    destruct (module_shape (encoder self) x) as [conv|e] eqn:Hx.
    + destruct (@dense_encoder_output shape (chans self) cfg
                  (reparameterizer self) (encoder self) x conv
                  Hl H5 Hs Hr Hx) as [m ->].
      right. rewrite <- H3 in IH |- *.
      apply (@encode_with_projection self x _ m Hr Hx);
        [cbn [tl numel fold_right]; lia | cbn [numel fold_right]; lia
        | exact IH].
    + unfold encode. rewrite Hx. cbn [fst]. exact IH.
Qed.

(** X28.  The dense model gives back a batch of the size it was given.  For an
    object built with [layer_type = 'dense'] for a shape of positive
    dimensions, with a reparameterizer that turns [n] rows of [input_size]
    logits into [n] rows of [output_size] numbers, after any calls of
    [forward]: [forward] of a batch of [n] inputs of the declared shape
    returns a reconstruction of the size of the batch.  The batch holds at
    least two inputs, as batch normalisation asks while training. *)
Theorem forward_dense_reconstruction (shape : list Z) (cfg : Config)
  (self : VAE) (n : nat) :
  reachable shape cfg self ->
  layer_type cfg = "dense"%string ->
  Forall (fun d => 0 < d)%Z shape ->
  (0 < input_size (reparameterizer self))%Z ->
  (0 < output_size (reparameterizer self))%Z ->
  (1 < n)%nat ->
  sample_shape (reparameterizer self)
    [n; Z.to_nat (input_size (reparameterizer self))]
  = Ok [n; Z.to_nat (output_size (reparameterizer self))] ->
  snd (forward self (n :: map Z.to_nat shape))
  = Ok (n :: map Z.to_nat shape).
Proof.
  intros Hreach Hl Hs Hr Ho _ Hz.
  destruct (@reachable_fields shape cfg self Hreach)
    as (c & rest & H1 & H2 & H3 & H4 & H5 & H6).
  pose proof (@dense_encoder_shape shape (chans self) cfg
                (reparameterizer self) (encoder self) n Hl H5 Hs Hr) as Hx.
  pose proof (@dense_decoder_shape shape (chans self) cfg
                (reparameterizer self) (decoder self) n Hl H6 Hs Ho) as Hd.
  pose proof (@reachable_projection_dense shape cfg self Hreach Hl Hs Hr)
    as Hp.
  cbv zeta in Hp. rewrite <- H3 in Hp.
  destruct (@encode_with_projection self (n :: map Z.to_nat shape) _ n
              Hr Hx) as [He _];
    [cbn [tl numel fold_right]; lia | cbn [numel fold_right]; lia
    | exact Hp |].
  rewrite (@forward_value self _ _ _ He Hz). exact Hd.
Qed.

End ForwardFacts.

Section ForwardExamples.

Import Torch Vae Run.

Lemma encode_conv_width_witness :
  snd (encode
         (fst (forward
                 (Examples.built
                    (Examples.vae Examples.mnist_shape
                       Examples.default_config))
                 [4; 1; 28; 28]%nat))
         [7; 1; 40; 40]%nat)
  = Ok [7; 64]%nat /\
  enc_proj
    (fst (encode
            (fst (forward
                    (Examples.built
                       (Examples.vae Examples.mnist_shape
                          Examples.default_config))
                    [4; 1; 28; 28]%nat))
            [7; 1; 40; 40]%nat))
  = Some (place Examples.default_config [View [-1; 64]%Z; Linear 64 64]).
Proof.
  apply (@encode_conv_width
           (SpecReparam.reparameterizers (Examples.zero_mutual_info 2))
           Examples.mnist_shape Examples.default_config
           (fst (forward
                   (Examples.built
                      (Examples.vae Examples.mnist_shape
                         Examples.default_config))
                   [4; 1; 28; 28]%nat))
           7 40 40).
  - apply reach_forward. apply reach_init. reflexivity.
  - reflexivity.
  - reflexivity.
  - reflexivity.
  - discriminate.
  - lia.
  - lia.
  - lia.
Defined.

Lemma forward_conv_reconstruction_witness :
  decode
    (Examples.built
       (Examples.vae Examples.mnist_shape Examples.default_config))
    [4; 32]%nat
  = Ok [4; 1; 28; 28]%nat /\
  snd (forward
         (Examples.built
            (Examples.vae Examples.mnist_shape Examples.default_config))
         [4; 1; 28; 28]%nat)
  = Ok [4; 1; 28; 28]%nat /\
  ((1 = 1 \/ 1 = 3)%Z ->
   chans (Examples.built
            (Examples.vae Examples.mnist_shape Examples.default_config))
   = 1%Z).
Proof.
  apply (@forward_conv_reconstruction
           (SpecReparam.reparameterizers (Examples.zero_mutual_info 2))
           1 28 28 Examples.default_config
           (Examples.built
              (Examples.vae Examples.mnist_shape Examples.default_config))
           4 28 28).
  - apply reach_init. reflexivity.
  - reflexivity.
  - reflexivity.
  - reflexivity.
  - reflexivity.
  - reflexivity.
  - reflexivity.
  - lia.
  - lia.
  - lia.
  - left. discriminate.
  - reflexivity.
Defined.

Lemma forward_conv_channels_witness :
  returns (Examples.vae [2; 28; 28]%Z Examples.default_config) = true /\
  snd (forward
         (Examples.built (Examples.vae [2; 28; 28]%Z Examples.default_config))
         [4; Z.to_nat 2; 28; 28]%nat)
  = Raise shape_error.
Proof.
  split; [reflexivity|].
  apply (@forward_conv_channels
           (SpecReparam.reparameterizers (Examples.zero_mutual_info 2))
           2 [28; 28]%Z Examples.default_config
           (Examples.built
              (Examples.vae [2; 28; 28]%Z Examples.default_config))
           4 28 28).
  - apply reach_init. reflexivity.
  - reflexivity.
  - discriminate.
  - discriminate.
Defined.

Lemma forward_dense_reconstruction_witness :
  snd (forward
         (Examples.built
            (Examples.vae [1; 4; 4]%Z
               (Examples.with_types "isotropic_gaussian" "dense" "bernoulli"
                  Examples.default_config)))
         (4%nat :: map Z.to_nat [1; 4; 4]%Z))
  = Ok (4%nat :: map Z.to_nat [1; 4; 4]%Z).
Proof.
  apply (@forward_dense_reconstruction
           (SpecReparam.reparameterizers (Examples.zero_mutual_info 2))
           [1; 4; 4]%Z
           (Examples.with_types "isotropic_gaussian" "dense" "bernoulli"
              Examples.default_config)
           (Examples.built
              (Examples.vae [1; 4; 4]%Z
                 (Examples.with_types "isotropic_gaussian" "dense"
                    "bernoulli" Examples.default_config)))
           4).
  - apply reach_init. reflexivity.
  - reflexivity.
  - repeat constructor.
  - reflexivity.
  - reflexivity.
  - lia.
  - reflexivity.
Defined.

End ForwardExamples.

(** ** [get_name]: what is in the name and what is not *)

Section NameMore.

Import PyStr Vae Spec.

Open Scope string_scope.

Lemma clean_char_kept (c : ascii) :
  all_chars kept (clean (String c EmptyString)) = true.
Proof. destruct c as [[] [] [] [] [] [] [] []]; reflexivity. Qed.

Lemma clean_all_kept (s : string) : all_chars kept (clean s) = true.
Proof.
  induction s as [|c s IH]; [reflexivity|].
  change (String c s) with (String c EmptyString ++ s).
  rewrite clean_app, all_chars_app, clean_char_kept, IH. reflexivity.
Qed.

(** X29.  The name is ['vae_'], the task as it is, and a text in which no
    upper-case letter and none of the characters [[], []], space, [{], [}],
    [,], [:], [(], [)] and ['] occurs, whatever the configuration holds.
    The task itself is not normalised. *)
Theorem get_name_characters (self : VAE) :
  exists s,
    get_name self = "vae_" ++ task (config self) ++ s /\
    all_chars kept s = true.
Proof.
  eexists. split.
  - unfold get_name. cbv zeta. reflexivity.
  - exact (clean_all_kept _).
Qed.

(** X30.  What the name does not read.  Two objects with the same task, input
    shape, [continuous_size], [discrete_size], batch size, filter depth,
    [nll_type] and [reparam_type], whose [mut_reg] and [lr] print alike,
    have the same name: [layer_type], [cuda], [ngpu] and the modules of the
    object are not in it, so a convolutional and a dense model of one
    configuration share their name. *)
Theorem get_name_unread_fields (a b : VAE) :
  task (config a) = task (config b) ->
  (forall h, agree h a b) ->
  get_name a = get_name b.
Proof.
  intros Ht H.
  pose proof (H InputShape) as E1. pose proof (H ContinuousSize) as E2.
  pose proof (H DiscreteSize) as E3. pose proof (H BatchSize) as E4.
  pose proof (H MutReg) as E5. pose proof (H FilterDepth) as E6.
  pose proof (H NllType) as E7. pose proof (H ReparamType) as E8.
  pose proof (H Lr) as E9. cbn [agree] in *.
  unfold get_name. rewrite Ht, E1, E2, E3, E4, E5, E6, E7, E8, E9.
  reflexivity.
Qed.

Lemma get_name_unread_fields_witness :
  layer_type
    (config (Examples.built
               (Examples.vae Examples.mnist_shape Examples.default_config)))
  <> layer_type
       (config (Examples.built
                  (Examples.vae Examples.mnist_shape
                     (Examples.with_types "isotropic_gaussian" "dense"
                        "bernoulli" Examples.default_config)))) /\
  get_name (Examples.built
              (Examples.vae Examples.mnist_shape Examples.default_config))
  = get_name (Examples.built
                (Examples.vae Examples.mnist_shape
                   (Examples.with_types "isotropic_gaussian" "dense"
                      "bernoulli" Examples.default_config))).
Proof.
  split; [discriminate|].
  apply get_name_unread_fields.
  - reflexivity.
  - intros h. destruct h; reflexivity.
Defined.

End NameMore.

(** ** [normalize_images] and [normalize_train_test_images] *)

Section ImageFacts.

Import Torch Images.

Open Scope R_scope.

Lemma broadcast_axis_same (c : nat) : broadcast_axis c c = Ok c.
Proof. unfold broadcast_axis. rewrite Nat.eqb_refl. reflexivity. Qed.


Lemma broadcast_axis_raises (c k : nat) :
  k <> c -> k <> 1%nat -> c <> 1%nat ->
  broadcast_axis c k = Raise broadcast_error.
Proof.
  intros H1 H2 H3. unfold broadcast_axis.
  replace (Nat.eqb c k) with false by (symmetry; apply Nat.eqb_neq; lia).
  replace (Nat.eqb k 1) with false by (symmetry; apply Nat.eqb_neq; lia).
  replace (Nat.eqb c 1) with false by (symmetry; apply Nat.eqb_neq; lia).
  reflexivity.
Qed.

Lemma stats4_length (f : list R -> R) (c : nat) (a : list image) :
  List.length (stats4 f c a) = c.
Proof. unfold stats4. rewrite length_map, length_seq. reflexivity. Qed.

Lemma stats5_length (f : list R -> R) (c : nat) (a : list (list image)) :
  List.length (stats5 f c a) = c.
Proof. unfold stats5. rewrite length_map, length_seq. reflexivity. Qed.

(** With statistics of as many entries as the array has channels nothing
    is broadcast, and [shift] returns. *)
Lemma shift_value4 (c : nat) (a : list image) (mu sigma : list R) (eps : R) :
  List.length mu = c -> List.length sigma = c ->
  shift (Array4 c a) mu sigma eps
  = Ok (Array4 c
          (map (fun img =>
                  image_op Rdiv c (image_op Rminus c img mu)
                    (map (fun s => s + eps) sigma)) a)).
Proof.
  intros Hm Hs. unfold shift, array_op.
  rewrite Hm, broadcast_axis_same. cbn [bind].
  rewrite length_map, Hs, broadcast_axis_same. cbn [bind].
  rewrite map_map. reflexivity.
Qed.

Lemma shift_value5 (c : nat) (a : list (list image)) (mu sigma : list R)
  (eps : R) :
  List.length mu = c -> List.length sigma = c ->
  shift (Array5 c a) mu sigma eps
  = Ok (Array5 c
          (map (map (fun img =>
                       image_op Rdiv c (image_op Rminus c img mu)
                         (map (fun s => s + eps) sigma))) a)).
Proof.
  intros Hm Hs. unfold shift, array_op.
  rewrite Hm, broadcast_axis_same. cbn [bind].
  rewrite length_map, Hs, broadcast_axis_same. cbn [bind].
  rewrite map_map. f_equal. f_equal. apply map_ext. intros g.
  rewrite map_map. reflexivity.
Qed.





(** X16.  [normalize_train_test_images].  It fails its assertion when the two
    arrays differ in their number of dimensions or have fewer than four.
    Arrays of six dimensions or more pass the assertion and then make
    [normalize_images] raise 'unknown number of dims for normalization'.
    For two arrays of four, or two of five, dimensions with the same number
    of channels it returns the train images normalised by their own
    statistics and the test images normalised by those same statistics,
    which is what [normalize_images(test_imgs, mu, sigma)] returns for
    them; so a test set equal to the train set comes back equal to it.
    For two arrays of four dimensions whose numbers of channels differ,
    neither of them 1, the statistics of the train images cannot be
    broadcast to the test images and the call raises. *)
Theorem normalize_train_test_images_cases (train test : ndarray) (eps : R) :
  ((ndim train <> ndim test \/ ndim test < 4)%nat ->
   normalize_train_test_images train test eps = Raise AssertionError) /\
  (forall n, train = ArrayN n -> test = ArrayN n -> (6 <= n)%nat ->
     normalize_train_test_images train test eps
     = Raise (Exception "unknown number of dims for normalization")) /\
  (((exists c a b, train = Array4 c a /\ test = Array4 c b) \/
    (exists c a b, train = Array5 c a /\ test = Array5 c b)) ->
   exists tr te mu sigma,
     normalize_images train None None eps = Ok (tr, (mu, sigma)) /\
     normalize_train_test_images train test eps = Ok (tr, te) /\
     normalize_images test (Some mu) (Some sigma) eps
     = Ok (te, (mu, sigma)) /\
     (train = test -> tr = te)) /\
  (forall c c' a b, train = Array4 c a -> test = Array4 c' b ->
     c' <> c -> c <> 1%nat -> c' <> 1%nat ->
     normalize_train_test_images train test eps = Raise broadcast_error).
Proof.
  split; [|split; [|split]].
  - intros H. unfold normalize_train_test_images.
    replace (Nat.eqb (ndim train) (ndim test) && Nat.leb 4 (ndim test))%bool
      with false; [reflexivity|].
    symmetry. apply andb_false_iff. destruct H as [H|H].
    + left. apply Nat.eqb_neq. exact H.
    + right. apply Nat.leb_gt. exact H.
  - intros n -> -> Hn. unfold normalize_train_test_images. cbn [ndim].
    rewrite Nat.eqb_refl.
    replace (Nat.leb 4 n) with true by (symmetry; apply Nat.leb_le; lia).
    reflexivity.
  - intros [(c & a & b & -> & ->)|(c & a & b & -> & ->)].
    + unfold normalize_train_test_images, normalize_images.
      cbn [ndim Nat.eqb Nat.leb andb negb bind fst snd].
      rewrite shift_value4 by apply stats4_length. cbn [bind fst snd].
      rewrite shift_value4 by apply stats4_length. cbn [bind fst snd].
      do 4 eexists. split; [reflexivity|]. split; [reflexivity|].
      split.
      * rewrite shift_value4 by apply stats4_length. reflexivity.
      * intros E. injection E as <-. reflexivity.
    + unfold normalize_train_test_images, normalize_images.
      cbn [ndim Nat.eqb Nat.leb andb negb bind fst snd].
      rewrite shift_value5 by apply stats5_length. cbn [bind fst snd].
      rewrite shift_value5 by apply stats5_length. cbn [bind fst snd].
      do 4 eexists. split; [reflexivity|]. split; [reflexivity|].
      split.
      * rewrite shift_value5 by apply stats5_length. reflexivity.
      * intros E. injection E as <-. reflexivity.
  - intros c c' a b -> -> H1 H2 H3.
    unfold normalize_train_test_images, normalize_images.
    cbn [ndim Nat.eqb Nat.leb andb negb bind fst snd].
    rewrite shift_value4 by apply stats4_length. cbn [bind fst snd].
    unfold shift, array_op. rewrite stats4_length.
    rewrite broadcast_axis_raises by (try assumption; congruence).
    reflexivity.
Qed.

Lemma normalize_train_test_images_cases_witness :
  normalize_train_test_images (Array4 1 [[[1; 2]]]) (ArrayN 3) (/ 10 ^ 9)
  = Raise AssertionError /\
  normalize_train_test_images (Array4 2 [[[1; 3]; [5; 7]]])
    (Array4 3 [[[1]; [2]; [3]]]) (/ 10 ^ 9)
  = Raise broadcast_error.
Proof.
  split.
  - destruct (normalize_train_test_images_cases
                (Array4 1 [[[1; 2]]]) (ArrayN 3) (/ 10 ^ 9)) as [H _].
    apply H. left. simpl. lia.
  - destruct (normalize_train_test_images_cases
                (Array4 2 [[[1; 3]; [5; 7]]]) (Array4 3 [[[1]; [2]; [3]]])
                (/ 10 ^ 9)) as [_ [_ [_ H]]].
    apply (H 2%nat 3%nat _ _ eq_refl eq_refl); lia.
Defined.

Lemma nth_map_seq (A : Type) (g : nat -> A) (n i : nat) (d : A) :
  (i < n)%nat -> nth i (map g (seq 0 n)) d = g i.
Proof.
  intros H.
  rewrite (nth_indep _ d (g 0%nat))
    by (rewrite length_map, length_seq; exact H).
  rewrite (map_nth g (seq 0 n) 0%nat i).
  rewrite seq_nth by exact H. reflexivity.
Qed.

Lemma along_nth (A : Type) (l : list A) (i : nat) (d : A) :
  (i < List.length l)%nat -> along l i d = nth i l d.
Proof.
  destruct l as [|x [|y l]]; cbn [along List.length]; intros H;
    try reflexivity.
  destruct i; [reflexivity | lia].
Qed.

Lemma image_op_length (f : R -> R -> R) (n : nat) (img : image)
  (stats : list R) : List.length (image_op f n img stats) = n.
Proof. unfold image_op. rewrite length_map, length_seq. reflexivity. Qed.

Lemma nth_image_op (f : R -> R -> R) (n : nat) (img : image) (stats : list R)
  (i : nat) :
  (i < n)%nat -> (i < List.length img)%nat -> (i < List.length stats)%nat ->
  nth i (image_op f n img stats) []
  = map (fun v => f v (nth i stats 0)) (nth i img []).
Proof.
  intros Hn Hi Hs. unfold image_op.
  rewrite (nth_map_seq
             (fun i => map (fun v => f v (along stats i 0)) (along img i []))
             [] Hn).
  rewrite !along_nth by assumption. reflexivity.
Qed.

(** Channel [i] of the normalised images. *)
Lemma channel4_normalized (c : nat) (mu sigma : list R) (a : list image)
  (i : nat) :
  (i < c)%nat -> List.length mu = c -> List.length sigma = c ->
  Forall (fun img : image => List.length img = c) a ->
  channel4 (map (fun img => image_op Rdiv c (image_op Rminus c img mu) sigma)
              a) i
  = map (fun v => (v - nth i mu 0) / nth i sigma 0) (channel4 a i).
Proof.
  intros Hi Hm Hs. unfold channel4.
  induction 1 as [|img a Himg _ IH]; [reflexivity|].
  cbn [map flat_map]. rewrite map_app, IH. f_equal.
  rewrite nth_image_op
    by (rewrite ?image_op_length, ?Hs; exact Hi).
  rewrite nth_image_op by (rewrite ?Himg, ?Hm; exact Hi).
  rewrite map_map. reflexivity.
Qed.

Lemma vsum_shifted (m d : R) (l : list R) :
  vsum (map (fun v => (v - m) / d) l)
  = (vsum l - INR (List.length l) * m) / d.
Proof.
  induction l as [|x l IH].
  - cbn. unfold Rdiv. ring.
  - cbn [map vsum fold_right List.length]. fold (vsum l).
    fold (vsum (map (fun v => (v - m) / d) l)).
    rewrite IH, S_INR. unfold Rdiv. ring.
Qed.

Lemma np_mean_shifted (d : R) (l : list R) :
  l <> [] -> np_mean (map (fun v => (v - np_mean l) / d) l) = 0.
Proof.
  intros Hl. unfold np_mean at 1. rewrite vsum_shifted, length_map.
  assert (Hn : INR (List.length l) <> 0).
  { apply not_0_INR. destruct l; [contradiction | discriminate]. }
  replace (vsum l - INR (List.length l) * np_mean l) with 0
    by (unfold np_mean; field; exact Hn).
  unfold Rdiv. ring.
Qed.

Lemma np_std_nonneg (l : list R) : 0 <= np_std l.
Proof. unfold np_std. apply sqrt_pos. Qed.

(** X17.  Over the reals, normalised images have mean zero in every channel.
    For a batch of images of four dimensions with [c] channels, a positive
    [eps] and a channel that holds at least one pixel: [normalize_images]
    without statistics returns the mean and the standard deviation of that
    channel among them, the divisor [sigma + eps] of that channel is
    positive, and in the images it returns the mean of that channel is
    0. *)
Theorem normalize_images_zero_mean (c : nat) (a : list image) (eps : R)
  (i : nat) :
  0 < eps ->
  (i < c)%nat ->
  well_shaped (Array4 c a) ->
  channel4 a i <> [] ->
  exists out mu sigma,
    normalize_images (Array4 c a) None None eps
    = Ok (Array4 c out, (mu, sigma)) /\
    nth i mu 0 = np_mean (channel4 a i) /\
    nth i sigma 0 = np_std (channel4 a i) /\
    0 < nth i sigma 0 + eps /\
    np_mean (channel4 out i) = 0.
Proof.
  intros He Hi Hc Hne. cbn [well_shaped] in Hc.
  unfold normalize_images. cbn [bind fst snd].
  rewrite shift_value4 by apply stats4_length. cbn [bind].
  do 3 eexists. split; [reflexivity|].
  assert (Hmu : nth i (stats4 np_mean c a) 0 = np_mean (channel4 a i))
    by (unfold stats4;
        apply (nth_map_seq (fun j => np_mean (channel4 a j)) 0 Hi)).
  assert (Hsd : nth i (stats4 np_std c a) 0 = np_std (channel4 a i))
    by (unfold stats4;
        apply (nth_map_seq (fun j => np_std (channel4 a j)) 0 Hi)).
  split; [exact Hmu|]. split; [exact Hsd|].
  split.
  - rewrite Hsd. pose proof (np_std_nonneg (channel4 a i)). lra.
  - rewrite channel4_normalized;
      [| exact Hi | apply stats4_length
       | rewrite length_map; apply stats4_length | exact Hc].
    rewrite Hmu. apply np_mean_shifted. exact Hne.
Qed.

Lemma normalize_images_zero_mean_witness :
  exists out mu sigma,
    normalize_images (Array4 1 [[[1; 3]]; [[5; 7]]]) None None (/ 10 ^ 9)
    = Ok (Array4 1 out, (mu, sigma)) /\
    nth 0 mu 0 = np_mean (channel4 [[[1; 3]]; [[5; 7]]] 0) /\
    nth 0 sigma 0 = np_std (channel4 [[[1; 3]]; [[5; 7]]] 0) /\
    0 < nth 0 sigma 0 + / 10 ^ 9 /\
    np_mean (channel4 out 0) = 0.
Proof.
  apply (@normalize_images_zero_mean 1 [[[1; 3]]; [[5; 7]]] (/ 10 ^ 9) 0).
  - apply Rinv_0_lt_compat. apply pow_lt. lra.
  - lia.
  - repeat constructor.
  - unfold channel4. simpl. discriminate.
Defined.

End ImageFacts.
